(** * IPTV player: playlist and guide ingestion, freshness cache, now/next

    A shallow embedding of the ingestion core of the backend:
    - [utils/m3u-parser.ts]   (playlist parser, [Module M3u]),
    - [utils/xmltv-parser.ts] (guide parser, [Module Xmltv]),
    - [db/queries.ts]         (guide sources and programs, [Module Queries]),
    - [routes/epg.ts]         ([refreshEPGIfNeeded], [Module EpgRoute]),
    - [routes/channels.ts]    (the enrichment merge, [Module ChannelsRoute]).

    JavaScript strings are modelled as [string] (code units below 256),
    JavaScript numbers that hold timestamps as integers plus [NaN]. The
    clock, the identifier generator and the network are oracles of the
    environment; asynchronous calls are awaited one after the other, so
    a computation is a function from the world to an outcome and a new
    world. *)

From Stdlib Require Import ZArith String Ascii List Bool Lia DecimalString.
From Stdlib Require Import Sorted OrderedTypeEx.
From stdpp Require Import base gmap strings.
Import ListNotations.

Local Open Scope string_scope.
Local Open Scope Z_scope.

#[local] Arguments String.append !s1 s2 /.

(** ** JavaScript primitives used by the parsers *)

Module Js.

(** A JavaScript number holding an integer, or [NaN]. *)
Inductive number : Type :=
| Num (z : Z)
| NaN.

Definition lift2 (f : Z -> Z -> Z) (a b : number) : number :=
  match a, b with
  | Num x, Num y => Num (f x y)
  | _, _ => NaN
  end.

Definition add := lift2 Z.add.
Definition sub := lift2 Z.sub.
Definition mul := lift2 Z.mul.

(** Relational operators: every comparison with [NaN] is [false]. *)
Definition lt (a b : number) : bool :=
  match a, b with
  | Num x, Num y => x <? y
  | _, _ => false
  end.

Definition gt (a b : number) : bool := lt b a.

Definition le (a b : number) : bool :=
  match a, b with
  | Num x, Num y => x <=? y
  | _, _ => false
  end.

Definition code (c : ascii) : N := N_of_ascii c.

(** [StrWhiteSpaceChar] restricted to code units below 256:
    TAB, LF, VT, FF, CR, SP and NBSP. *)
Definition is_space (c : ascii) : bool :=
  let n := code c in
  ((9 <=? n) && (n <=? 13) || (n =? 32) || (n =? 160))%N.

(** [\d] and the digits [parseInt] accepts in radix 10. *)
Definition is_digit (c : ascii) : bool :=
  let n := code c in ((48 <=? n) && (n <=? 57))%N.

Definition digit_val (c : ascii) : Z := Z.of_N (code c) - 48.

Fixpoint trimStart (s : string) : string :=
  match s with
  | EmptyString => EmptyString
  | String c s' => if is_space c then trimStart s' else s
  end.

Fixpoint trimEnd (s : string) : string :=
  match s with
  | EmptyString => EmptyString
  | String c s' =>
      match trimEnd s' with
      | EmptyString => if is_space c then EmptyString else String c EmptyString
      | t => String c t
      end
  end.

(** [String.prototype.trim]. *)
Definition trim (s : string) : string := trimEnd (trimStart s).

(** [s.substring(a, b)] for [a <= b] (the only use in the sources). *)
Definition substring (a b : nat) (s : string) : string :=
  String.substring a (b - a) s.

(** [s.startsWith(p)]. *)
Definition startsWith (p s : string) : bool := String.prefix p s.

(** Longest prefix of decimal digits, read positionally. [None] when the
    string does not start with a digit. *)
Fixpoint digits_from (acc : Z) (s : string) : Z :=
  match s with
  | String c s' => if is_digit c then digits_from (10 * acc + digit_val c) s' else acc
  | EmptyString => acc
  end.

Definition starts_with_digit (s : string) : bool :=
  match s with
  | String c _ => is_digit c
  | EmptyString => false
  end.

(** [parseInt(s, 10)]: skip leading white space, read an optional sign,
    then the longest run of digits; [NaN] when there is no digit. *)
Definition parseInt (s : string) : number :=
  let t := trimStart s in
  let '(sign, body) :=
    match t with
    | String "-" r => (-1, r)
    | String "+" r => (1, r)
    | _ => (1, t)
    end in
  if starts_with_digit body then Num (sign * digits_from 0 body) else NaN.

(** *** [Date.UTC] (ECMAScript, section "Date objects") *)

Definition msPerDay : Z := 86400000.

Definition DayFromYear (y : Z) : Z :=
  365 * (y - 1970) + (y - 1969) / 4 - (y - 1901) / 100 + (y - 1601) / 400.

Definition InLeapYear (y : Z) : bool :=
  ((y mod 4 =? 0) && negb (y mod 100 =? 0)) || (y mod 400 =? 0).

(** Days of the year before month [mn] (0-based). *)
Definition DaysBeforeMonth (leap : bool) (mn : Z) : Z :=
  let l := if leap then 1 else 0 in
  match mn with
  | 0 => 0
  | 1 => 31
  | 2 => 59 + l
  | 3 => 90 + l
  | 4 => 120 + l
  | 5 => 151 + l
  | 6 => 181 + l
  | 7 => 212 + l
  | 8 => 243 + l
  | 9 => 273 + l
  | 10 => 304 + l
  | _ => 334 + l
  end.

Definition MakeDay (year month date : Z) : Z :=
  let ym := year + month / 12 in
  let mn := month mod 12 in
  DayFromYear ym + DaysBeforeMonth (InLeapYear ym) mn + date - 1.

Definition MakeTime (hour min sec ms : Z) : Z :=
  hour * 3600000 + min * 60000 + sec * 1000 + ms.

Definition MakeDate (day time : Z) : Z := day * msPerDay + time.

Definition TimeClip (t : Z) : number :=
  if Z.abs t <=? 8640000000000000 then Num t else NaN.

(** [Date.UTC(year, month, day, hours, minutes, seconds)]; a year in
    [0..99] denotes [1900 + year]. *)
Definition Date_UTC (year month day hours minutes seconds : number) : number :=
  match year, month, day, hours, minutes, seconds with
  | Num y, Num m, Num dt, Num h, Num mi, Num s =>
      let yr := if (0 <=? y) && (y <=? 99) then 1900 + y else y in
      TimeClip (MakeDate (MakeDay yr m dt) (MakeTime h mi s 0))
  | _, _, _, _, _, _ => NaN
  end.

(** [String(error)] for an [Error] with the given message: the name,
    followed by the message when there is one. *)
Definition String_error (message : string) : string :=
  if String.eqb message EmptyString then "Error"
  else ("Error: " ++ message)%string.

End Js.

(** ** Guide parser: [utils/xmltv-parser.ts] *)

Module Xmltv.

Definition is_sign (c : ascii) : bool :=
  (Ascii.eqb c "+" || Ascii.eqb c "-")%bool.

(** [cleanStr.match(/([+-])(\d{2})(\d{2})$/)]: the pattern has fixed
    length five and is anchored at the end of the input, so the only
    candidate is the last five code units. The groups are returned. *)
Definition tzMatch (s : string) : option (ascii * string * string) :=
  let n := String.length s in
  if (n <? 5)%nat then None
  else
    match String.substring (n - 5) 5 s with
    | String c (String h1 (String h2 (String m1 (String m2 EmptyString)))) =>
        if is_sign c && Js.is_digit h1 && Js.is_digit h2
           && Js.is_digit m1 && Js.is_digit m2
        then Some (c, String h1 (String h2 EmptyString),
                      String m1 (String m2 EmptyString))
        else None
    | _ => None
    end.

(** [parseXMLTVDateTime]: Unix time in milliseconds, or [NaN]. *)
Definition parseXMLTVDateTime (dateStr : string) : Js.number :=
  let cleanStr := Js.trim dateStr in
  let dateTimePart := Js.substring 0 14 cleanStr in
  let year := Js.parseInt (Js.substring 0 4 dateTimePart) in
  let month := Js.sub (Js.parseInt (Js.substring 4 6 dateTimePart)) (Js.Num 1) in
  let day := Js.parseInt (Js.substring 6 8 dateTimePart) in
  let hour := Js.parseInt (Js.substring 8 10 dateTimePart) in
  let minute := Js.parseInt (Js.substring 10 12 dateTimePart) in
  let second := Js.parseInt (Js.substring 12 14 dateTimePart) in
  match tzMatch cleanStr with
  | Some (sg, hh, mm) =>
      let tzSign := if Ascii.eqb sg "+" then Js.Num 1 else Js.Num (-1) in
      let tzHours := Js.parseInt hh in
      let tzMinutes := Js.parseInt mm in
      let tzOffsetMs :=
        Js.mul (Js.mul (Js.mul tzSign
                  (Js.add (Js.mul tzHours (Js.Num 60)) tzMinutes))
                  (Js.Num 60)) (Js.Num 1000) in
      let utcDate := Js.Date_UTC year month day hour minute second in
      Js.sub utcDate tzOffsetMs
  | None => Js.Date_UTC year month day hour minute second
  end.

(** The guide entry produced by the parser ([EPGProgram]). *)
Record EPGProgram : Type := {
  channel_id : string;
  title : string;
  description : option string;
  start_time : Js.number;
  end_time : Js.number;
  category : option string;
  icon_url : option string
}.

Record ParseXMLTVResult : Type := {
  programs : list EPGProgram;
  errors : list string
}.

(** Text content as the XML reader delivers it: a bare string, an object
    that may carry the text under ['#text'], or an array of those. Text
    is taken as strings. *)
Inductive textitem : Type :=
| TStr (s : string)
| TObj (text : option string).

Inductive textnode : Type :=
| One (i : textitem)
| Many (items : list textitem).

(** A [programme] element: its attributes and the children read here.
    [icon] is [Some src] when the element has an [icon] child, with
    [src] its ['@_src'] attribute. *)
Record programme : Type := {
  a_channel : option string;
  a_start : option string;
  a_stop : option string;
  e_title : option textnode;
  e_desc : option textnode;
  e_category : option textnode;
  e_icon : option (option string)
}.

(** What [parser.parse(xmlContent)] gives: an exception; an object whose
    [tv] is falsy ([NoTv]: there is no [tv] element, or the element has
    neither attributes nor content, which the reader gives as the empty
    string, so [<tv/>] and [<tv></tv>] are of this kind); or an object
    whose [tv] is an object, with the [programme] list of it. *)
Inductive document : Type :=
| XmlThrows (message : string)
| NoTv
| Tv (programmes : list programme).

(** Truthiness of a string and of an optional string. *)
Definition truthy (s : string) : bool :=
  match s with EmptyString => false | _ => true end.

Definition truthy_opt (o : option string) : bool :=
  match o with Some s => truthy s | None => false end.

Definition item_truthy (i : textitem) : bool :=
  match i with TStr s => truthy s | TObj _ => true end.

(** [typeof x === 'string' ? x : x['#text']]. *)
Definition item_text (i : textitem) : option string :=
  match i with TStr s => Some s | TObj t => t end.

(** The title chain of [parseXMLTV]; the result is [''] when nothing
    resolves. *)
Definition extract_title (t : option textnode) : string :=
  match t with
  | None => EmptyString
  | Some (One (TStr s)) => s
  | Some (One (TObj o)) => if truthy_opt o then default EmptyString o else EmptyString
  | Some (Many items) =>
      match items with
      | first :: _ =>
          if item_truthy first then
            match first with
            | TStr s => s
            | TObj o => if truthy_opt o then default EmptyString o else EmptyString
            end
          else EmptyString
      | [] => EmptyString
      end
  end.

Definition extract_desc (t : option textnode) : option string :=
  match t with
  | None => None
  | Some (One (TStr s)) => if truthy s then Some s else None
  | Some (One (TObj o)) => if truthy_opt o then o else None
  | Some (Many items) =>
      match items with
      | first :: _ => if item_truthy first then item_text first else None
      | [] => None
      end
  end.

Definition extract_category (t : option textnode) : option string :=
  match t with
  | None => None
  | Some (One (TStr s)) => if truthy s then Some s else None
  | Some (One (TObj o)) => o
  | Some (Many items) =>
      match items with
      | cat :: _ => if item_truthy cat then item_text cat else None
      | [] => None
      end
  end.

Definition extract_icon (i : option (option string)) : option string :=
  match i with
  | Some (Some src) => if truthy src then Some src else None
  | _ => None
  end.

(** The body of the [for] loop of [parseXMLTV] for one element: [None]
    on each [continue], the pushed program otherwise. No operation of
    the body throws on the values above, so the [catch] branch, the
    only place that appends to [errors], is never entered. *)
Definition parse_programme (now : Z) (prog : programme) : option EPGProgram :=
  let maxTime := now + 48 * 60 * 60 * 1000 in
  match a_channel prog, a_start prog, a_stop prog with
  | Some channelId, Some startStr, Some stopStr =>
      if negb (truthy channelId) || negb (truthy startStr) || negb (truthy stopStr)
      then None
      else
        let startTime := parseXMLTVDateTime startStr in
        let endTime := parseXMLTVDateTime stopStr in
        if Js.lt endTime (Js.Num now) || Js.gt startTime (Js.Num maxTime) then None
        else
          let title := extract_title (e_title prog) in
          if negb (truthy title) then None
          else Some {| channel_id := channelId;
                       title := title;
                       description := extract_desc (e_desc prog);
                       start_time := startTime;
                       end_time := endTime;
                       category := extract_category (e_category prog);
                       icon_url := extract_icon (e_icon prog) |}
  | _, _, _ => None
  end.

Fixpoint parse_loop (now : Z) (programmes : list programme)
    (programs : list EPGProgram) (errors : list string)
    : list EPGProgram * list string :=
  match programmes with
  | [] => (programs, errors)
  | prog :: rest =>
      match parse_programme now prog with
      | Some p => parse_loop now rest (programs ++ [p]) errors
      | None => parse_loop now rest programs errors
      end
  end.

(** [parseXMLTV], given the clock reading and the parsed document. *)
Definition parseXMLTV (now : Z) (doc : document) : ParseXMLTVResult :=
  match doc with
  | XmlThrows message =>
      {| programs := []; errors := ["Error parsing XMLTV: " ++ message] |}
  | NoTv =>
      {| programs := []; errors := ["Invalid XMLTV: missing <tv> root element"] |}
  | Tv programmes =>
      let '(programs, errors) := parse_loop now programmes [] [] in
      {| programs := programs; errors := errors |}
  end.

(** The response to [fetch(url)] for a guide feed. *)
Inductive response : Type :=
| FetchThrows (message : string)
| NotOk (status statusText : string)
| Body (doc : document).

(** [fetchAndParseXMLTV], given the response and the clock reading. *)
Definition fetchAndParseXMLTV (now : Z) (r : response) : ParseXMLTVResult :=
  match r with
  | FetchThrows message =>
      {| programs := []; errors := ["Error fetching XMLTV: " ++ message] |}
  | NotOk status statusText =>
      {| programs := [];
         errors := ["Failed to fetch XMLTV: " ++ status ++ " " ++ statusText] |}
  | Body doc => parseXMLTV now doc
  end.

(** The comparator [(a, b) => a.start_time - b.start_time] says that [a]
    does not come after [b]: the difference is at most 0, a [NaN]
    difference counting as 0. *)
Definition not_after (a b : EPGProgram) : bool :=
  match Js.sub (start_time a) (start_time b) with
  | Js.Num d => d <=? 0
  | Js.NaN => true
  end.

Fixpoint insert_by_start (p : EPGProgram) (l : list EPGProgram) : list EPGProgram :=
  match l with
  | [] => [p]
  | x :: rest => if not_after p x then p :: l else x :: insert_by_start p rest
  end.

(** [.sort(comparator)], a stable sort. *)
Definition sort_by_start (l : list EPGProgram) : list EPGProgram :=
  List.fold_right insert_by_start [] l.

(** The loop of [getNowNext]; it returns at the [break]. *)
Fixpoint getNowNext_loop (now : Z) (channelPrograms : list EPGProgram)
    (nowProgram nextProgram : option EPGProgram)
    : option EPGProgram * option EPGProgram :=
  match channelPrograms with
  | [] => (nowProgram, nextProgram)
  | program :: rest =>
      if Js.le (start_time program) (Js.Num now) && Js.gt (end_time program) (Js.Num now)
      then getNowNext_loop now rest (Some program) nextProgram
      else if Js.gt (start_time program) (Js.Num now)
              && negb (match nextProgram with Some _ => true | None => false end)
      then (nowProgram, Some program)
      else getNowNext_loop now rest nowProgram nextProgram
  end.

(** [getNowNext]: the pair of [now] and [next]. *)
Definition getNowNext (programs : list EPGProgram) (channelId : string) (now : Z)
    : option EPGProgram * option EPGProgram :=
  let channelPrograms :=
    sort_by_start
      (List.filter (fun p => String.eqb (channel_id p) channelId) programs) in
  getNowNext_loop now channelPrograms None None.

End Xmltv.

(** ** Playlist parser: [utils/m3u-parser.ts] *)

Module M3u.

Record Channel : Type := {
  name : string;
  url : string;
  logo : option string;
  group : option string;
  tvg_id : option string
}.

(** [Partial<Channel>], the pending record built from a metadata line. *)
Record PartialChannel : Type := {
  p_name : option string;
  p_url : option string;
  p_logo : option string;
  p_group : option string;
  p_tvg_id : option string
}.

Record ParseResult : Type := {
  channels : list Channel;
  errors : list string;
  epg_url : option string
}.

Definition truthy (s : string) : bool :=
  match s with EmptyString => false | _ => true end.

(** Case folding of the [i] flag on code units below 128. *)
Definition lower (c : ascii) : ascii :=
  let n := Js.code c in
  if ((65 <=? n) && (n <=? 90))%N then ascii_of_N (n + 32) else c.

Definition dquote : ascii := "034"%char.

Definition char_eq (ci : bool) (a b : ascii) : bool :=
  if ci then Ascii.eqb (lower a) (lower b) else Ascii.eqb a b.

(** Match the literal [lit] at the start of [s]; the rest on success. *)
Fixpoint strip_literal (ci : bool) (lit s : string) : option string :=
  match lit with
  | EmptyString => Some s
  | String a lit' =>
      match s with
      | String b s' => if char_eq ci a b then strip_literal ci lit' s' else None
      | EmptyString => None
      end
  end.

(** The group and closing quote of the attribute patterns at the start
    of [s]: the run of non-quote code units up to the first quote. *)
Fixpoint until_quote (s : string) : option string :=
  match s with
  | EmptyString => None
  | String c s' =>
      if Ascii.eqb c dquote then Some EmptyString
      else option_map (String c) (until_quote s')
  end.

(** The literal part of an attribute pattern: the key, an equals sign and
    the opening quote. *)
Definition attr_literal (key : string) : string :=
  key ++ "=" ++ String dquote EmptyString.

Definition attr_at (ci : bool) (key : string) (s : string) : option string :=
  match strip_literal ci (attr_literal key) s with
  | Some rest => until_quote rest
  | None => None
  end.

(** [s.match(re)] for the attribute pattern of [key], an equals sign and
    a quoted value (with the [i] flag when [ci]): group 1 of the leftmost
    match. *)
Fixpoint match_attr (ci : bool) (key : string) (s : string) : option string :=
  match attr_at ci key s with
  | Some v => Some v
  | None =>
      match s with
      | EmptyString => None
      | String _ s' => match_attr ci key s'
      end
  end.

(** [extractEpgUrl]. *)
Definition extractEpgUrl (headerLine : string) : option string :=
  match match_attr true "url-tvg" headerLine with
  | Some v => if truthy v then Some v else
      match match_attr true "x-tvg-url" headerLine with
      | Some w => if truthy w then Some w else None
      | None => None
      end
  | None =>
      match match_attr true "x-tvg-url" headerLine with
      | Some w => if truthy w then Some w else None
      | None => None
      end
  end.

(** The text after the last comma: [line.substring(line.lastIndexOf(',') + 1)],
    [None] when the line has no comma. *)
Fixpoint after_last_comma (s : string) : option string :=
  match s with
  | EmptyString => None
  | String c s' =>
      match after_last_comma s' with
      | Some t => Some t
      | None => if Ascii.eqb c "," then Some s' else None
      end
  end.

(** [parseExtinf]. *)
Definition parseExtinf (line : string) : PartialChannel :=
  {| p_name := option_map Js.trim (after_last_comma line);
     p_url := None;
     p_logo := match_attr false "tvg-logo" line;
     p_group := match_attr false "group-title" line;
     p_tvg_id :=
       match match_attr true "tvg-id" line with
       | Some v => if truthy v then Some v else None
       | None => None
       end |}.

(** [content.split('\n')]. *)
Fixpoint split_lines (s : string) : list string :=
  match s with
  | EmptyString => [EmptyString]
  | String c s' =>
      if Ascii.eqb c "010" then EmptyString :: split_lines s'
      else
        match split_lines s' with
        | l :: ls => String c l :: ls
        | [] => [String c EmptyString]
        end
  end.

(** Decimal rendering of a line number in a template string. *)
Definition show_nat (n : nat) : string :=
  DecimalString.NilEmpty.string_of_uint (Nat.to_uint n).

Record state : Type := {
  st_channels : list Channel;
  st_errors : list string;
  currentChannel : option PartialChannel
}.

Section WithUrl.

(** [new URL(s).protocol], [None] when the constructor throws. The URL
    reader belongs to the platform. *)
Variable url_protocol : string -> option string.

(** [isValidUrl]. *)
Definition isValidUrl (urlString : string) : bool :=
  match url_protocol urlString with
  | Some protocol => String.eqb protocol "http:" || String.eqb protocol "https:"
  | None => false
  end.

(** One iteration of the line loop, at index [i] (0-based). *)
Definition step (st : state) (i : nat) (line : string) : state :=
  if negb (truthy line)
     || (Js.startsWith "#" line && negb (Js.startsWith "#EXTINF" line))
  then st
  else if Js.startsWith "#EXTINF" line then
    {| st_channels := st_channels st;
       st_errors := st_errors st;
       currentChannel := Some (parseExtinf line) |}
  else
    match currentChannel st with
    | Some cur =>
        if isValidUrl line then
          match p_name cur with
          | Some n =>
              if truthy n && truthy line then
                {| st_channels := st_channels st ++
                     [{| name := n; url := line; logo := p_logo cur;
                         group := p_group cur; tvg_id := p_tvg_id cur |}];
                   st_errors := st_errors st;
                   currentChannel := None |}
              else
                {| st_channels := st_channels st;
                   st_errors := st_errors st ++
                     ["Skipped channel with missing data at line " ++ show_nat (i + 1)];
                   currentChannel := None |}
          | None =>
              {| st_channels := st_channels st;
                 st_errors := st_errors st ++
                   ["Skipped channel with missing data at line " ++ show_nat (i + 1)];
                 currentChannel := None |}
          end
        else st
    | None => st
    end.

(** [for (let i = ...; i < lines.length; i++)] over the lines from
    index [i] on. *)
Fixpoint loop (st : state) (i : nat) (lines : list string) : state :=
  match lines with
  | [] => st
  | line :: rest => loop (step st i line) (S i) rest
  end.

(** The part of [parseM3U] after the split into trimmed lines. *)
Definition parse_lines (lines : list string) : ParseResult :=
  match lines with
  | [] =>
      {| channels := []; errors := ["Invalid M3U file: missing #EXTM3U header"];
         epg_url := None |}
  | header :: rest =>
      if negb (Js.startsWith "#EXTM3U" header) then
        {| channels := []; errors := ["Invalid M3U file: missing #EXTM3U header"];
           epg_url := None |}
      else
        let st := loop {| st_channels := []; st_errors := []; currentChannel := None |}
                       1 rest in
        {| channels := st_channels st; errors := st_errors st;
           epg_url := extractEpgUrl header |}
  end.

(** The part of [parseM3U] after the body has been read. *)
Definition parseM3U_content (content : string) : ParseResult :=
  parse_lines (List.map Js.trim (split_lines content)).

(** The response to [fetch(url)] for a playlist. *)
Inductive response : Type :=
| FetchThrows (message : string)
| NotOk (status statusText : string)
| Body (content : string).

(** [parseM3U], given the response. *)
Definition parseM3U (r : response) : ParseResult :=
  match r with
  | FetchThrows message =>
      {| channels := []; errors := ["Error parsing M3U: " ++ message];
         epg_url := None |}
  | NotOk status statusText =>
      {| channels := [];
         errors := ["Failed to fetch M3U: " ++ status ++ " " ++ statusText];
         epg_url := None |}
  | Body content => parseM3U_content content
  end.

End WithUrl.

(** A reader for the scheme of an absolute URL, after the scheme states
    of the URL standard: an ASCII letter, then letters, digits, [+], [-]
    and [.], up to the first colon; the scheme is lower-cased. *)
Definition is_alpha (c : ascii) : bool :=
  let n := Js.code (lower c) in ((97 <=? n) && (n <=? 122))%N.

Definition is_scheme_char (c : ascii) : bool :=
  is_alpha c || Js.is_digit c || Ascii.eqb c "+" || Ascii.eqb c "-" || Ascii.eqb c ".".

Fixpoint scheme_rest (s : string) : option (string * string) :=
  match s with
  | EmptyString => None
  | String c s' =>
      if Ascii.eqb c ":" then Some (EmptyString, s')
      else if is_scheme_char c then
        match scheme_rest s' with
        | Some (sch, r) => Some (String (lower c) sch, r)
        | None => None
        end
      else None
  end.

Fixpoint skip_slashes (s : string) : string :=
  match s with
  | String c s' =>
      if Ascii.eqb c "/" || Ascii.eqb c "\" then skip_slashes s' else s
  | EmptyString => EmptyString
  end.

(** An [http] or [https] URL needs a host: the reader fails when nothing
    follows the slashes. Other host checks of the platform are left out. *)
Definition scheme_protocol (s : string) : option string :=
  match s with
  | String c _ =>
      if is_alpha c then
        match scheme_rest s with
        | Some (sch, r) =>
            if String.eqb sch "http" || String.eqb sch "https" then
              match skip_slashes r with
              | EmptyString => None
              | String h _ =>
                  if Ascii.eqb h "?" || Ascii.eqb h "#" then None
                  else Some (sch ++ ":")
              end
            else Some (sch ++ ":")
        | None => None
        end
      else None
  | EmptyString => None
  end.

End M3u.

(** ** Stored records: [db/queries.ts] and the schema of the guide tables *)

Module EPGSource.
Record t : Type := {
  id : string;
  playlist_id : string;
  epg_url : string;
  last_fetched : option Z;
  last_modified : option string;
  etag : option string;
  fetch_error : option string;
  created_at : Z;
  updated_at : Z
}.
End EPGSource.

Module EPGProgramDB.
(** [start_time] and [end_time] are [INTEGER NOT NULL] columns. *)
Record t : Type := {
  id : string;
  epg_source_id : string;
  channel_id : string;
  title : string;
  description : option string;
  start_time : Z;
  end_time : Z;
  category : option string;
  icon_url : option string;
  created_at : Z
}.
End EPGProgramDB.

(** ** The platform: database tables, clock, identifiers and network *)

Module D1.

(** The statements the queries issue, with their bound values. *)
Inductive statement : Type :=
| SelectSourceByPlaylist (playlistId : string)
| UpdateSourceUrl (epgUrl : string) (now : Z) (id : string)
| InsertSource (row : EPGSource.t)
| UpdateSourceFetch (now : Z) (lastModified etag fetchError : option string)
                    (sourceId : string)
| DeletePrograms (sourceId : string)
| DeleteProgramsEndedBefore (sourceId : string) (t : Z)
| InsertProgramsBatch (rows : list EPGProgramDB.t)
| SelectNowNext (sourceId : string) (channelIds : list string) (now : Z).

(** The two tables, the statements executed so far (oldest first), the
    URLs fetched so far, and how often the clock and the identifier
    generator have been read. *)
Record World : Type := {
  epg_sources : list EPGSource.t;
  epg_programs : list EPGProgramDB.t;
  executed : list statement;
  fetched : list string;
  clock_reads : nat;
  uuid_reads : nat
}.

(** What the outside delivers: the [n]-th reading of [Date.now()], the
    [n]-th [crypto.randomUUID()], the response to the [n]-th fetch, and
    the message of the error with which the database rejects a batch. *)
Record Env : Type := {
  clock : nat -> Z;
  uuid : nat -> string;
  network : nat -> string -> Xmltv.response;
  rejection : string
}.

(** A computation either returns or throws an [Error] with a message, in
    a new world. *)
Inductive outcome (A : Type) : Type :=
| Ok (a : A) (w : World)
| Thrown (e : string) (w : World).
Arguments Ok {A} a w.
Arguments Thrown {A} e w.

Definition M (A : Type) : Type := World -> outcome A.

Definition ret {A} (a : A) : M A := fun w => Ok a w.

Definition bind {A B} (m : M A) (k : A -> M B) : M B :=
  fun w => match m w with
           | Ok a w' => k a w'
           | Thrown e w' => Thrown e w'
           end.

Definition throw {A} (e : string) : M A := fun w => Thrown e w.

(** [try { m } catch (error) { h error }]: the handler is given the
    message of the error. *)
Definition try_catch {A} (m : M A) (h : string -> M A) : M A :=
  fun w => match m w with
           | Ok a w' => Ok a w'
           | Thrown e w' => h e w'
           end.

Definition world_of {A} (o : outcome A) : World :=
  match o with Ok _ w => w | Thrown _ w => w end.

(** The returned value, if the computation returns. *)
Definition value_of {A} (o : outcome A) : option A :=
  match o with Ok a _ => Some a | Thrown _ _ => None end.

Definition set_sources (l : list EPGSource.t) (w : World) : World :=
  {| epg_sources := l; epg_programs := epg_programs w; executed := executed w;
     fetched := fetched w; clock_reads := clock_reads w; uuid_reads := uuid_reads w |}.

Definition set_programs (l : list EPGProgramDB.t) (w : World) : World :=
  {| epg_sources := epg_sources w; epg_programs := l; executed := executed w;
     fetched := fetched w; clock_reads := clock_reads w; uuid_reads := uuid_reads w |}.

Definition log (s : statement) (w : World) : World :=
  {| epg_sources := epg_sources w; epg_programs := epg_programs w;
     executed := executed w ++ [s];
     fetched := fetched w; clock_reads := clock_reads w; uuid_reads := uuid_reads w |}.

Section WithEnv.
Variable E : Env.

(** [Date.now()]. *)
Definition Date_now : M Z :=
  fun w => Ok (clock E (clock_reads w))
              {| epg_sources := epg_sources w; epg_programs := epg_programs w;
                 executed := executed w; fetched := fetched w;
                 clock_reads := S (clock_reads w); uuid_reads := uuid_reads w |}.

(** [generateUUID()]. Identifiers are taken as they come; a collision
    with a stored key is not modelled. *)
Definition generateUUID : M string :=
  fun w => Ok (uuid E (uuid_reads w))
              {| epg_sources := epg_sources w; epg_programs := epg_programs w;
                 executed := executed w; fetched := fetched w;
                 clock_reads := clock_reads w; uuid_reads := S (uuid_reads w) |}.

(** [fetch(url)] of a guide feed. *)
Definition fetch (url : string) : M Xmltv.response :=
  fun w => Ok (network E (List.length (fetched w)) url)
              {| epg_sources := epg_sources w; epg_programs := epg_programs w;
                 executed := executed w; fetched := fetched w ++ [url];
                 clock_reads := clock_reads w; uuid_reads := uuid_reads w |}.
End WithEnv.

(** Effect of a write statement on the tables. *)
Definition apply_statement (s : statement) (w : World) : World :=
  match s with
  | SelectSourceByPlaylist _ => w
  | SelectNowNext _ _ _ => w
  | UpdateSourceUrl epgUrl now id =>
      set_sources
        (List.map (fun r =>
           if String.eqb (EPGSource.id r) id then
             {| EPGSource.id := EPGSource.id r;
                EPGSource.playlist_id := EPGSource.playlist_id r;
                EPGSource.epg_url := epgUrl;
                EPGSource.last_fetched := None;
                EPGSource.last_modified := EPGSource.last_modified r;
                EPGSource.etag := EPGSource.etag r;
                EPGSource.fetch_error := None;
                EPGSource.created_at := EPGSource.created_at r;
                EPGSource.updated_at := now |}
           else r) (epg_sources w)) w
  | InsertSource row => set_sources (epg_sources w ++ [row]) w
  | UpdateSourceFetch now lastModified etag fetchError sourceId =>
      set_sources
        (List.map (fun r =>
           if String.eqb (EPGSource.id r) sourceId then
             {| EPGSource.id := EPGSource.id r;
                EPGSource.playlist_id := EPGSource.playlist_id r;
                EPGSource.epg_url := EPGSource.epg_url r;
                EPGSource.last_fetched := Some now;
                EPGSource.last_modified := lastModified;
                EPGSource.etag := etag;
                EPGSource.fetch_error := fetchError;
                EPGSource.created_at := EPGSource.created_at r;
                EPGSource.updated_at := now |}
           else r) (epg_sources w)) w
  | DeletePrograms sourceId =>
      set_programs
        (List.filter (fun p => negb (String.eqb (EPGProgramDB.epg_source_id p) sourceId))
                     (epg_programs w)) w
  | DeleteProgramsEndedBefore sourceId t =>
      set_programs
        (List.filter (fun p => negb (String.eqb (EPGProgramDB.epg_source_id p) sourceId
                                     && (EPGProgramDB.end_time p <? t)))
                     (epg_programs w)) w
  | InsertProgramsBatch rows => set_programs (epg_programs w ++ rows) w
  end.

(** [db.prepare(...).bind(...).run()] and [db.batch(...)]: the statement
    takes effect and is recorded. *)
Definition run (s : statement) : M unit :=
  fun w => Ok tt (log s (apply_statement s w)).

End D1.

Declare Scope d1_scope.
Delimit Scope d1_scope with d1.
Notation "'let*' x ':=' m 'in' k" := (D1.bind m (fun x => k))
  (at level 10, x name, m at level 200, k at level 200) : d1_scope.

(** ** Guide queries: [db/queries.ts] *)

Module Queries.
Import D1.
Local Open Scope d1_scope.

(** The entry of one channel in the now/next map. *)
Record NowNext : Type := {
  now : option EPGProgramDB.t;
  next : option EPGProgramDB.t
}.

(** [.first<EPGSource>()] of the select by playlist. *)
Definition first_by_playlist (playlistId : string) (l : list EPGSource.t)
    : option EPGSource.t :=
  List.find (fun r => String.eqb (EPGSource.playlist_id r) playlistId) l.

(** The test of [shouldRefreshEPG] once the clock has been read. *)
Definition older_than_one_hour (last_fetched now : Z) : bool :=
  let oneHourAgo := now - 60 * 60 * 1000 in
  last_fetched <? oneHourAgo.

(** Values bound to the [INTEGER NOT NULL] time columns: [NaN] is sent
    as [NULL], which the column rejects. *)
Definition bind_time (n : Js.number) : option Z :=
  match n with Js.Num z => Some z | Js.NaN => None end.

(** [x || null] on an optional string. *)
Definition or_null (o : option string) : option string :=
  match o with
  | Some s => if Xmltv.truthy s then Some s else None
  | None => None
  end.

(** The values bound by one insert of [insertEPGPrograms]; [None] when a
    time is [NaN]. *)
Definition bind_program (id sourceId : string) (now : Z) (prog : Xmltv.EPGProgram)
    : option EPGProgramDB.t :=
  match bind_time (Xmltv.start_time prog), bind_time (Xmltv.end_time prog) with
  | Some st, Some en =>
      Some {| EPGProgramDB.id := id;
              EPGProgramDB.epg_source_id := sourceId;
              EPGProgramDB.channel_id := Xmltv.channel_id prog;
              EPGProgramDB.title := Xmltv.title prog;
              EPGProgramDB.description := or_null (Xmltv.description prog);
              EPGProgramDB.start_time := st;
              EPGProgramDB.end_time := en;
              EPGProgramDB.category := or_null (Xmltv.category prog);
              EPGProgramDB.icon_url := or_null (Xmltv.icon_url prog);
              EPGProgramDB.created_at := now |}
  | _, _ => None
  end.

(** All rows of a batch, or [None] when one of them is rejected. *)
Fixpoint all_rows (l : list (option EPGProgramDB.t)) : option (list EPGProgramDB.t) :=
  match l with
  | [] => Some []
  | Some r :: rest => option_map (cons r) (all_rows rest)
  | None :: _ => None
  end.

(** [db.batch(statements)]: one transaction; a rejected row fails the
    whole batch, which then throws and changes nothing. *)
Definition batch (E : Env) (stmts : list (option EPGProgramDB.t)) : M unit :=
  match all_rows stmts with
  | Some rows => run (InsertProgramsBatch rows)
  | None => throw (rejection E)
  end.

(** Ordering of the now/next select: [ORDER BY channel_id, start_time]. *)
Definition row_leb (a b : EPGProgramDB.t) : bool :=
  match String.compare (EPGProgramDB.channel_id a) (EPGProgramDB.channel_id b) with
  | Lt => true
  | Eq => EPGProgramDB.start_time a <=? EPGProgramDB.start_time b
  | Gt => false
  end.

Fixpoint insert_sorted (r : EPGProgramDB.t) (l : list EPGProgramDB.t)
    : list EPGProgramDB.t :=
  match l with
  | [] => [r]
  | x :: rest => if row_leb r x then r :: l else x :: insert_sorted r rest
  end.

Definition order_by (l : list EPGProgramDB.t) : list EPGProgramDB.t :=
  List.fold_right insert_sorted [] l.

(** The rows the now/next select returns. *)
Definition select_now_next (sourceId : string) (channelIds : list string) (now : Z)
    (table : list EPGProgramDB.t) : list EPGProgramDB.t :=
  order_by
    (List.filter
       (fun p => String.eqb (EPGProgramDB.epg_source_id p) sourceId
                 && List.existsb (String.eqb (EPGProgramDB.channel_id p)) channelIds
                 && (EPGProgramDB.end_time p >? now))
       table).

(** Truthiness of an optional member. *)
Definition present {A} (o : option A) : bool :=
  match o with Some _ => true | None => false end.

(** One iteration of the grouping loop of [getNowNextPrograms]. The
    result object is read as a finite map from channel ids; ids that name
    an inherited member of every object (such as [constructor]) are not
    modelled. *)
Definition scan_step (now_ : Z) (result : gmap string NowNext) (prog : EPGProgramDB.t)
    : gmap string NowNext :=
  let entry := default {| now := None; next := None |}
                       (result !! EPGProgramDB.channel_id prog) in
  let entry' :=
    if (EPGProgramDB.start_time prog <=? now_) && (EPGProgramDB.end_time prog >? now_)
    then {| now := Some prog; next := next entry |}
    else if (EPGProgramDB.start_time prog >? now_)
            && negb (present (next entry))
    then {| now := now entry; next := Some prog |}
    else entry in
  <[EPGProgramDB.channel_id prog := entry']> result.

Definition scan (now_ : Z) (rows : list EPGProgramDB.t) : gmap string NowNext :=
  List.fold_left (scan_step now_) rows ∅.

Section WithEnv.
Variable E : Env.

(** [getOrCreateEPGSource]. *)
Definition getOrCreateEPGSource (playlistId epgUrl : string) : M EPGSource.t :=
  let* _ := run (SelectSourceByPlaylist playlistId) in
  fun w =>
    match first_by_playlist playlistId (epg_sources w) with
    | Some existing =>
        if negb (String.eqb (EPGSource.epg_url existing) epgUrl) then
          (let* now := Date_now E in
           let* _ := run (UpdateSourceUrl epgUrl now (EPGSource.id existing)) in
           ret {| EPGSource.id := EPGSource.id existing;
                  EPGSource.playlist_id := EPGSource.playlist_id existing;
                  EPGSource.epg_url := epgUrl;
                  EPGSource.last_fetched := None;
                  EPGSource.last_modified := EPGSource.last_modified existing;
                  EPGSource.etag := EPGSource.etag existing;
                  EPGSource.fetch_error := None;
                  EPGSource.created_at := EPGSource.created_at existing;
                  EPGSource.updated_at := now |}) w
        else ret existing w
    | None =>
        (let* id := generateUUID E in
         let* now := Date_now E in
         let row := {| EPGSource.id := id;
                       EPGSource.playlist_id := playlistId;
                       EPGSource.epg_url := epgUrl;
                       EPGSource.last_fetched := None;
                       EPGSource.last_modified := None;
                       EPGSource.etag := None;
                       EPGSource.fetch_error := None;
                       EPGSource.created_at := now;
                       EPGSource.updated_at := now |} in
         let* _ := run (InsertSource row) in
         ret row) w
    end.

(** [getEPGSourceForPlaylist]. *)
Definition getEPGSourceForPlaylist (playlistId : string) : M (option EPGSource.t) :=
  let* _ := run (SelectSourceByPlaylist playlistId) in
  fun w => ret (first_by_playlist playlistId (epg_sources w)) w.

(** [updateEPGSourceFetch]. *)
Definition updateEPGSourceFetch (sourceId : string)
    (lastModified etag fetchError : option string) : M unit :=
  let* now := Date_now E in
  run (UpdateSourceFetch now lastModified etag fetchError sourceId).

(** [shouldRefreshEPG]: [!source.last_fetched] holds for [null] and for
    the number [0]; the clock is read only past that test. *)
Definition shouldRefreshEPG (source : EPGSource.t) : M bool :=
  match EPGSource.last_fetched source with
  | None => ret true
  | Some t =>
      if t =? 0 then ret true
      else
        let* now := Date_now E in
        ret (older_than_one_hour t now)
  end.

(** [clearEPGPrograms]. *)
Definition clearEPGPrograms (sourceId : string) : M unit :=
  run (DeletePrograms sourceId).

(** [cleanupOldPrograms]. *)
Definition cleanupOldPrograms (sourceId : string) : M unit :=
  let* now := Date_now E in
  let oneHourAgo := now - 60 * 60 * 1000 in
  run (DeleteProgramsEndedBefore sourceId oneHourAgo).

(** [chunk.map(prog => ...)]: one identifier per program, in order. *)
Fixpoint prepare_chunk (sourceId : string) (now : Z) (chunk : list Xmltv.EPGProgram)
    : M (list (option EPGProgramDB.t)) :=
  match chunk with
  | [] => ret []
  | prog :: rest =>
      let* id := generateUUID E in
      let* stmts := prepare_chunk sourceId now rest in
      ret (bind_program id sourceId now prog :: stmts)
  end.

Definition chunkSize : nat := 100.

(** [for (let i = ...; i < programs.length; i += chunkSize)], from
    index [i]; [fuel] bounds the number of iterations. *)
Fixpoint insert_chunks (fuel : nat) (sourceId : string) (now : Z)
    (programs : list Xmltv.EPGProgram) (i : nat) : M unit :=
  match fuel with
  | O => ret tt
  | S fuel' =>
      if (i <? List.length programs)%nat then
        let chunk := List.firstn chunkSize (List.skipn i programs) in
        let* statements := prepare_chunk sourceId now chunk in
        let* _ := batch E statements in
        insert_chunks fuel' sourceId now programs (i + chunkSize)
      else ret tt
  end.

(** [insertEPGPrograms]. The loop runs at most once per program. *)
Definition insertEPGPrograms (sourceId : string) (programs : list Xmltv.EPGProgram)
    : M unit :=
  match programs with
  | [] => ret tt
  | _ =>
      let* now := Date_now E in
      insert_chunks (List.length programs) sourceId now programs 0
  end.

(** [getNowNextPrograms] with the argument [now] given. *)
Definition getNowNextPrograms_at (sourceId : string) (channelIds : list string)
    (now_ : Z) : M (gmap string NowNext) :=
  match channelIds with
  | [] => ret ∅
  | _ =>
      let* _ := run (SelectNowNext sourceId channelIds now_) in
      fun w => ret (scan now_ (select_now_next sourceId channelIds now_
                                               (epg_programs w))) w
  end.

(** [getNowNextPrograms] with [now] defaulted to [Date.now()]. *)
Definition getNowNextPrograms (sourceId : string) (channelIds : list string)
    : M (gmap string NowNext) :=
  let* now_ := Date_now E in
  getNowNextPrograms_at sourceId channelIds now_.

End WithEnv.

End Queries.

(** ** The refresh helper of [routes/epg.ts] *)

Module EpgRoute.
Import D1.
Local Open Scope d1_scope.

Record RefreshResult : Type := {
  source : option EPGSource.t;
  refreshed : bool;
  error : option string
}.

Section WithEnv.
Variable E : Env.

(** [fetchAndParseXMLTV(url)]: the clock is read by [parseXMLTV] once
    [parsed.tv] is truthy. *)
Definition fetchAndParseXMLTV (url : string) : M Xmltv.ParseXMLTVResult :=
  let* r := fetch E url in
  match r with
  | Xmltv.Body (Xmltv.Tv _) =>
      let* now := Date_now E in
      ret (Xmltv.fetchAndParseXMLTV now r)
  | _ => ret (Xmltv.fetchAndParseXMLTV 0 r)
  end.

(** [result.programs.length === 0 && result.errors.length > 0]. *)
Definition total_failure (result : Xmltv.ParseXMLTVResult) : bool :=
  (List.length (Xmltv.programs result) =? 0)%nat
  && (0 <? List.length (Xmltv.errors result))%nat.

(** [errors.join('; ')]. *)
Definition join_errors (errors : list string) : string :=
  String.concat "; " errors.

Definition stamp (source : EPGSource.t) (now : Z) : EPGSource.t :=
  {| EPGSource.id := EPGSource.id source;
     EPGSource.playlist_id := EPGSource.playlist_id source;
     EPGSource.epg_url := EPGSource.epg_url source;
     EPGSource.last_fetched := Some now;
     EPGSource.last_modified := EPGSource.last_modified source;
     EPGSource.etag := EPGSource.etag source;
     EPGSource.fetch_error := EPGSource.fetch_error source;
     EPGSource.created_at := EPGSource.created_at source;
     EPGSource.updated_at := EPGSource.updated_at source |}.

(** [refreshEPGIfNeeded]. *)
Definition refreshEPGIfNeeded (playlistId epgUrl : string) : M RefreshResult :=
  try_catch
    (let* source := Queries.getOrCreateEPGSource E playlistId epgUrl in
     let* stale := Queries.shouldRefreshEPG E source in
     if negb stale then
       ret {| source := Some source; refreshed := false; error := None |}
     else
       let* result := fetchAndParseXMLTV epgUrl in
       if total_failure result then
         let* _ := Queries.updateEPGSourceFetch E (EPGSource.id source) None None
                     (Some (join_errors (Xmltv.errors result))) in
         ret {| source := Some source; refreshed := false;
                error := Some (join_errors (Xmltv.errors result)) |}
       else
         let* _ := Queries.cleanupOldPrograms E (EPGSource.id source) in
         let* _ := Queries.clearEPGPrograms (EPGSource.id source) in
         let* _ := Queries.insertEPGPrograms E (EPGSource.id source)
                     (Xmltv.programs result) in
         let* _ := Queries.updateEPGSourceFetch E (EPGSource.id source) None None None in
         let* now := Date_now E in
         ret {| source := Some (stamp source now); refreshed := true; error := None |})
    (fun e => ret {| source := None; refreshed := false;
                     error := Some (Js.String_error e) |}).

End WithEnv.

End EpgRoute.

(** ** The enrichment merge of [routes/channels.ts] *)

Module ChannelsRoute.

(** [{ ...ch, epg }]: the fields of the channel and the optional [epg]. *)
Record ChannelWithEPG : Type := {
  name : string;
  url : string;
  logo : option string;
  group : option string;
  tvg_id : option string;
  epg : option Queries.NowNext
}.

(** [ch.tvg_id && epgData[ch.tvg_id] ? epgData[ch.tvg_id] : undefined]. *)
Definition epg_of (epgData : gmap string Queries.NowNext) (ch : M3u.Channel)
    : option Queries.NowNext :=
  match M3u.tvg_id ch with
  | Some t => if M3u.truthy t then epgData !! t else None
  | None => None
  end.

Definition merge_one (epgData : gmap string Queries.NowNext) (ch : M3u.Channel)
    : ChannelWithEPG :=
  {| name := M3u.name ch;
     url := M3u.url ch;
     logo := M3u.logo ch;
     group := M3u.group ch;
     tvg_id := M3u.tvg_id ch;
     epg := epg_of epgData ch |}.

(** [channels.map((ch) => ({ ...ch, epg: ... }))]. *)
Definition channelsWithEPG (channels : list M3u.Channel)
    (epgData : gmap string Queries.NowNext) : list ChannelWithEPG :=
  List.map (merge_one epgData) channels.

(** The channel fields of an output record. *)
Definition channel_of (c : ChannelWithEPG) : M3u.Channel :=
  {| M3u.name := name c; M3u.url := url c; M3u.logo := logo c;
     M3u.group := group c; M3u.tvg_id := tvg_id c |}.

(** [channels.filter((ch) => ch.tvg_id).map((ch) => ch.tvg_id)]. *)
Definition channelIds (channels : list M3u.Channel) : list string :=
  List.flat_map (fun ch => match M3u.tvg_id ch with
                           | Some t => if M3u.truthy t then [t] else []
                           | None => []
                           end) channels.

End ChannelsRoute.

(** ** Reading of a well-formed guide timestamp *)

Module Timestamp.






(** *** The calendar, counted out

    The instant of a wall-clock time in UTC, by counting the days of the
    Gregorian calendar year by year and month by month. *)




Fixpoint total (l : list Z) : Z :=
  match l with
  | [] => 0
  | x :: l' => x + total l'
  end.








End Timestamp.

(** ** Vocabulary of the freshness properties *)

Module Freshness.

Definition oneHour : Z := 60 * 60 * 1000.

(** Staleness as the description words it: [last_fetched] absent, or more
    than one hour older than [now]. *)
Definition stale_as_described (last_fetched : option Z) (now : Z) : bool :=
  match last_fetched with
  | None => true
  | Some t => now - t >? oneHour
  end.

(** A clock that always reads [t], identifiers [id0], [id1], ..., and a
    network that answers every fetch with [r]. *)
Definition fixed_env (t : Z) (r : Xmltv.response) : D1.Env :=
  {| D1.clock := fun _ => t;
     D1.uuid := fun n => "id" ++ M3u.show_nat n;
     D1.network := fun _ _ => r;
     D1.rejection := "D1_ERROR: NOT NULL constraint failed" |}.

Definition empty_world : D1.World :=
  {| D1.epg_sources := []; D1.epg_programs := []; D1.executed := [];
     D1.fetched := []; D1.clock_reads := 0; D1.uuid_reads := 0 |}.

Definition source_fetched_at (last_fetched : option Z) : EPGSource.t :=
  {| EPGSource.id := "s"; EPGSource.playlist_id := "p"; EPGSource.epg_url := "u";
     EPGSource.last_fetched := last_fetched; EPGSource.last_modified := None;
     EPGSource.etag := None; EPGSource.fetch_error := None;
     EPGSource.created_at := 1; EPGSource.updated_at := 1 |}.

End Freshness.

(** ** Vocabulary of the merge properties *)

Module Merge.

(** The channel has no guide-channel-id: [tvg_id] absent or empty. *)
Definition no_guide_id (ch : M3u.Channel) : Prop :=
  M3u.tvg_id ch = None \/ M3u.tvg_id ch = Some EmptyString.

Definition sample_entry : Queries.NowNext :=
  {| Queries.now := None; Queries.next := None |}.

Definition sample_channels : list M3u.Channel :=
  [ {| M3u.name := "One"; M3u.url := "http://a.example/1"; M3u.logo := None;
       M3u.group := Some "News"; M3u.tvg_id := None |};
    {| M3u.name := "Two"; M3u.url := "http://a.example/2"; M3u.logo := None;
       M3u.group := None; M3u.tvg_id := Some EmptyString |};
    {| M3u.name := "Three"; M3u.url := "http://a.example/3"; M3u.logo := None;
       M3u.group := None; M3u.tvg_id := Some "bbc1" |} ].

Definition sample_map : gmap string Queries.NowNext :=
  <[EmptyString := sample_entry]> (<["bbc1" := sample_entry]> ∅).

End Merge.

(** ** Vocabulary of the guide-address property *)

Module GuideUrl.

Fixpoint no_quote (v : string) : bool :=
  match v with
  | EmptyString => true
  | String c v' => negb (Ascii.eqb c M3u.dquote) && no_quote v'
  end.

(** Equality of two strings up to the case of ASCII letters. *)
Fixpoint ci_equal (a b : string) : bool :=
  match a, b with
  | EmptyString, EmptyString => true
  | String x a', String y b' => M3u.char_eq true x y && ci_equal a' b'
  | _, _ => false
  end.

(** The attribute [key] with the quoted value [v] stands at offset [n] of
    the line [s]. *)
Definition attr_occurs (key s : string) (n : nat) (v : string) : Prop :=
  exists pre lit post,
    s = (pre ++ lit ++ v ++ String M3u.dquote post)%string
    /\ String.length pre = n
    /\ ci_equal (M3u.attr_literal key) lit = true
    /\ no_quote v = true.

(** [v] is the value of the leftmost occurrence of the attribute. *)
Definition leftmost_attr (key s v : string) : Prop :=
  exists n, attr_occurs key s n v
            /\ forall m v', attr_occurs key s m v' -> (n <= m)%nat.

Definition attr_absent (key s : string) : Prop :=
  forall n v, ~ attr_occurs key s n v.

(** The attribute is absent or its leftmost occurrence has an empty value. *)
Definition unusable (key s : string) : Prop :=
  attr_absent key s \/ leftmost_attr key s EmptyString.

(** Offset and value of the leftmost match of the attribute pattern. *)
Fixpoint find_attr (key s : string) (n : nat) : option (nat * string) :=
  match M3u.attr_at true key s with
  | Some v => Some (n, v)
  | None =>
      match s with
      | EmptyString => None
      | String _ s' => find_attr key s' (S n)
      end
  end.

(** The guide address as the description words it: the value of whichever
    of the two attributes occurs first on the line. *)
Definition first_on_line (headerLine : string) : option string :=
  match find_attr "url-tvg" headerLine 0, find_attr "x-tvg-url" headerLine 0 with
  | Some (i, v), Some (j, w) => if (i <? j)%nat then Some v else Some w
  | Some (_, v), None => Some v
  | None, Some (_, w) => Some w
  | None, None => None
  end.

Definition q : string := String M3u.dquote EmptyString.

(** A header that names both attributes, [x-tvg-url] first. *)
Definition header_both : string :=
  "#EXTM3U x-tvg-url=" ++ q ++ "http://b.example/g.xml" ++ q
  ++ " url-tvg=" ++ q ++ "http://a.example/g.xml" ++ q.

Definition header_fallback : string :=
  "#EXTM3U url-tvg=" ++ q ++ q ++ " X-TVG-URL=" ++ q ++ "http://b.example/g.xml" ++ q.

End GuideUrl.

(** ** Vocabulary of the playlist properties *)

Module Playlist.

Definition is_metadata (line : string) : Prop :=
  Js.startsWith "#EXTINF" line = true.

(** The metadata line carries the usable display name [n]. *)
Definition usable_name (line n : string) : Prop :=
  M3u.p_name (M3u.parseExtinf line) = Some n /\ M3u.truthy n = true.

(** A line that is neither blank nor a comment and reads as an [http] or
    [https] URL. *)
Definition is_url_line (url_protocol : string -> option string) (line : string) : Prop :=
  M3u.truthy line = true
  /\ Js.startsWith "#" line = false
  /\ M3u.isValidUrl url_protocol line = true.

(** The channel of a metadata line, its name and the URL line after it. *)
Definition channel_of (meta n url : string) : M3u.Channel :=
  {| M3u.name := n; M3u.url := url;
     M3u.logo := M3u.p_logo (M3u.parseExtinf meta);
     M3u.group := M3u.p_group (M3u.parseExtinf meta);
     M3u.tvg_id := M3u.p_tvg_id (M3u.parseExtinf meta) |}.

(** The warning that names a line number (lines are counted from 1). *)
Definition warning (line_number : nat) : string :=
  "Skipped channel with missing data at line " ++ M3u.show_nat line_number.

Definition nl : string := String "010"%char EmptyString.

(** Two well-formed entries and, between them, a metadata line that no
    URL line follows. *)
Definition feed_orphan_between : string :=
  "#EXTM3U" ++ nl ++
  "#EXTINF:-1,Channel One" ++ nl ++
  "http://a.example/1" ++ nl ++
  "#EXTINF:-1,Orphan" ++ nl ++
  "#EXTINF:-1,Channel Two" ++ nl ++
  "http://a.example/2".

(** The same with the lone metadata line last. *)
Definition feed_orphan_last : string :=
  "#EXTM3U" ++ nl ++
  "#EXTINF:-1,Channel One" ++ nl ++
  "http://a.example/1" ++ nl ++
  "#EXTINF:-1,Channel Two" ++ nl ++
  "http://a.example/2" ++ nl ++
  "#EXTINF:-1,Orphan".

(** The same with a line that is no URL after the lone metadata line. *)
Definition feed_orphan_text : string :=
  "#EXTM3U" ++ nl ++
  "#EXTINF:-1,Channel One" ++ nl ++
  "http://a.example/1" ++ nl ++
  "#EXTINF:-1,Orphan" ++ nl ++
  "not a url" ++ nl ++
  "#EXTINF:-1,Channel Two" ++ nl ++
  "http://a.example/2".

(** A metadata line without a name, completed by a URL line (line 3). *)
Definition feed_nameless : string :=
  "#EXTM3U" ++ nl ++
  "#EXTINF:-1 no name here" ++ nl ++
  "http://a.example/1" ++ nl ++
  "#EXTINF:-1,Channel Two" ++ nl ++
  "http://a.example/2".

End Playlist.

(** ** Vocabulary of the now/next properties *)

Module NowNextSpec.

(** [start_time <= now < end_time]. *)
Definition airing (now_ : Z) (p : EPGProgramDB.t) : bool :=
  (EPGProgramDB.start_time p <=? now_) && (EPGProgramDB.end_time p >? now_).

(** [start_time > now]. *)
Definition upcoming (now_ : Z) (p : EPGProgramDB.t) : bool :=
  EPGProgramDB.start_time p >? now_.

(** The stored program belongs to the source, to a requested channel, to
    the channel [c], and has not ended at [now]. *)
Definition qualifies (sourceId : string) (channelIds : list string) (now_ : Z)
    (c : string) (p : EPGProgramDB.t) : bool :=
  String.eqb (EPGProgramDB.epg_source_id p) sourceId
  && List.existsb (String.eqb (EPGProgramDB.channel_id p)) channelIds
  && (EPGProgramDB.end_time p >? now_)
  && String.eqb (EPGProgramDB.channel_id p) c.

(** The qualifying programs of channel [c], as stored. *)
Definition run_of (sourceId : string) (channelIds : list string) (now_ : Z)
    (table : list EPGProgramDB.t) (c : string) : list EPGProgramDB.t :=
  List.filter (qualifies sourceId channelIds now_ c) table.

(** The grouping loop seen from one channel. *)
Definition entry_step (now_ : Z) (e : option Queries.NowNext) (p : EPGProgramDB.t)
    : option Queries.NowNext :=
  let entry := default {| Queries.now := None; Queries.next := None |} e in
  Some (if airing now_ p
        then {| Queries.now := Some p; Queries.next := Queries.next entry |}
        else if upcoming now_ p && negb (Queries.present (Queries.next entry))
        then {| Queries.now := Queries.now entry; Queries.next := Some p |}
        else entry).

(** The last airing program of a list, [acc] when there is none. *)
Fixpoint last_airing (now_ : Z) (acc : option EPGProgramDB.t)
    (l : list EPGProgramDB.t) : option EPGProgramDB.t :=
  match l with
  | [] => acc
  | p :: l' => last_airing now_ (if airing now_ p then Some p else acc) l'
  end.

(** The slot [now] as the description words it: the first program, in
    ascending start order, with [start_time <= now < end_time]. *)
Definition first_airing (sourceId : string) (channelIds : list string) (now_ : Z)
    (table : list EPGProgramDB.t) (c : string) : option EPGProgramDB.t :=
  List.find (airing now_)
    (List.filter (fun p => String.eqb (EPGProgramDB.channel_id p) c)
       (Queries.select_now_next sourceId channelIds now_ table)).

Definition row_le (a b : EPGProgramDB.t) : Prop := Queries.row_leb a b = true.

Definition start_le (a b : EPGProgramDB.t) : Prop :=
  EPGProgramDB.start_time a <= EPGProgramDB.start_time b.

(** A stored program of source [src1]. *)
Definition program (id channel title : string) (start_ end_ : Z) : EPGProgramDB.t :=
  {| EPGProgramDB.id := id; EPGProgramDB.epg_source_id := "src1";
     EPGProgramDB.channel_id := channel; EPGProgramDB.title := title;
     EPGProgramDB.description := None;
     EPGProgramDB.start_time := start_; EPGProgramDB.end_time := end_;
     EPGProgramDB.category := None; EPGProgramDB.icon_url := None;
     EPGProgramDB.created_at := 1 |}.

(** Times of day of 2024-01-01, in milliseconds. *)
Definition at_ (h m : Z) : Z := 1704067200000 + h * 3600000 + m * 60000.

(** Two consecutive programs of channel [bbc1]. *)
Definition table_consecutive : list EPGProgramDB.t :=
  [ program "p2" "bbc1" "B" (at_ 11 0) (at_ 12 0);
    program "p1" "bbc1" "A" (at_ 10 0) (at_ 11 0) ].

(** Two programs of channel [bbc1] that overlap at 10:30. *)
Definition table_overlap : list EPGProgramDB.t :=
  [ program "p1" "bbc1" "A" (at_ 10 0) (at_ 11 0);
    program "p2" "bbc1" "B" (at_ 10 15) (at_ 11 0) ].

(** The same two programs as the parser delivers them. *)
Definition parsed_overlap : list Xmltv.EPGProgram :=
  List.map (fun r =>
    {| Xmltv.channel_id := EPGProgramDB.channel_id r;
       Xmltv.title := EPGProgramDB.title r;
       Xmltv.description := None;
       Xmltv.start_time := Js.Num (EPGProgramDB.start_time r);
       Xmltv.end_time := Js.Num (EPGProgramDB.end_time r);
       Xmltv.category := None; Xmltv.icon_url := None |}) table_overlap.

Definition world_with (table : list EPGProgramDB.t) : D1.World :=
  {| D1.epg_sources := []; D1.epg_programs := table; D1.executed := [];
     D1.fetched := []; D1.clock_reads := 0; D1.uuid_reads := 0 |}.

End NowNextSpec.

(** ** Vocabulary of the refresh properties *)

Module Refresh.
Import D1.
Local Open Scope d1_scope.

(** The staleness decision [refreshEPGIfNeeded] takes: the source row is
    looked up or created, then tested. *)
Definition refresh_stale (E : Env) (playlistId epgUrl : string) : M bool :=
  let* source := Queries.getOrCreateEPGSource E playlistId epgUrl in
  Queries.shouldRefreshEPG E source.

(** The parse result a refresh attempt obtains. *)
Definition refresh_parse (E : Env) (playlistId epgUrl : string)
    : M Xmltv.ParseXMLTVResult :=
  let* source := Queries.getOrCreateEPGSource E playlistId epgUrl in
  let* _ := Queries.shouldRefreshEPG E source in
  EpgRoute.fetchAndParseXMLTV E epgUrl.

(** Statements on the table of sources issued by the lookup. *)
Definition is_source_statement (s : statement) : Prop :=
  match s with
  | SelectSourceByPlaylist _ | UpdateSourceUrl _ _ _ | InsertSource _ => True
  | _ => False
  end.

(** The stored programs of a source, in table order. *)
Definition stored_of (sourceId : string) (table : list EPGProgramDB.t)
    : list EPGProgramDB.t :=
  List.filter (fun p => String.eqb (EPGProgramDB.epg_source_id p) sourceId) table.

(** The stored programs of all other sources. *)
Definition stored_of_others (sourceId : string) (table : list EPGProgramDB.t)
    : list EPGProgramDB.t :=
  List.filter (fun p => negb (String.eqb (EPGProgramDB.epg_source_id p) sourceId)) table.

(** The parsed program a stored row stands for. *)
Definition program_of_row (r : EPGProgramDB.t) : Xmltv.EPGProgram :=
  {| Xmltv.channel_id := EPGProgramDB.channel_id r;
     Xmltv.title := EPGProgramDB.title r;
     Xmltv.description := EPGProgramDB.description r;
     Xmltv.start_time := Js.Num (EPGProgramDB.start_time r);
     Xmltv.end_time := Js.Num (EPGProgramDB.end_time r);
     Xmltv.category := EPGProgramDB.category r;
     Xmltv.icon_url := EPGProgramDB.icon_url r |}.

(** A parsed program with its empty optional texts taken as absent, the
    way the insert binds them. *)
Definition normalise (p : Xmltv.EPGProgram) : Xmltv.EPGProgram :=
  {| Xmltv.channel_id := Xmltv.channel_id p;
     Xmltv.title := Xmltv.title p;
     Xmltv.description := Queries.or_null (Xmltv.description p);
     Xmltv.start_time := Xmltv.start_time p;
     Xmltv.end_time := Xmltv.end_time p;
     Xmltv.category := Queries.or_null (Xmltv.category p);
     Xmltv.icon_url := Queries.or_null (Xmltv.icon_url p) |}.

(** No optional text of the parsed program is the empty string. *)
Definition no_empty_text (p : Xmltv.EPGProgram) : Prop :=
  Xmltv.description p <> Some EmptyString
  /\ Xmltv.category p <> Some EmptyString
  /\ Xmltv.icon_url p <> Some EmptyString.

(** The source row the refresh works on is the first of the playlist. *)
Definition stored_source (playlistId : string) (w : World) : option EPGSource.t :=
  Queries.first_by_playlist playlistId (epg_sources w).

(** The fields of a source that [updateEPGSourceFetch] leaves alone. *)
Definition same_identity (a b : EPGSource.t) : Prop :=
  EPGSource.id a = EPGSource.id b
  /\ EPGSource.playlist_id a = EPGSource.playlist_id b
  /\ EPGSource.epg_url a = EPGSource.epg_url b
  /\ EPGSource.created_at a = EPGSource.created_at b.

(** What [updateEPGSourceFetch] does to one row. *)
Definition fetch_recorded (sourceId : string) (now : Z)
    (lastModified etag fetchError : option string) (r r' : EPGSource.t) : Prop :=
  if String.eqb (EPGSource.id r) sourceId then
    EPGSource.last_fetched r' = Some now
    /\ EPGSource.updated_at r' = now
    /\ EPGSource.last_modified r' = lastModified
    /\ EPGSource.etag r' = etag
    /\ EPGSource.fetch_error r' = fetchError
    /\ same_identity r r'
  else r' = r.

(** The source rows after [updateEPGSourceFetch] at time [now]. *)
Definition record_fetch (sourceId : string) (now : Z) (fetchError : option string)
    (w : World) : list EPGSource.t :=
  epg_sources (apply_statement (UpdateSourceFetch now None None fetchError sourceId) w).

(** The program rows left by the prune at [t] and the clear. *)
Definition cleared (sourceId : string) (t : Z) (table : list EPGProgramDB.t)
    : list EPGProgramDB.t :=
  List.filter (fun p => negb (String.eqb (EPGProgramDB.epg_source_id p) sourceId))
    (List.filter (fun p => negb (String.eqb (EPGProgramDB.epg_source_id p) sourceId
                                 && (EPGProgramDB.end_time p <? t)))
                 table).

(** The stored row [r] holds the parsed program [prog] for the source. *)
Definition row_of (sourceId : string) (prog : Xmltv.EPGProgram) (r : EPGProgramDB.t)
    : Prop :=
  EPGProgramDB.epg_source_id r = sourceId /\ program_of_row r = normalise prog.

(** The source was fresh: nothing is fetched or written. *)
Definition ran_fresh (E : Env) (w : World) (source : EPGSource.t) (w2 : World)
    (o : outcome EpgRoute.RefreshResult) : Prop :=
  o = Ok {| EpgRoute.source := Some source; EpgRoute.refreshed := false;
            EpgRoute.error := None |} w2.

(** The parse failed altogether: the failure is recorded on the source. *)
Definition ran_failed (E : Env) (w : World) (url : string) (source : EPGSource.t)
    (pre : list statement) (w1 w3 : World) (result : Xmltv.ParseXMLTVResult)
    (o : outcome EpgRoute.RefreshResult) : Prop :=
  let reason := EpgRoute.join_errors (Xmltv.errors result) in
  let t := clock E (clock_reads w3) in
  exists wf,
    o = Ok {| EpgRoute.source := Some source; EpgRoute.refreshed := false;
              EpgRoute.error := Some reason |} wf
    /\ epg_programs wf = epg_programs w
    /\ fetched wf = (fetched w ++ [url])%list
    /\ executed wf = (executed w ++ pre ++
         [UpdateSourceFetch t None None (Some reason) (EPGSource.id source)])%list
    /\ epg_sources wf = record_fetch (EPGSource.id source) t (Some reason) w1
    /\ clock_reads wf = S (clock_reads w3)
    /\ (exists k, t = clock E k).

(** The insert threw: the helper reports the error without a source. *)
Definition ran_thrown (o : outcome EpgRoute.RefreshResult) : Prop :=
  exists e wt,
    o = Ok {| EpgRoute.source := None; EpgRoute.refreshed := false;
              EpgRoute.error := Some e |} wt.

(** The refresh went through. *)
Definition ran_refreshed (E : Env) (w : World) (url : string) (source : EPGSource.t)
    (pre : list statement) (w1 w3 : World) (result : Xmltv.ParseXMLTVResult)
    (o : outcome EpgRoute.RefreshResult) : Prop :=
  let sid := EPGSource.id source in
  let t_prune := clock E (clock_reads w3) in
  exists batches t_stamp t_return wf,
    o = Ok {| EpgRoute.source := Some (EpgRoute.stamp source t_return);
              EpgRoute.refreshed := true; EpgRoute.error := None |} wf
    /\ executed wf = (executed w ++ pre ++
         [DeleteProgramsEndedBefore sid (t_prune - Freshness.oneHour);
          DeletePrograms sid] ++
         List.map InsertProgramsBatch batches ++
         [UpdateSourceFetch t_stamp None None None sid])%list
    /\ epg_programs wf
       = (cleared sid (t_prune - Freshness.oneHour) (epg_programs w)
          ++ List.concat batches)%list
    /\ Forall2 (row_of sid) (Xmltv.programs result) (List.concat batches)
    /\ epg_sources wf = record_fetch sid t_stamp None w1
    /\ fetched wf = (fetched w ++ [url])%list
    /\ (exists k, t_stamp = clock E k).

(** The attempt on [source], found in the store [w1], is recorded in the
    store [wf] with [fetchError]: the last statement is the update of
    the source at a clock reading [t]; the rows of the source are
    changed as [updateEPGSourceFetch] changes them and no other row is;
    the stored source carries [t] and [fetchError] and is not stale at
    any clock reading up to one hour past [t]. *)
Definition attempt_recorded (E : Env) (playlistId : string) (source : EPGSource.t)
    (w1 wf : World) (fetchError : option string) : Prop :=
  exists before t,
    executed wf
    = (before ++ [UpdateSourceFetch t None None fetchError (EPGSource.id source)])%list
    /\ (exists k, t = clock E k)
    /\ Forall2 (fetch_recorded (EPGSource.id source) t None None fetchError)
               (epg_sources w1) (epg_sources wf)
    /\ exists s', stored_source playlistId wf = Some s'
                  /\ EPGSource.last_fetched s' = Some t
                  /\ EPGSource.updated_at s' = t
                  /\ EPGSource.fetch_error s' = fetchError
                  /\ same_identity source s'
                  /\ forall w', clock E (clock_reads w') - t <= Freshness.oneHour ->
                                value_of (Queries.shouldRefreshEPG E s' w') = Some false.

(** No statement of the list is the update that records a fetch. *)
Definition no_fetch_update (l : list statement) : Prop :=
  Forall (fun s => match s with
                   | UpdateSourceFetch _ _ _ _ _ => False
                   | _ => True
                   end) l.

(** A guide document with one program of channel [bbc1], from 12:00 to
    13:00 on 2024-01-01. *)
Definition one_programme : Xmltv.programme :=
  {| Xmltv.a_channel := Some "bbc1";
     Xmltv.a_start := Some "20240101120000 +0000";
     Xmltv.a_stop := Some "20240101130000 +0000";
     Xmltv.e_title := Some (Xmltv.One (Xmltv.TStr "News"));
     Xmltv.e_desc := None; Xmltv.e_category := None; Xmltv.e_icon := None |}.

(** The clock reads 11:00 of that day and advances by a second at every
    reading. *)
Definition ticking_env (r : Xmltv.response) : Env :=
  {| clock := fun n => 1704106800000 + 1000 * Z.of_nat n;
     uuid := fun n => "id" ++ M3u.show_nat n;
     network := fun _ _ => r;
     rejection := "D1_ERROR: NOT NULL constraint failed" |}.

(** A store with one source of playlist [pl1], never fetched, and one old
    program of it. *)
Definition stale_world : World :=
  {| epg_sources :=
       [{| EPGSource.id := "src1"; EPGSource.playlist_id := "pl1";
           EPGSource.epg_url := "http://g.example/guide.xml";
           EPGSource.last_fetched := None; EPGSource.last_modified := None;
           EPGSource.etag := None; EPGSource.fetch_error := None;
           EPGSource.created_at := 1; EPGSource.updated_at := 1 |}];
     epg_programs := [NowNextSpec.program "old" "bbc1" "Old" 1 2];
     executed := []; fetched := []; clock_reads := 0; uuid_reads := 0 |}.

End Refresh.

(** ** Vocabulary of the guide parser properties *)

Module Guide.

(** A program element of channel [bbc1] whose start is no timestamp. *)
Definition unparseable_start : Xmltv.programme :=
  {| Xmltv.a_channel := Some "bbc1";
     Xmltv.a_start := Some "tomorrow";
     Xmltv.a_stop := Some "20240101130000 +0000";
     Xmltv.e_title := Some (Xmltv.One (Xmltv.TStr "Broken"));
     Xmltv.e_desc := None; Xmltv.e_category := None; Xmltv.e_icon := None |}.

(** A well-formed program element, 12:00 to 13:00 on 2024-01-01. *)
Definition well_formed : Xmltv.programme :=
  {| Xmltv.a_channel := Some "bbc1";
     Xmltv.a_start := Some "20240101120000 +0000";
     Xmltv.a_stop := Some "20240101130000 +0000";
     Xmltv.e_title := Some (Xmltv.One (Xmltv.TStr "News"));
     Xmltv.e_desc := None; Xmltv.e_category := None; Xmltv.e_icon := None |}.

(** 11:00 on 2024-01-01. *)
Definition eleven : Z := 1704106800000.

End Guide.

(** ** Plain objects used as maps

    [{}] inherits the members of [Object.prototype]. Reading such a name
    from a plain object gives the inherited member, not [undefined], and
    writing through what was read lands outside the object. The maps of
    this development stand for the own entries of a plain object; they
    agree with the code on every key that is not one of these names. *)

Module JsObject.

(** [Object.getOwnPropertyNames(Object.prototype)]. *)
Definition inherited_names : list string :=
  [ "constructor"; "__defineGetter__"; "__defineSetter__"; "hasOwnProperty";
    "__lookupGetter__"; "__lookupSetter__"; "isPrototypeOf";
    "propertyIsEnumerable"; "toString"; "valueOf"; "__proto__";
    "toLocaleString" ].

(** [key] names a member every plain object inherits. *)
Definition inherited (key : string) : bool :=
  List.existsb (String.eqb key) inherited_names.

(** None of the keys names an inherited member. *)
Definition own_keys (keys : list string) : Prop :=
  Forall (fun key => inherited key = false) keys.

End JsObject.

(** ** Search and grouping of channels: [utils/m3u-parser.ts] *)

Module M3uChannels.

(** [toLowerCase] on one code unit below 256: the ASCII capitals and the
    Latin-1 capitals (all of 192..222 but the multiplication sign). *)
Definition lowerChar (c : ascii) : ascii :=
  let n := Js.code c in
  if ((65 <=? n) && (n <=? 90) || (192 <=? n) && (n <=? 222) && negb (n =? 215))%N
  then ascii_of_N (n + 32) else c.

(** [s.toLowerCase()]. *)
Fixpoint toLowerCase (s : string) : string :=
  match s with
  | EmptyString => EmptyString
  | String c s' => String (lowerChar c) (toLowerCase s')
  end.

(** [s.includes(t)]. *)
Fixpoint includes (t s : string) : bool :=
  String.prefix t s
  || match s with
     | EmptyString => false
     | String _ s' => includes t s'
     end.

(** The test of [filterChannels] on one channel. *)
Definition matches (term : string) (channel : M3u.Channel) : bool :=
  includes term (toLowerCase (M3u.name channel))
  || match M3u.group channel with
     | Some g => M3u.truthy g && includes term (toLowerCase g)
     | None => false
     end.

(** [filterChannels]. *)
Definition filterChannels (channels : list M3u.Channel) (searchTerm : string)
    : list M3u.Channel :=
  if negb (M3u.truthy searchTerm) then channels
  else
    let term := toLowerCase searchTerm in
    List.filter (matches term) channels.

(** [channel.group || 'Uncategorized']. *)
Definition group_key (channel : M3u.Channel) : string :=
  match M3u.group channel with
  | Some g => if M3u.truthy g then g else "Uncategorized"
  | None => "Uncategorized"
  end.

(** The own entries of [groups] once [channel] has been pushed to the
    list of [group], created empty when there is none. *)
Definition group_push (groups : gmap string (list M3u.Channel)) (channel : M3u.Channel)
    : gmap string (list M3u.Channel) :=
  let group := group_key channel in
  <[group := (default [] (groups !! group) ++ [channel])%list]> groups.

(** The reducer of [groupChannels]; [None] is the [TypeError] it throws.
    The accumulator is a plain object: for a group that names an
    inherited member, [groups[group]] is that member, so no list is
    created and [groups[group].push] is not a function. *)
Definition group_step (groups : gmap string (list M3u.Channel)) (channel : M3u.Channel)
    : option (gmap string (list M3u.Channel)) :=
  if JsObject.inherited (group_key channel) then None
  else Some (group_push groups channel).

(** [channels.reduce(reducer, groups)]; an exception ends the reduction. *)
Fixpoint group_reduce (channels : list M3u.Channel)
    (groups : gmap string (list M3u.Channel))
    : option (gmap string (list M3u.Channel)) :=
  match channels with
  | [] => Some groups
  | channel :: rest =>
      match group_step groups channel with
      | Some groups' => group_reduce rest groups'
      | None => None
      end
  end.

(** [groupChannels]: the own entries of the object returned, [None] when
    the call throws. *)
Definition groupChannels (channels : list M3u.Channel)
    : option (gmap string (list M3u.Channel)) :=
  group_reduce channels ∅.

(** [s] contains [t] up to the case of letters. *)
Definition contains_ci (s t : string) : Prop :=
  exists pre mid post,
    s = (pre ++ mid ++ post)%string /\ toLowerCase mid = toLowerCase t.

Definition channel (name : string) (group : option string) : M3u.Channel :=
  {| M3u.name := name; M3u.url := "http://a.example/s"; M3u.logo := None;
     M3u.group := group; M3u.tvg_id := None |}.

Definition lineup : list M3u.Channel :=
  [ channel "BBC One" (Some "News"); channel "Arte" None;
    channel "ITV" (Some "news"); channel "Euronews" (Some EmptyString) ].

End M3uChannels.

(** ** Vocabulary of further playlist properties *)

Module PlaylistMore.

Definition LF : ascii := "010"%char.

Fixpoint count_char (c : ascii) (s : string) : nat :=
  match s with
  | EmptyString => O
  | String x s' => (if Ascii.eqb x c then 1 else 0) + count_char c s'
  end.

(** No line strictly between the positions [j] and [k] satisfies [P]. *)
Definition none_between (P : string -> Prop) (lines : list string) (j k : nat) : Prop :=
  forall i l, (j < i < k)%nat -> List.nth_error lines i = Some l -> ~ P l.

(** The channel [ch] is built from a metadata line with a usable name and
    the first URL line after it, with no other metadata line between the
    two. *)
Definition paired (url_protocol : string -> option string)
    (lines : list string) (ch : M3u.Channel) : Prop :=
  exists j k m,
    (j < k)%nat
    /\ List.nth_error lines j = Some m
    /\ List.nth_error lines k = Some (M3u.url ch)
    /\ Playlist.is_metadata m
    /\ Playlist.usable_name m (M3u.name ch)
    /\ Playlist.is_url_line url_protocol (M3u.url ch)
    /\ ch = Playlist.channel_of m (M3u.name ch) (M3u.url ch)
    /\ none_between Playlist.is_metadata lines j k
    /\ none_between (Playlist.is_url_line url_protocol) lines j k.

(** The warning [e] names the URL line (lines are counted from 1) that
    completes a pending record without a usable name: the first URL line
    after a metadata line that carries no name or an empty one, with no
    other metadata line between the two. *)
Definition warned (url_protocol : string -> option string)
    (lines : list string) (e : string) : Prop :=
  exists j k m u,
    (j < k)%nat
    /\ List.nth_error lines j = Some m
    /\ List.nth_error lines k = Some u
    /\ Playlist.is_metadata m
    /\ (M3u.p_name (M3u.parseExtinf m) = None
        \/ M3u.p_name (M3u.parseExtinf m) = Some EmptyString)
    /\ Playlist.is_url_line url_protocol u
    /\ e = Playlist.warning (k + 1)
    /\ none_between Playlist.is_metadata lines j k
    /\ none_between (Playlist.is_url_line url_protocol) lines j k.

(** The test for a URL line, as a boolean. *)
Definition is_url_lineb (url_protocol : string -> option string) (line : string) : bool :=
  M3u.truthy line && negb (Js.startsWith "#" line) && M3u.isValidUrl url_protocol line.

(** What the loop has found in the lines read so far. *)
Definition found (url_protocol : string -> option string)
    (done : list string) (st : M3u.state) : Prop :=
  (forall ch, In ch (M3u.st_channels st) -> paired url_protocol done ch)
  /\ (forall cur, M3u.currentChannel st = Some cur ->
        exists j m, List.nth_error done j = Some m
                    /\ Playlist.is_metadata m
                    /\ cur = M3u.parseExtinf m
                    /\ forall i l, (j < i)%nat -> List.nth_error done i = Some l ->
                         ~ Playlist.is_metadata l
                         /\ ~ Playlist.is_url_line url_protocol l).

(** The pending record counts for one. *)
Definition pending (st : M3u.state) : nat :=
  match M3u.currentChannel st with Some _ => 1 | None => 0 end.

(** The trimmed lines of a response body, none for a failed fetch. *)
Definition lines_of (r : M3u.response) : list string :=
  match r with
  | M3u.Body content => List.map Js.trim (M3u.split_lines content)
  | _ => []
  end.

(** The result for a feed without the header token. *)
Definition header_missing : M3u.ParseResult :=
  {| M3u.channels := []; M3u.errors := ["Invalid M3U file: missing #EXTM3U header"];
     M3u.epg_url := None |}.

(** A feed whose header comes after a blank line. *)
Definition feed_blank_first : string :=
  Playlist.nl ++ "#EXTM3U" ++ Playlist.nl ++
  "#EXTINF:-1,Channel One" ++ Playlist.nl ++ "http://a.example/1".

(** A metadata line with a comma inside an attribute value. *)
Definition extinf_comma_attrs : string :=
  "#EXTINF:-1 tvg-name=" ++ String M3u.dquote "News, World" ++ String M3u.dquote EmptyString.

Definition extinf_comma : string :=
  extinf_comma_attrs ++ ", BBC One ".

End PlaylistMore.

(** ** Vocabulary of further guide parser properties *)

Module GuideMore.

(** The window of [parseXMLTV]: 48 hours. *)
Definition window : Z := 48 * 60 * 60 * 1000.

(** What every kept program satisfies at clock reading [now]. *)
Definition kept (now : Z) (p : Xmltv.EPGProgram) : Prop :=
  Xmltv.channel_id p <> EmptyString
  /\ Xmltv.title p <> EmptyString
  /\ (forall e, Xmltv.end_time p = Js.Num e -> now <= e)
  /\ (forall s, Xmltv.start_time p = Js.Num s -> s <= now + window).

(** The program [p] was read from the element [prog]. *)
Definition read_from (prog : Xmltv.programme) (p : Xmltv.EPGProgram) : Prop :=
  Xmltv.a_channel prog = Some (Xmltv.channel_id p)
  /\ option_map Xmltv.parseXMLTVDateTime (Xmltv.a_start prog) = Some (Xmltv.start_time p)
  /\ option_map Xmltv.parseXMLTVDateTime (Xmltv.a_stop prog) = Some (Xmltv.end_time p)
  /\ Xmltv.extract_title (Xmltv.e_title prog) = Xmltv.title p.

(** The elements of the document a response carries, none otherwise. *)
Definition elements (r : Xmltv.response) : list Xmltv.programme :=
  match r with
  | Xmltv.Body (Xmltv.Tv programmes) => programmes
  | _ => []
  end.

(** [parsed?.tv] is truthy: the response carries a document whose [tv]
    the reader gives as an object. An empty [tv] element is not of this
    kind. *)
Definition tv_truthy (r : Xmltv.response) : bool :=
  match r with
  | Xmltv.Body (Xmltv.Tv _) => true
  | _ => false
  end.

End GuideMore.

(** ** Vocabulary of further source and store properties *)

Module SourceMore.

(** The source of playlist [pl1], fetched at 10:50 on 2024-01-01. *)
Definition fetched_source : EPGSource.t :=
  {| EPGSource.id := "src1"; EPGSource.playlist_id := "pl1";
     EPGSource.epg_url := "http://g.example/guide.xml";
     EPGSource.last_fetched := Some 1704106200000; EPGSource.last_modified := None;
     EPGSource.etag := None; EPGSource.fetch_error := None;
     EPGSource.created_at := 1; EPGSource.updated_at := 1704106200000 |}.

(** A store with that source and one program of it. *)
Definition fetched_world : D1.World :=
  {| D1.epg_sources := [fetched_source];
     D1.epg_programs := [NowNextSpec.program "old" "bbc1" "Old" 1 2];
     D1.executed := []; D1.fetched := []; D1.clock_reads := 0; D1.uuid_reads := 0 |}.

End SourceMore.

(** ** Vocabulary of the bulk insert properties *)

Module StoreMore.

(** Both times of the parsed program are numbers. *)
Definition numeric (p : Xmltv.EPGProgram) : Prop :=
  Xmltv.start_time p <> Js.NaN /\ Xmltv.end_time p <> Js.NaN.

(** A batch of at least one and at most a hundred rows, all of the source
    and created at [now]. *)
Definition batch_ok (sourceId : string) (now : Z) (b : list EPGProgramDB.t) : Prop :=
  (1 <= List.length b <= 100)%nat
  /\ Forall (fun r => EPGProgramDB.created_at r = now
                      /\ EPGProgramDB.epg_source_id r = sourceId) b.

(** What the chunk loop has done from index [i] on, with outcome [o]:
    the batches it inserted, and either all programs from [i] on are
    stored, or the batch after full batches was rejected. *)
Definition ran_chunks (E : D1.Env) (sourceId : string) (now : Z)
    (programs : list Xmltv.EPGProgram) (i : nat) (w : D1.World) (o : D1.outcome unit)
    (batches : list (list EPGProgramDB.t)) : Prop :=
  D1.epg_programs (D1.world_of o) = (D1.epg_programs w ++ List.concat batches)%list
  /\ D1.executed (D1.world_of o)
     = (D1.executed w ++ List.map D1.InsertProgramsBatch batches)%list
  /\ D1.epg_sources (D1.world_of o) = D1.epg_sources w
  /\ D1.fetched (D1.world_of o) = D1.fetched w
  /\ Forall (batch_ok sourceId now) batches
  /\ ((o = D1.Ok tt (D1.world_of o)
       /\ Forall numeric (List.skipn i programs)
       /\ Forall2 (Refresh.row_of sourceId) (List.skipn i programs) (List.concat batches)
       /\ (List.length programs - i <= 100 * List.length batches
           < List.length programs - i + 100)%nat)
      \/ (o = D1.Thrown (D1.rejection E) (D1.world_of o)
          /\ List.length (List.concat batches) = (100 * List.length batches)%nat
          /\ Forall2 (Refresh.row_of sourceId)
               (List.firstn (100 * List.length batches) (List.skipn i programs))
               (List.concat batches)
          /\ ~ Forall numeric
                 (List.firstn 100
                    (List.skipn (i + 100 * List.length batches) programs)))).

(** The store once the prune and the clear of a refresh have run. *)
Definition emptied (E : D1.Env) (sourceId : string) (w : D1.World) : D1.World :=
  D1.log (D1.DeletePrograms sourceId)
    (D1.apply_statement (D1.DeletePrograms sourceId)
       (D1.world_of (Queries.cleanupOldPrograms E sourceId w))).

(** A parsed program with numeric times. *)
Definition prog (channel : string) (start_ end_ : Z) : Xmltv.EPGProgram :=
  {| Xmltv.channel_id := channel; Xmltv.title := "T"; Xmltv.description := None;
     Xmltv.start_time := Js.Num start_; Xmltv.end_time := Js.Num end_;
     Xmltv.category := None; Xmltv.icon_url := None |}.

(** A parsed program whose start is not a number. *)
Definition prog_nan (channel : string) (end_ : Z) : Xmltv.EPGProgram :=
  {| Xmltv.channel_id := channel; Xmltv.title := "T"; Xmltv.description := None;
     Xmltv.start_time := Js.NaN; Xmltv.end_time := Js.Num end_;
     Xmltv.category := None; Xmltv.icon_url := None |}.

End StoreMore.

(** ** The forced refresh of [routes/epg.ts] *)

Module EpgHandlers.
Import D1.
Local Open Scope d1_scope.

(** The responses of [POST /:playlistId/refresh]: not found (404), the
    two bad requests (400), success, and the response of the [catch]
    branch (500). *)
Inductive RefreshResponse : Type :=
| RefreshDenied
| UrlRequired
| ParseFailed (details : list string)
| Refreshed (program_count : nat) (warnings : option (list string))
| RefreshError.

Section WithEnv.
Variable E : Env.

(** The handler of [POST /:playlistId/refresh]. [body] is what
    [c.req.json()] gives, [None] when it throws, and otherwise an object
    read through its member [epg_url]; [isOwner] is the answer of the
    ownership query, which reads the table of playlists only. *)
Definition post_refresh (playlistId : string) (body : option (option string))
    (isOwner : bool) : M RefreshResponse :=
  try_catch
    (match body with
     | None => throw "SyntaxError: Unexpected end of JSON input"
     | Some epg_url =>
         if negb isOwner then ret RefreshDenied
         else
           match epg_url with
           | None => ret UrlRequired
           | Some url =>
               if negb (M3u.truthy url) then ret UrlRequired
               else
                 let* source := Queries.getOrCreateEPGSource E playlistId url in
                 let* result := EpgRoute.fetchAndParseXMLTV E url in
                 if EpgRoute.total_failure result then
                   let* _ := Queries.updateEPGSourceFetch E (EPGSource.id source)
                               None None
                               (Some (EpgRoute.join_errors (Xmltv.errors result))) in
                   ret (ParseFailed (Xmltv.errors result))
                 else
                   let* _ := Queries.clearEPGPrograms (EPGSource.id source) in
                   let* _ := Queries.insertEPGPrograms E (EPGSource.id source)
                               (Xmltv.programs result) in
                   let* _ := Queries.updateEPGSourceFetch E (EPGSource.id source)
                               None None None in
                   ret (Refreshed (List.length (Xmltv.programs result))
                          (if (0 <? List.length (Xmltv.errors result))%nat
                           then Some (Xmltv.errors result) else None))
           end
     end)
    (fun _ => ret RefreshError).

End WithEnv.

(** The store once the clear of a forced refresh has run. *)
Definition wiped (sourceId : string) (w : World) : World :=
  log (DeletePrograms sourceId) (apply_statement (DeletePrograms sourceId) w).

End EpgHandlers.

(** ** Vocabulary of the in-memory now/next properties *)

Module MemoryNowNext.

(** [start_time <= now && end_time > now]. *)
Definition airing (now : Z) (p : Xmltv.EPGProgram) : bool :=
  Js.le (Xmltv.start_time p) (Js.Num now) && Js.gt (Xmltv.end_time p) (Js.Num now).

(** [start_time > now]. *)
Definition upcoming (now : Z) (p : Xmltv.EPGProgram) : bool :=
  Js.gt (Xmltv.start_time p) (Js.Num now).

(** The start of the program is a number. *)
Definition has_start (p : Xmltv.EPGProgram) : Prop :=
  Xmltv.start_time p <> Js.NaN.

Definition starts_no_later (a b : Xmltv.EPGProgram) : Prop :=
  Js.le (Xmltv.start_time a) (Xmltv.start_time b) = true.

(** The programs before the first upcoming one. *)
Fixpoint before_upcoming (now : Z) (l : list Xmltv.EPGProgram)
    : list Xmltv.EPGProgram :=
  match l with
  | [] => []
  | p :: l' => if upcoming now p then [] else p :: before_upcoming now l'
  end.

(** The last airing program of a list, [acc] when there is none. *)
Fixpoint last_airing (now : Z) (acc : option Xmltv.EPGProgram)
    (l : list Xmltv.EPGProgram) : option Xmltv.EPGProgram :=
  match l with
  | [] => acc
  | p :: l' => last_airing now (if airing now p then Some p else acc) l'
  end.

(** Three programs of channel [bbc1] and one of [itv], out of order. *)
Definition schedule : list Xmltv.EPGProgram :=
  [ StoreMore.prog "bbc1" 30 40; StoreMore.prog "itv" 0 100;
    StoreMore.prog "bbc1" 10 20; StoreMore.prog "bbc1" 20 30 ].

End MemoryNowNext.

(** ** The channel list of [routes/channels.ts], from the parse result on *)

Module ChannelsHandler.
Import D1.
Local Open Scope d1_scope.

(** The responses of the handler past the playlist lookup: the parse
    error (400) and the channel list. *)
Inductive Response : Type :=
| ParseError (details : list string)
| Channels (channels : list ChannelsRoute.ChannelWithEPG) (total : nat)
           (epg_available : bool) (epg_url : option string)
           (warnings : option (list string)).

Section WithEnv.
Variable E : Env.

(** [epgAvailable] and [epgData] of the handler. *)
Definition epg_data (playlistId : string) (epg_url : option string)
    (channels : list M3u.Channel) : M (bool * gmap string Queries.NowNext) :=
  match epg_url with
  | Some u =>
      if M3u.truthy u then
        let* epgResult := EpgRoute.refreshEPGIfNeeded E playlistId u in
        match EpgRoute.source epgResult with
        | Some source =>
            let channelIds := ChannelsRoute.channelIds channels in
            match channelIds with
            | [] => ret (true, ∅)
            | _ =>
                let* epgData := Queries.getNowNextPrograms E (EPGSource.id source)
                                  channelIds in
                ret (true, epgData)
            end
        | None => ret (true, ∅)
        end
      else ret (false, ∅)
  | None => ret (false, ∅)
  end.

(** The handler of [GET /:playlistId] once [parseM3U] has returned
    [parseResult]; [searchTerm] is the query parameter, empty when
    absent. *)
Definition after_parse (playlistId searchTerm : string)
    (parseResult : M3u.ParseResult) : M Response :=
  if (0 <? List.length (M3u.errors parseResult))%nat
     && (List.length (M3u.channels parseResult) =? 0)%nat
  then ret (ParseError (M3u.errors parseResult))
  else
    let channels :=
      if M3u.truthy searchTerm
      then M3uChannels.filterChannels (M3u.channels parseResult) searchTerm
      else M3u.channels parseResult in
    let* d := epg_data playlistId (M3u.epg_url parseResult) channels in
    let channelsWithEPG := ChannelsRoute.channelsWithEPG channels (snd d) in
    ret (Channels channelsWithEPG (List.length channelsWithEPG) (fst d)
           (M3u.epg_url parseResult)
           (if (0 <? List.length (M3u.errors parseResult))%nat
            then Some (M3u.errors parseResult) else None)).

End WithEnv.

(** The header names a guide. *)
Definition names_guide (parseResult : M3u.ParseResult) : bool :=
  match M3u.epg_url parseResult with
  | Some u => M3u.truthy u
  | None => false
  end.

(** A parse result of two channels, one with a guide id, and no guide
    address. *)
Definition parsed_without_guide : M3u.ParseResult :=
  {| M3u.channels := Merge.sample_channels; M3u.errors := []; M3u.epg_url := None |}.

End ChannelsHandler.

(** ** The schedule of one channel: [getChannelPrograms] and its route *)

Module ChannelPrograms.








Definition start_le (a b : EPGProgramDB.t) : Prop :=
  EPGProgramDB.start_time a <= EPGProgramDB.start_time b.


Definition day : Z := 24 * 60 * 60 * 1000.

End ChannelPrograms.

(** ** The now/next route of [routes/epg.ts] *)

Module NowNextHandler.
Import D1.
Local Open Scope d1_scope.

(** The responses of [GET /:playlistId/now-next]: not found (404), no
    guide for the playlist, the bad request (400), the programs, and the
    response of the [catch] branch (500). *)
Inductive Response : Type :=
| Denied
| NoGuide
| ChannelIdsRequired
| Programs (programs : gmap string Queries.NowNext) (last_updated : option Z)
| Failed.

(** [s.split(sep)] for a separator of one code unit. *)
Fixpoint split_on (sep : ascii) (s : string) : list string :=
  match s with
  | EmptyString => [EmptyString]
  | String c s' =>
      if Ascii.eqb c sep then EmptyString :: split_on sep s'
      else
        match split_on sep s' with
        | l :: ls => String c l :: ls
        | [] => [String c EmptyString]
        end
  end.

(** [channelIdsParam.split(',').map((id) => id.trim()).filter(Boolean)],
    the empty list when the parameter is absent or empty. *)
Definition channel_ids (channelIdsParam : option string) : list string :=
  match channelIdsParam with
  | Some p =>
      if M3u.truthy p
      then List.filter M3u.truthy (List.map Js.trim (split_on "," p))
      else []
  | None => []
  end.

Section WithEnv.
Variable E : Env.

(** The handler; [isOwner] is the answer of the ownership query, which
    reads the table of playlists only. *)
Definition get_now_next (playlistId : string) (channelIdsParam : option string)
    (isOwner : bool) : M Response :=
  try_catch
    (if negb isOwner then ret Denied
     else
       let* source := Queries.getEPGSourceForPlaylist playlistId in
       match source with
       | None => ret NoGuide
       | Some source =>
           let channelIds := channel_ids channelIdsParam in
           match channelIds with
           | [] => ret ChannelIdsRequired
           | _ =>
               let* programs := Queries.getNowNextPrograms E (EPGSource.id source)
                                  channelIds in
               ret (Programs programs (EPGSource.last_fetched source))
           end
       end)
    (fun _ => ret Failed).

End WithEnv.

End NowNextHandler.

(** * Properties *)

(** ** Timestamps *)

Section TimestampFacts.
Import Timestamp.









Lemma substring_0_0 (t : string) : String.substring 0 0 t = EmptyString.
Proof. destruct t; reflexivity. Qed.







(** *** [Date.UTC] against the calendar *)












End TimestampFacts.


(** ** Staleness *)

Section Staleness.
Import D1 Freshness.

(** C3. At any clock reading later than one hour after the epoch, a
    source is stale exactly when [last_fetched] is absent or more than
    one hour older than the clock reading; so a source fetched 30
    minutes ago is not stale, one fetched 90 minutes ago is stale, and
    one never fetched is stale. The test changes no table. (The code
    also takes the timestamp 0 for absent; at such a clock reading that
    timestamp is more than one hour old anyway.) *)
Theorem shouldRefreshEPG_stale_iff (E : Env) (w : World) (source : EPGSource.t) :
  let now := clock E (clock_reads w) in
  let r := Queries.shouldRefreshEPG E source w in
  oneHour < now ->
  value_of r = Some (stale_as_described (EPGSource.last_fetched source) now)
  /\ (value_of r = Some true
      <-> EPGSource.last_fetched source = None
          \/ exists t, EPGSource.last_fetched source = Some t /\ now - t > oneHour)
  /\ (value_of r = Some true \/ value_of r = Some false)
  /\ (EPGSource.last_fetched source = Some (now - 30 * 60 * 1000) ->
      value_of r = Some false)
  /\ (EPGSource.last_fetched source = Some (now - 90 * 60 * 1000) ->
      value_of r = Some true)
  /\ (EPGSource.last_fetched source = None -> value_of r = Some true)
  /\ epg_sources (world_of r) = epg_sources w
  /\ epg_programs (world_of r) = epg_programs w.
Proof.
  cbv zeta. intros Hnow.
  assert (Hval : value_of (Queries.shouldRefreshEPG E source w)
                 = Some (stale_as_described (EPGSource.last_fetched source)
                           (clock E (clock_reads w)))
                 /\ epg_sources (world_of (Queries.shouldRefreshEPG E source w))
                    = epg_sources w
                 /\ epg_programs (world_of (Queries.shouldRefreshEPG E source w))
                    = epg_programs w).
  { unfold Queries.shouldRefreshEPG, Queries.older_than_one_hour, stale_as_described.
    destruct (EPGSource.last_fetched source) as [t|]; [|now cbn].
    destruct (Z.eqb_spec t 0) as [->|Hne].
    - cbn [ret value_of world_of]. repeat split. f_equal. symmetry.
      apply Z.gtb_lt. lia.
    - unfold bind, Date_now, ret. cbn [value_of world_of epg_sources epg_programs].
      repeat split. f_equal. fold oneHour.
      destruct (Z.ltb_spec t (clock E (clock_reads w) - oneHour));
        symmetry; [apply Z.gtb_lt | rewrite Z.gtb_ltb; apply Z.ltb_ge]; lia. }
  destruct Hval as (Hval & Hsrc & Hprog). rewrite Hval.
  unfold stale_as_described.
  split; [reflexivity|]. split; [|split; [|split; [|split; [|split; [|split]]]]];
    try assumption.
  - destruct (EPGSource.last_fetched source) as [t|].
    + split.
      * intros [= H]. right. exists t. split; [reflexivity|]. apply Z.gtb_lt in H. lia.
      * intros [H | (t' & [= <-] & H)]; [discriminate|]. f_equal. apply Z.gtb_lt. lia.
    + split; [now left | reflexivity].
  - destruct (EPGSource.last_fetched source) as [t|]; [|now left].
    destruct (clock E (clock_reads w) - t >? oneHour); [now left | now right].
  - intros ->. f_equal. rewrite Z.gtb_ltb. apply Z.ltb_ge. unfold oneHour. lia.
  - intros ->. f_equal. apply Z.gtb_lt. unfold oneHour. lia.
  - now intros ->.
Qed.

(** The three sample sources at the clock reading 1700000000000. *)
Lemma shouldRefreshEPG_stale_iff_witness :
  let E := fixed_env 1700000000000 (Xmltv.NotOk "500" "down") in
  value_of (Queries.shouldRefreshEPG E
              (source_fetched_at (Some (1700000000000 - 30 * 60 * 1000))) empty_world)
    = Some false
  /\ value_of (Queries.shouldRefreshEPG E
              (source_fetched_at (Some (1700000000000 - 90 * 60 * 1000))) empty_world)
    = Some true
  /\ value_of (Queries.shouldRefreshEPG E (source_fetched_at None) empty_world)
    = Some true.
Proof.
  cbv zeta.
  pose (E := fixed_env 1700000000000 (Xmltv.NotOk "500" "down")).
  assert (Hnow : oneHour < clock E (clock_reads empty_world)) by (vm_compute; reflexivity).
  split; [|split].
  - destruct (shouldRefreshEPG_stale_iff E empty_world
                (source_fetched_at (Some (1700000000000 - 30 * 60 * 1000))) Hnow)
      as (_ & _ & _ & H & _).
    apply H. reflexivity.
  - destruct (shouldRefreshEPG_stale_iff E empty_world
                (source_fetched_at (Some (1700000000000 - 90 * 60 * 1000))) Hnow)
      as (_ & _ & _ & _ & H & _).
    apply H. reflexivity.
  - destruct (shouldRefreshEPG_stale_iff E empty_world (source_fetched_at None) Hnow)
      as (_ & _ & _ & _ & _ & H & _).
    apply H. reflexivity.
Defined.

End Staleness.

(** ** Enrichment merge *)

Section MergeFacts.
Import Merge.

Lemma epg_of_no_guide_id epgData ch :
  no_guide_id ch -> ChannelsRoute.epg_of epgData ch = None.
Proof.
  unfold ChannelsRoute.epg_of. intros [H|H]; rewrite H; reflexivity.
Qed.

(** C9. The merge gives one output record per channel, in order; the
    channel fields of every record are those of its channel; and a channel
    whose [tvg_id] is absent or empty has no [epg], whatever the map
    holds. *)
Theorem channelsWithEPG_merge (channels : list M3u.Channel)
    (epgData : gmap string Queries.NowNext) :
  let out := ChannelsRoute.channelsWithEPG channels epgData in
  List.length out = List.length channels
  /\ List.map ChannelsRoute.channel_of out = channels
  /\ (forall i ch, List.nth_error channels i = Some ch ->
        exists o, List.nth_error out i = Some o
                  /\ ChannelsRoute.channel_of o = ch
                  /\ (no_guide_id ch -> ChannelsRoute.epg o = None)).
Proof.
  cbv zeta. unfold ChannelsRoute.channelsWithEPG.
  split; [apply List.length_map|]. split.
  - rewrite List.map_map. induction channels as [|[n u l g t] chs IH]; simpl.
    + reflexivity.
    + f_equal. exact IH.
  - intros i ch Hi. exists (ChannelsRoute.merge_one epgData ch). split.
    + now apply List.map_nth_error.
    + split; [now destruct ch|]. apply epg_of_no_guide_id.
Qed.

(** The second sample channel has an empty [tvg_id] and the map has an
    entry under the empty key: its record still has no [epg]. *)
Lemma channelsWithEPG_merge_witness :
  exists o, List.nth_error (ChannelsRoute.channelsWithEPG sample_channels sample_map) 1
            = Some o
            /\ ChannelsRoute.epg o = None.
Proof.
  destruct (proj2 (proj2 (channelsWithEPG_merge sample_channels sample_map))
              1%nat _ eq_refl) as (o & Ho & _ & He).
  exists o. split; [exact Ho|]. apply He. right. reflexivity.
Defined.

End MergeFacts.

(** ** Guide address of the playlist header *)

Section GuideUrlFacts.
Import GuideUrl.

Lemma strip_literal_iff lit : forall s rest,
  M3u.strip_literal true lit s = Some rest
  <-> exists l, s = (l ++ rest)%string /\ ci_equal lit l = true.
Proof.
  induction lit as [|a lit IH]; intros s rest; cbn [M3u.strip_literal].
  - split.
    + intros [= ->]. exists EmptyString. split; reflexivity.
    + intros (l & -> & Hl). destruct l; [reflexivity|discriminate].
  - destruct s as [|b s].
    + split; [discriminate|]. intros (l & Hs & Hl).
      destruct l; discriminate.
    + destruct (M3u.char_eq true a b) eqn:Hab.
      * rewrite IH. split.
        -- intros (l & -> & Hl). exists (String b l). cbn [ci_equal String.append].
           rewrite Hab. split; [reflexivity|exact Hl].
        -- intros (l & Hs & Hl). destruct l as [|b' l]; [discriminate|].
           cbn [String.append] in Hs. injection Hs as -> ->.
           cbn [ci_equal] in Hl. rewrite Hab in Hl. exists l. split; [reflexivity|exact Hl].
      * split; [discriminate|]. intros (l & Hs & Hl).
        destruct l as [|b' l]; [discriminate|].
        cbn [String.append] in Hs. injection Hs as -> ->.
        cbn [ci_equal] in Hl. rewrite Hab in Hl. discriminate.
Qed.

Lemma until_quote_app v : forall post,
  no_quote v = true -> M3u.until_quote (v ++ String M3u.dquote post) = Some v.
Proof.
  induction v as [|c v IH]; intros post Hv; cbn [String.append M3u.until_quote].
  - now rewrite Ascii.eqb_refl.
  - cbn [no_quote] in Hv. apply andb_prop in Hv as [Hc Hv].
    apply negb_true_iff in Hc. rewrite Hc, (IH post Hv). reflexivity.
Qed.

Lemma until_quote_iff s : forall v,
  M3u.until_quote s = Some v
  <-> exists post, s = (v ++ String M3u.dquote post)%string /\ no_quote v = true.
Proof.
  induction s as [|c s IH]; intros v.
  - split; [discriminate|]. intros (post & H & _). destruct v; discriminate.
  - split.
    + cbn [M3u.until_quote]. destruct (Ascii.eqb c M3u.dquote) eqn:Hc.
      * apply Ascii.eqb_eq in Hc. intros [= <-]. exists s. subst c. split; reflexivity.
      * destruct (M3u.until_quote s) as [v'|] eqn:Hu; [|discriminate].
        intros [= <-]. destruct (proj1 (IH v') eq_refl) as (post & -> & Hv).
        exists post. cbn [no_quote String.append]. rewrite Hc. split; [reflexivity|exact Hv].
    + intros (post & -> & Hv). now apply until_quote_app.
Qed.

(** The pattern matches at the start of [s] exactly when the attribute
    stands at offset 0. *)
Lemma attr_at_iff key s v :
  M3u.attr_at true key s = Some v <-> attr_occurs key s 0 v.
Proof.
  unfold M3u.attr_at, attr_occurs. split.
  - destruct (M3u.strip_literal true (M3u.attr_literal key) s) as [rest|] eqn:Hs;
      [|discriminate].
    intros Hu. apply strip_literal_iff in Hs as (l & -> & Hl).
    apply until_quote_iff in Hu as (post & -> & Hv).
    exists EmptyString, l, post. repeat split; assumption.
  - intros (pre & lit & post & -> & Hpre & Hl & Hv).
    destruct pre; [|discriminate]. simpl.
    assert (M3u.strip_literal true (M3u.attr_literal key)
              (lit ++ v ++ String M3u.dquote post)
            = Some (v ++ String M3u.dquote post)%string) as ->
      by (apply strip_literal_iff; eauto).
    apply until_quote_iff. eauto.
Qed.

Lemma attr_occurs_tail key c s n v :
  attr_occurs key (String c s) (S n) v <-> attr_occurs key s n v.
Proof.
  unfold attr_occurs. split.
  - intros (pre & lit & post & Hs & Hpre & Hl & Hv).
    destruct pre as [|c' pre]; [discriminate|].
    simpl in Hs, Hpre. injection Hs as <- ->. injection Hpre as Hpre.
    exists pre, lit, post. repeat split; assumption.
  - intros (pre & lit & post & -> & Hpre & Hl & Hv).
    exists (String c pre), lit, post. simpl. repeat split; try assumption.
    now rewrite Hpre.
Qed.

Lemma attr_occurs_empty key n v : ~ attr_occurs key EmptyString n v.
Proof.
  intros (pre & lit & post & Hs & _ & _ & _).
  destruct pre; [|discriminate]. destruct lit; simpl in Hs.
  - destruct v; discriminate.
  - discriminate.
Qed.

Lemma match_attr_some key s : forall v,
  M3u.match_attr true key s = Some v -> leftmost_attr key s v.
Proof.
  induction s as [|c s IH]; intros v; simpl.
  - destruct (M3u.attr_at true key EmptyString) as [v'|] eqn:Ha; [|discriminate].
    intros [= <-]. apply attr_at_iff in Ha. now apply attr_occurs_empty in Ha.
  - destruct (M3u.attr_at true key (String c s)) as [v'|] eqn:Ha.
    + intros [= <-]. exists 0%nat. split; [now apply attr_at_iff|]. intros; lia.
    + intros Hm. apply IH in Hm as (n & Hn & Hmin).
      exists (S n). split; [now apply attr_occurs_tail|].
      intros m v' Hm. destruct m as [|m].
      * apply attr_at_iff in Hm. congruence.
      * apply attr_occurs_tail in Hm. apply Hmin in Hm. lia.
Qed.

Lemma match_attr_none key s :
  M3u.match_attr true key s = None -> attr_absent key s.
Proof.
  induction s as [|c s IH]; simpl.
  - intros _ n v. apply attr_occurs_empty.
  - destruct (M3u.attr_at true key (String c s)) as [v'|] eqn:Ha; [discriminate|].
    intros Hm n v Hn. destruct n as [|n].
    + apply attr_at_iff in Hn. congruence.
    + apply attr_occurs_tail in Hn. exact (IH Hm n v Hn).
Qed.

Lemma attr_occurs_value key s n v v' :
  attr_occurs key s n v -> attr_occurs key s n v' -> v = v'.
Proof.
  revert s. induction n as [|n IH]; intros s H H'.
  - apply attr_at_iff in H, H'. congruence.
  - destruct s as [|c s]; [now apply attr_occurs_empty in H|].
    apply attr_occurs_tail in H, H'. eauto.
Qed.

(** The pattern search returns the value of the leftmost occurrence. *)
Lemma match_attr_leftmost key s v :
  leftmost_attr key s v -> M3u.match_attr true key s = Some v.
Proof.
  intros (n & Hn & Hmin).
  destruct (M3u.match_attr true key s) as [v'|] eqn:Hm.
  - apply match_attr_some in Hm as (n' & Hn' & Hmin').
    assert (n = n') by (apply Hmin in Hn'; apply Hmin' in Hn; lia). subst n'.
    f_equal. eapply attr_occurs_value; eassumption.
  - apply match_attr_none in Hm. now apply Hm in Hn.
Qed.

Lemma match_attr_unusable key s :
  unusable key s ->
  M3u.match_attr true key s = None \/ M3u.match_attr true key s = Some EmptyString.
Proof.
  intros [Habs|Hl].
  - left. destruct (M3u.match_attr true key s) as [v|] eqn:Hm; [|reflexivity].
    apply match_attr_some in Hm as (n & Hn & _). now apply Habs in Hn.
  - right. now apply match_attr_leftmost.
Qed.

(** C8, as amended. The guide address is the value of the leftmost
    [url-tvg] attribute when that value is not empty, wherever [x-tvg-url]
    stands on the line; otherwise it is the value of the leftmost
    [x-tvg-url] attribute when that value is not empty; otherwise it is
    absent, in particular when neither attribute is present. *)
Theorem extractEpgUrl_priority (headerLine : string) :
  (forall v, leftmost_attr "url-tvg" headerLine v -> v <> EmptyString ->
             M3u.extractEpgUrl headerLine = Some v)
  /\ (forall w, unusable "url-tvg" headerLine ->
                leftmost_attr "x-tvg-url" headerLine w -> w <> EmptyString ->
                M3u.extractEpgUrl headerLine = Some w)
  /\ (unusable "url-tvg" headerLine -> unusable "x-tvg-url" headerLine ->
      M3u.extractEpgUrl headerLine = None)
  /\ (attr_absent "url-tvg" headerLine -> attr_absent "x-tvg-url" headerLine ->
      M3u.extractEpgUrl headerLine = None).
Proof.
  unfold M3u.extractEpgUrl.
  assert (Hfallback : forall w, leftmost_attr "x-tvg-url" headerLine w ->
            w <> EmptyString ->
            match M3u.match_attr true "x-tvg-url" headerLine with
            | Some w0 => if M3u.truthy w0 then Some w0 else None
            | None => None
            end = Some w).
  { intros w Hw Hne. rewrite (match_attr_leftmost _ _ _ Hw).
    destruct w; [contradiction|reflexivity]. }
  assert (Hnone : unusable "x-tvg-url" headerLine ->
            match M3u.match_attr true "x-tvg-url" headerLine with
            | Some w0 => if M3u.truthy w0 then Some w0 else None
            | None => None
            end = None).
  { intros Hu. destruct (match_attr_unusable _ _ Hu) as [-> | ->]; reflexivity. }
  repeat split.
  - intros v Hv Hne. rewrite (match_attr_leftmost _ _ _ Hv).
    destruct v; [contradiction|reflexivity].
  - intros w Hu Hw Hne.
    destruct (match_attr_unusable _ _ Hu) as [-> | ->]; simpl; now apply Hfallback.
  - intros Hu Hx.
    destruct (match_attr_unusable _ _ Hu) as [-> | ->]; simpl; now apply Hnone.
  - intros Hu Hx.
    destruct (match_attr_unusable _ _ (or_introl Hu)) as [-> | ->]; simpl;
      apply Hnone; now left.
Qed.

(** The header that names [x-tvg-url] first and [url-tvg] second: the
    leftmost [url-tvg] value is returned. *)
Lemma extractEpgUrl_priority_witness :
  M3u.extractEpgUrl header_both = Some "http://a.example/g.xml".
Proof.
  apply (proj1 (extractEpgUrl_priority header_both)); [|discriminate].
  apply match_attr_some. reflexivity.
Defined.

(** C8 as stated fails: on a header naming [x-tvg-url] before [url-tvg],
    the attribute that occurs first on the line is [x-tvg-url], but the
    value of [url-tvg] is returned. *)
Lemma extractEpgUrl_not_first_on_line :
  first_on_line header_both = Some "http://b.example/g.xml"
  /\ M3u.extractEpgUrl header_both = Some "http://a.example/g.xml"
  /\ M3u.extractEpgUrl header_both <> first_on_line header_both.
Proof. repeat split; try reflexivity. vm_compute. discriminate. Qed.

End GuideUrlFacts.

(** ** Playlist warnings *)

Section PlaylistFacts.
Import Playlist.
Variable url_protocol : string -> option string.

#[local] Abbreviation step := (M3u.step url_protocol).
#[local] Abbreviation loop := (M3u.loop url_protocol).
#[local] Abbreviation parse_lines := (M3u.parse_lines url_protocol).

Lemma metadata_line m :
  is_metadata m -> M3u.truthy m = true /\ Js.startsWith "#" m = true.
Proof.
  unfold is_metadata, Js.startsWith. destruct m as [|b m]; [discriminate|].
  cbn [String.prefix]. destruct (ascii_dec "#" b); [|discriminate].
  intros _. split; [reflexivity|]. destruct m; reflexivity.
Qed.

Lemma not_comment_not_metadata u :
  Js.startsWith "#" u = false -> Js.startsWith "#EXTINF" u = false.
Proof.
  unfold Js.startsWith. destruct u as [|b u]; [reflexivity|].
  cbn [String.prefix]. destruct (ascii_dec "#" b); [|reflexivity].
  destruct u; discriminate.
Qed.

(** A metadata line replaces the pending record and does nothing else. *)
Lemma step_metadata st i m :
  is_metadata m ->
  step st i m = {| M3u.st_channels := M3u.st_channels st;
                   M3u.st_errors := M3u.st_errors st;
                   M3u.currentChannel := Some (M3u.parseExtinf m) |}.
Proof.
  intros Hm. destruct (metadata_line m Hm) as [Ht Hc].
  unfold M3u.step. unfold is_metadata in Hm. now rewrite Ht, Hc, Hm.
Qed.

(** A URL line completes a pending record that has a usable name. *)
Lemma step_url_named cs es cur i u n :
  is_url_line url_protocol u ->
  M3u.p_name cur = Some n -> M3u.truthy n = true ->
  step {| M3u.st_channels := cs; M3u.st_errors := es;
          M3u.currentChannel := Some cur |} i u
  = {| M3u.st_channels := (cs ++
         [{| M3u.name := n; M3u.url := u; M3u.logo := M3u.p_logo cur;
             M3u.group := M3u.p_group cur; M3u.tvg_id := M3u.p_tvg_id cur |}])%list;
       M3u.st_errors := es;
       M3u.currentChannel := None |}.
Proof.
  intros (Ht & Hc & Hv) Hn Htn.
  unfold M3u.step. cbn [M3u.currentChannel M3u.st_channels M3u.st_errors].
  now rewrite Ht, Hc, (not_comment_not_metadata u Hc), Hv, Hn, Htn.
Qed.

(** A URL line that meets a pending record without a usable name appends
    the warning naming its line, adds no channel and clears the record. *)
Lemma step_url_nameless st i u cur :
  is_url_line url_protocol u ->
  M3u.currentChannel st = Some cur ->
  M3u.p_name cur = None \/ M3u.p_name cur = Some EmptyString ->
  step st i u = {| M3u.st_channels := M3u.st_channels st;
                   M3u.st_errors := (M3u.st_errors st ++ [warning (i + 1)])%list;
                   M3u.currentChannel := None |}.
Proof.
  intros (Ht & Hc & Hv) Hcur Hn.
  unfold M3u.step.
  rewrite Ht, Hc, (not_comment_not_metadata u Hc), Hcur, Hv.
  destruct Hn as [-> | ->]; reflexivity.
Qed.

(** Every line appends at most one warning, and only a valid URL line
    appends one, naming its own line number. *)
Lemma step_errors st i line :
  M3u.st_errors (step st i line) = M3u.st_errors st
  \/ (M3u.st_errors (step st i line) = (M3u.st_errors st ++ [warning (i + 1)])%list
      /\ M3u.isValidUrl url_protocol line = true
      /\ M3u.st_channels (step st i line) = M3u.st_channels st).
Proof.
  unfold M3u.step.
  destruct (negb (M3u.truthy line)
            || Js.startsWith "#" line && negb (Js.startsWith "#EXTINF" line));
    [now left|].
  destruct (Js.startsWith "#EXTINF" line); [now left|].
  destruct (M3u.currentChannel st) as [cur|]; [|now left].
  destruct (M3u.isValidUrl url_protocol line) eqn:Hv; [|now left].
  destruct (M3u.p_name cur) as [n|]; [|right; repeat split].
  destruct (M3u.truthy n && M3u.truthy line); [now left|right; repeat split].
Qed.

Lemma loop_app l1 : forall st i l2,
  loop st i (l1 ++ l2)%list = loop (loop st i l1) (i + List.length l1) l2.
Proof.
  induction l1 as [|l l1 IH]; intros st i l2; simpl.
  - now rewrite Nat.add_0_r.
  - rewrite IH. f_equal. lia.
Qed.

Lemma loop_errors lines : forall st i e,
  In e (M3u.st_errors (loop st i lines)) ->
  In e (M3u.st_errors st)
  \/ exists k line, List.nth_error lines k = Some line
                    /\ e = warning (i + k + 1)
                    /\ M3u.isValidUrl url_protocol line = true.
Proof.
  induction lines as [|l lines IH]; intros st i e He; simpl in He.
  - now left.
  - apply IH in He as [He | (k & line & Hk & -> & Hv)].
    + destruct (step_errors st i l) as [Heq | (Heq & Hv & _)]; rewrite Heq in He.
      * now left.
      * apply List.in_app_or in He as [He | [<- | []]]; [now left|].
        right. exists 0%nat, l. rewrite Nat.add_0_r. repeat split. exact Hv.
    + right. exists (S k), line. repeat split; [exact Hk| |exact Hv].
      f_equal. lia.
Qed.

End PlaylistFacts.

(** C7 as stated fails: a metadata line that no URL line follows adds no
    entry to [errors], wherever it stands; the two channels are returned
    with an empty warning list. *)
Lemma parseM3U_orphan_metadata_no_warning :
  List.length (M3u.channels
     (M3u.parseM3U_content M3u.scheme_protocol Playlist.feed_orphan_between)) = 2%nat
  /\ List.length (M3u.errors
     (M3u.parseM3U_content M3u.scheme_protocol Playlist.feed_orphan_between)) = 0%nat
  /\ List.length (M3u.errors
     (M3u.parseM3U_content M3u.scheme_protocol Playlist.feed_orphan_last)) = 0%nat
  /\ List.length (M3u.errors
     (M3u.parseM3U_content M3u.scheme_protocol Playlist.feed_orphan_text)) = 0%nat
  /\ List.length (M3u.errors
     (M3u.parseM3U_content M3u.scheme_protocol Playlist.feed_orphan_between)) <> 1%nat.
Proof. repeat split; try reflexivity. vm_compute. discriminate. Qed.

(** A nameless metadata line completed by the URL on line 3 is the case
    that does warn. *)
Example parseM3U_nameless_warns :
  M3u.errors (M3u.parseM3U_content M3u.scheme_protocol Playlist.feed_nameless)
  = [Playlist.warning 3].
Proof. reflexivity. Qed.

(** ** Now/next *)

Section NowNextFacts.
Import NowNextSpec.

Variable now_ : Z.

(** *** The grouping loop, channel by channel *)

Lemma scan_step_entry (m : gmap string Queries.NowNext) p :
  Some (default {| Queries.now := None; Queries.next := None |}
          (Queries.scan_step now_ m p !! EPGProgramDB.channel_id p))
  = entry_step now_ (m !! EPGProgramDB.channel_id p) p
  /\ Queries.scan_step now_ m p !! EPGProgramDB.channel_id p
     = entry_step now_ (m !! EPGProgramDB.channel_id p) p.
Proof.
  unfold Queries.scan_step, entry_step, airing, upcoming.
  rewrite lookup_insert_eq. split; reflexivity.
Qed.

Lemma scan_lookup rows : forall (m : gmap string Queries.NowNext) c,
  List.fold_left (Queries.scan_step now_) rows m !! c
  = List.fold_left (entry_step now_)
      (List.filter (fun p => String.eqb (EPGProgramDB.channel_id p) c) rows)
      (m !! c).
Proof.
  induction rows as [|p rows IH]; intros m c; simpl; [reflexivity|].
  rewrite IH. destruct (String.eqb_spec (EPGProgramDB.channel_id p) c) as [<-|Hne].
  - simpl. f_equal. apply scan_step_entry.
  - f_equal. unfold Queries.scan_step. now rewrite lookup_insert_ne.
Qed.

Lemma upcoming_not_airing p : upcoming now_ p = true -> airing now_ p = false.
Proof.
  unfold upcoming, airing. intros H.
  apply andb_false_iff. left. apply Z.leb_gt. now apply Z.gtb_lt in H.
Qed.

(** From an entry, the loop keeps the last airing program and the first
    upcoming one. *)
Lemma entry_fold l : forall e,
  List.fold_left (entry_step now_) l (Some e)
  = Some {| Queries.now := last_airing now_ (Queries.now e) l;
            Queries.next := match Queries.next e with
                            | Some x => Some x
                            | None => List.find (upcoming now_) l
                            end |}.
Proof.
  induction l as [|p l IH]; intros [n x].
  - destruct x; reflexivity.
  - cbn [List.fold_left List.find last_airing Queries.now Queries.next].
    unfold entry_step at 2. cbn [default Queries.now Queries.next].
    destruct (airing now_ p) eqn:Ha.
    + rewrite IH. cbn [Queries.now Queries.next].
      destruct x; [reflexivity|].
      destruct (upcoming now_ p) eqn:Hu; [|reflexivity].
      apply upcoming_not_airing in Hu. congruence.
    + destruct (upcoming now_ p) eqn:Hu; destruct x;
        cbn [Queries.present negb andb]; rewrite IH; reflexivity.
Qed.

Lemma entry_fold_start l :
  List.fold_left (entry_step now_) l None
  = match l with
    | [] => None
    | _ => Some {| Queries.now := last_airing now_ None l;
                   Queries.next := List.find (upcoming now_) l |}
    end.
Proof.
  destruct l as [|p l]; [reflexivity|].
  cbn [List.fold_left List.find last_airing].
  unfold entry_step at 2. cbn [default Queries.now Queries.next].
  destruct (airing now_ p) eqn:Ha.
  - rewrite entry_fold. cbn [Queries.now Queries.next].
    destruct (upcoming now_ p) eqn:Hu; [|reflexivity].
    apply upcoming_not_airing in Hu. congruence.
  - destruct (upcoming now_ p); cbn [Queries.present negb andb];
      rewrite entry_fold; reflexivity.
Qed.

(** *** Last airing and first upcoming program of a list *)

Lemma last_airing_split l : forall acc p,
  last_airing now_ acc l = Some p ->
  (acc = Some p /\ forall q, In q l -> airing now_ q = false)
  \/ exists l1 l2, l = (l1 ++ p :: l2)%list /\ airing now_ p = true
                   /\ forall q, In q l2 -> airing now_ q = false.
Proof.
  induction l as [|x l IH]; intros acc p H; cbn [last_airing] in H.
  - left. split; [exact H|]. intros q [].
  - apply IH in H as [[Hacc Hl] | (l1 & l2 & -> & Hp & Hl2)].
    + destruct (airing now_ x) eqn:Hx.
      * injection Hacc as ->. right. exists [], l. repeat split; assumption.
      * left. split; [exact Hacc|]. intros q [<-|Hq]; auto.
    + right. exists (x :: l1), l2. repeat split; assumption.
Qed.

Lemma last_airing_some l : forall a, last_airing now_ (Some a) l <> None.
Proof.
  induction l as [|x l IH]; intros a; cbn [last_airing]; [discriminate|].
  destruct (airing now_ x); apply IH.
Qed.

Lemma last_airing_none l : forall acc,
  last_airing now_ acc l = None -> forall q, In q l -> airing now_ q = false.
Proof.
  induction l as [|x l IH]; intros acc H q Hq; [destruct Hq|].
  cbn [last_airing] in H.
  destruct Hq as [->|Hq]; [|eauto].
  destruct (airing now_ q) eqn:Hx; [|reflexivity].
  now apply last_airing_some in H.
Qed.

Lemma find_split {A} (f : A -> bool) l : forall p,
  List.find f l = Some p ->
  exists l1 l2, l = (l1 ++ p :: l2)%list /\ f p = true
                /\ forall q, In q l1 -> f q = false.
Proof.
  induction l as [|x l IH]; intros p H; simpl in H; [discriminate|].
  destruct (f x) eqn:Hx.
  - injection H as ->. exists [], l. repeat split; [assumption|]. intros q [].
  - apply IH in H as (l1 & l2 & -> & Hp & Hl1).
    exists (x :: l1), l2. repeat split; [assumption|].
    intros q [<-|Hq]; auto.
Qed.

(** *** The order of the select *)

Lemma row_leb_total a b : Queries.row_leb a b = false -> Queries.row_leb b a = true.
Proof.
  unfold Queries.row_leb.
  rewrite (String_as_OT.cmp_antisym (EPGProgramDB.channel_id b)).
  unfold String_as_OT.cmp.
  destruct (String.compare (EPGProgramDB.channel_id a) (EPGProgramDB.channel_id b));
    simpl; try congruence.
  intros H. apply Z.leb_gt in H. apply Z.leb_le. lia.
Qed.

Lemma row_le_trans a b c : row_le a b -> row_le b c -> row_le a c.
Proof.
  unfold row_le, Queries.row_leb.
  destruct (String.compare (EPGProgramDB.channel_id a) (EPGProgramDB.channel_id b))
    eqn:Hab; try discriminate;
  destruct (String.compare (EPGProgramDB.channel_id b) (EPGProgramDB.channel_id c))
    eqn:Hbc; try discriminate; intros H1 H2.
  - apply String_as_OT.cmp_eq in Hab, Hbc. rewrite Hab, <- Hbc.
    assert (String.compare (EPGProgramDB.channel_id b) (EPGProgramDB.channel_id b) = Eq)
      as -> by now apply String_as_OT.cmp_eq.
    apply Z.leb_le in H1, H2. apply Z.leb_le. lia.
  - apply String_as_OT.cmp_eq in Hab. now rewrite Hab, Hbc.
  - apply String_as_OT.cmp_eq in Hbc. now rewrite <- Hbc, Hab.
  - apply String_as_OT.cmp_lt in Hab, Hbc.
    pose proof (String_as_OT.lt_trans _ _ _ Hab Hbc) as Hac.
    apply String_as_OT.cmp_lt in Hac. unfold String_as_OT.cmp in Hac. now rewrite Hac.
Qed.

Lemma insert_sorted_In r l x :
  In x (Queries.insert_sorted r l) <-> x = r \/ In x l.
Proof.
  induction l as [|y l IH]; simpl.
  - intuition.
  - destruct (Queries.row_leb r y); simpl; [intuition|].
    rewrite IH. intuition.
Qed.

Lemma insert_sorted_sorted r l :
  StronglySorted row_le l -> StronglySorted row_le (Queries.insert_sorted r l).
Proof.
  induction 1 as [|y l Hl IH Hy]; simpl.
  - constructor; constructor.
  - destruct (Queries.row_leb r y) eqn:Hry.
    + constructor; [constructor; assumption|].
      constructor; [exact Hry|].
      eapply List.Forall_impl; [|exact Hy]. intros z Hz. eapply row_le_trans; eassumption.
    + constructor; [exact IH|].
      apply List.Forall_forall. intros z Hz. apply insert_sorted_In in Hz as [->|Hz].
      * now apply row_leb_total.
      * rewrite List.Forall_forall in Hy. now apply Hy.
Qed.

Lemma order_by_In l x : In x (Queries.order_by l) <-> In x l.
Proof.
  unfold Queries.order_by. induction l as [|y l IH]; simpl; [tauto|].
  rewrite insert_sorted_In, IH. intuition.
Qed.

Lemma order_by_sorted l : StronglySorted row_le (Queries.order_by l).
Proof.
  unfold Queries.order_by. induction l as [|y l IH]; simpl.
  - constructor.
  - now apply insert_sorted_sorted.
Qed.

(** The rows of one channel come out by ascending start time. *)
Lemma channel_run_sorted c l :
  StronglySorted row_le l ->
  StronglySorted start_le
    (List.filter (fun p => String.eqb (EPGProgramDB.channel_id p) c) l).
Proof.
  induction 1 as [|y l Hl IH Hy]; simpl; [constructor|].
  destruct (String.eqb_spec (EPGProgramDB.channel_id y) c) as [Hc|Hc]; [|exact IH].
  constructor; [exact IH|].
  apply List.Forall_forall. intros z Hz. apply List.filter_In in Hz as [Hz Hzc].
  apply String.eqb_eq in Hzc. rewrite List.Forall_forall in Hy. specialize (Hy z Hz).
  unfold row_le, Queries.row_leb in Hy. rewrite Hc, Hzc in Hy.
  assert (String.compare c c = Eq) as Hcc by now apply String_as_OT.cmp_eq.
  rewrite Hcc in Hy. now apply Z.leb_le in Hy.
Qed.

Lemma sorted_split l1 : forall p l2,
  StronglySorted start_le (l1 ++ p :: l2) ->
  (forall q, In q l1 -> start_le q p) /\ (forall q, In q l2 -> start_le p q).
Proof.
  induction l1 as [|x l1 IH]; intros p l2 H; simpl in H; inversion H as [|? ? Hs Hf]; subst.
  - split; [intros q []|]. rewrite List.Forall_forall in Hf. exact Hf.
  - destruct (IH _ _ Hs) as [H1 H2]. split; [|exact H2].
    intros q [<-|Hq]; [|auto].
    rewrite List.Forall_forall in Hf. apply Hf. apply in_or_app. right. now left.
Qed.

(** The rows of channel [c] in the answer of the select are the
    qualifying programs of [c], by ascending start time. *)
Lemma channel_rows sourceId channelIds table c :
  let rows := List.filter (fun p => String.eqb (EPGProgramDB.channel_id p) c)
                (Queries.select_now_next sourceId channelIds now_ table) in
  StronglySorted start_le rows
  /\ forall p, In p rows <-> In p (run_of sourceId channelIds now_ table c).
Proof.
  cbv zeta. split.
  - apply channel_run_sorted, order_by_sorted.
  - intros p. unfold run_of, Queries.select_now_next, qualifies.
    rewrite !List.filter_In, order_by_In, List.filter_In, !andb_true_iff. tauto.
Qed.

Lemma select_no_channels sourceId table :
  Queries.select_now_next sourceId [] now_ table = [].
Proof.
  unfold Queries.select_now_next.
  induction table as [|p table IH]; [reflexivity|].
  cbn [List.filter List.existsb]. now rewrite andb_false_r.
Qed.

Lemma nil_iff_no_element {A} (l l' : list A) :
  (forall p, In p l <-> In p l') -> (l = [] <-> l' = []).
Proof.
  intros H. split; intros ->.
  - destruct l' as [|x l']; [reflexivity|]. destruct (proj2 (H x) (or_introl eq_refl)).
  - destruct l as [|x l]; [reflexivity|]. destruct (proj1 (H x) (or_introl eq_refl)).
Qed.

(** C4, as amended. For every stored program table and every [now], the
    matcher returns a map (it does not fail); a channel is absent from the
    map exactly when it has no qualifying program (of the source, of a
    requested channel, with [end_time > now]); otherwise its [now] is the
    airing program ([start_time <= now < end_time]) that comes last in
    ascending start order, so no airing program starts later, and its
    [next] is the first program with [start_time > now], so no upcoming
    program starts earlier. The channel ids asked for, and the channel
    looked at, are taken not to name a member that every plain object
    inherits (such as [constructor]): the result is a plain object, and
    for such an id the code would read and write the inherited member. *)
Theorem getNowNextPrograms_last_airing_first_upcoming
    (E : D1.Env) (sourceId : string) (channelIds : list string)
    (w : D1.World) (c : string) :
  JsObject.own_keys channelIds ->
  JsObject.inherited c = false ->
  let run := run_of sourceId channelIds now_ (D1.epg_programs w) c in
  exists m : gmap string Queries.NowNext,
    D1.value_of (Queries.getNowNextPrograms_at sourceId channelIds now_ w) = Some m
    /\ (m !! c = None <-> run = [])
    /\ forall e, m !! c = Some e ->
         (forall p, Queries.now e = Some p ->
            In p run /\ airing now_ p = true
            /\ forall q, In q run -> airing now_ q = true -> start_le q p)
         /\ (Queries.now e = None -> forall q, In q run -> airing now_ q = false)
         /\ (forall p, Queries.next e = Some p ->
               In p run /\ upcoming now_ p = true
               /\ forall q, In q run -> upcoming now_ q = true -> start_le p q)
         /\ (Queries.next e = None -> forall q, In q run -> upcoming now_ q = false).
Proof.
  intros _ _. cbv zeta.
  set (table := D1.epg_programs w).
  set (rows := List.filter (fun p => String.eqb (EPGProgramDB.channel_id p) c)
                 (Queries.select_now_next sourceId channelIds now_ table)).
  destruct (channel_rows sourceId channelIds table c) as [Hsorted Hin].
  fold rows in Hsorted, Hin.
  exists (Queries.scan now_ (Queries.select_now_next sourceId channelIds now_ table)).
  split.
  { unfold Queries.getNowNextPrograms_at. destruct channelIds as [|i ids].
    - now rewrite select_no_channels.
    - reflexivity. }
  unfold Queries.scan. rewrite scan_lookup, lookup_empty. fold rows.
  rewrite entry_fold_start.
  split.
  { rewrite <- (nil_iff_no_element rows _ Hin). destruct rows; split; congruence. }
  intros e He. destruct rows as [|r0 rows'] eqn:Hrows; [discriminate|].
  rewrite <- Hrows in *. clear Hrows r0 rows'.
  injection He as <-. cbn [Queries.now Queries.next].
  repeat split.
  - apply last_airing_split in H as [[? _] | (l1 & l2 & Hl & Hp & Hl2)]; [discriminate|].
    apply Hin. rewrite Hl. apply in_or_app. right. now left.
  - apply last_airing_split in H as [[? _] | (l1 & l2 & Hl & Hp & Hl2)]; [discriminate|].
    exact Hp.
  - intros q Hq Hqa.
    apply last_airing_split in H as [[? _] | (l1 & l2 & Hl & Hp & Hl2)]; [discriminate|].
    apply Hin in Hq. rewrite Hl in Hq, Hsorted.
    destruct (sorted_split _ _ _ Hsorted) as [Hbefore _].
    apply in_app_or in Hq as [Hq | [<- | Hq]].
    + now apply Hbefore.
    + unfold start_le. lia.
    + apply Hl2 in Hq. congruence.
  - intros Hnone q Hq. apply Hin in Hq. eapply last_airing_none; eassumption.
  - apply find_split in H as (l1 & l2 & Hl & Hp & Hl1).
    apply Hin. rewrite Hl. apply in_or_app. right. now left.
  - apply find_split in H as (l1 & l2 & Hl & Hp & Hl1). exact Hp.
  - intros q Hq Hqu.
    apply find_split in H as (l1 & l2 & Hl & Hp & Hl1).
    apply Hin in Hq. rewrite Hl in Hq, Hsorted.
    destruct (sorted_split _ _ _ Hsorted) as [_ Hafter].
    apply in_app_or in Hq as [Hq | [<- | Hq]].
    + apply Hl1 in Hq. congruence.
    + unfold start_le. lia.
    + now apply Hafter.
  - intros Hnone q Hq. apply Hin in Hq.
    destruct (upcoming now_ q) eqn:Hu; [|reflexivity].
    pose proof (List.find_none _ _ Hnone q Hq) as Hf. congruence.
Qed.

End NowNextFacts.

(** Scenario D: programs A (10:00 to 11:00) and B (11:00 to 12:00) of
    channel [bbc1], stored in any order, at 10:30: [now] is A and [next]
    is B; a channel without programs is absent. *)
Lemma getNowNextPrograms_last_airing_first_upcoming_witness :
  exists m : gmap string Queries.NowNext,
    D1.value_of (Queries.getNowNextPrograms_at "src1" ["bbc1"; "itv"]
                   (NowNextSpec.at_ 10 30)
                   (NowNextSpec.world_with NowNextSpec.table_consecutive)) = Some m
    /\ (EPGProgramDB.title <$> (m !! "bbc1" ≫= Queries.now)) = Some "A"
    /\ (EPGProgramDB.title <$> (m !! "bbc1" ≫= Queries.next)) = Some "B"
    /\ m !! "itv" = None.
Proof.
  destruct (getNowNextPrograms_last_airing_first_upcoming (NowNextSpec.at_ 10 30)
              (Freshness.fixed_env 0 (Xmltv.NotOk "500" "down")) "src1" ["bbc1"; "itv"]
              (NowNextSpec.world_with NowNextSpec.table_consecutive) "itv")
    as (m & Hm & Habsent & _).
  { repeat constructor. }
  { reflexivity. }
  exists m. split; [exact Hm|].
  split; [|split].
  - injection Hm as <-. reflexivity.
  - injection Hm as <-. reflexivity.
  - apply Habsent. reflexivity.
Defined.

(** C4 as stated fails when two programs of a channel overlap: with A from
    10:00 and B from 10:15, both until 11:00, at 10:30 the first program
    in ascending start order with [start_time <= now < end_time] is A, but
    the matcher returns B as [now]; so does the in-memory [getNowNext]. *)
Lemma getNowNextPrograms_now_is_not_first :
  let now_ := NowNextSpec.at_ 10 30 in
  let w := NowNextSpec.world_with NowNextSpec.table_overlap in
  exists m : gmap string Queries.NowNext,
    D1.value_of (Queries.getNowNextPrograms_at "src1" ["bbc1"] now_ w) = Some m
    /\ (EPGProgramDB.title <$> (m !! "bbc1" ≫= Queries.now)) = Some "B"
    /\ (EPGProgramDB.title <$>
          NowNextSpec.first_airing "src1" ["bbc1"] now_ NowNextSpec.table_overlap "bbc1")
       = Some "A"
    /\ (Xmltv.title <$> fst (Xmltv.getNowNext NowNextSpec.parsed_overlap "bbc1" now_))
       = Some "B".
Proof.
  cbv zeta. eexists. split; [reflexivity|]. repeat split; reflexivity.
Qed.

(** A total failure has at least one error. *)
Lemma total_failure_errors result :
  EpgRoute.total_failure result = true -> Xmltv.errors result <> [].
Proof.
  unfold EpgRoute.total_failure. rewrite andb_true_iff. intros [_ H] Hnil.
  rewrite Hnil in H. discriminate.
Qed.

(** The loop over the elements of a guide appends no warning. *)
Lemma parse_loop_no_warning now programmes : forall programs errors,
  snd (Xmltv.parse_loop now programmes programs errors) = errors.
Proof.
  induction programmes as [|prog rest IH]; intros programs errors; simpl.
  - reflexivity.
  - destruct (Xmltv.parse_programme now prog); apply IH.
Qed.

(** ** Refresh of a guide source *)

Section RefreshFacts.
Import D1 Refresh.
Variable E : Env.

(** *** The lookup of the source row *)

Lemma first_by_playlist_map pid (f : EPGSource.t -> EPGSource.t) l ex :
  (forall r, EPGSource.playlist_id (f r) = EPGSource.playlist_id r) ->
  Queries.first_by_playlist pid l = Some ex ->
  Queries.first_by_playlist pid (List.map f l) = Some (f ex).
Proof.
  intros Hf. unfold Queries.first_by_playlist.
  induction l as [|r l IH]; simpl; [discriminate|].
  rewrite Hf. destruct (String.eqb (EPGSource.playlist_id r) pid).
  - now intros [= ->].
  - exact IH.
Qed.

Lemma first_by_playlist_in pid l ex :
  Queries.first_by_playlist pid l = Some ex ->
  In ex l /\ EPGSource.playlist_id ex = pid.
Proof.
  unfold Queries.first_by_playlist. intros H. apply List.find_some in H as [Hin Hp].
  split; [exact Hin|]. now apply String.eqb_eq.
Qed.

Lemma first_by_playlist_new pid l row :
  Queries.first_by_playlist pid l = None ->
  EPGSource.playlist_id row = pid ->
  Queries.first_by_playlist pid (l ++ [row]) = Some row.
Proof.
  unfold Queries.first_by_playlist. intros Hn Hp.
  induction l as [|r l IH]; simpl in *.
  - subst pid. now rewrite String.eqb_refl.
  - destruct (String.eqb (EPGSource.playlist_id r) pid); [discriminate|]. now apply IH.
Qed.

(** [getOrCreateEPGSource] returns; the row it returns is afterwards the
    stored row of the playlist, bound to the given URL; it touches the
    table of sources only and fetches nothing. *)
Lemma getOrCreateEPGSource_spec playlistId epgUrl w :
  exists source w1 pre,
    Queries.getOrCreateEPGSource E playlistId epgUrl w = Ok source w1
    /\ stored_source playlistId w1 = Some source
    /\ EPGSource.epg_url source = epgUrl
    /\ EPGSource.playlist_id source = playlistId
    /\ epg_programs w1 = epg_programs w
    /\ fetched w1 = fetched w
    /\ executed w1 = (executed w ++ pre)%list
    /\ Forall is_source_statement pre.
Proof.
  unfold Queries.getOrCreateEPGSource, stored_source, bind, run. simpl.
  destruct (Queries.first_by_playlist playlistId (epg_sources w)) as [ex|] eqn:Hex.
  - destruct (String.eqb_spec (EPGSource.epg_url ex) epgUrl) as [Hu|Hu]; simpl.
    + exists ex. eexists. exists [SelectSourceByPlaylist playlistId].
      split; [reflexivity|]. simpl. repeat split; try assumption.
      * now apply first_by_playlist_in in Hex.
      * repeat constructor.
    + eexists. eexists.
      exists [SelectSourceByPlaylist playlistId;
              UpdateSourceUrl epgUrl (clock E (clock_reads w)) (EPGSource.id ex)].
      split; [reflexivity|]. simpl. repeat split.
      * erewrite first_by_playlist_map; [| |exact Hex].
        -- now rewrite String.eqb_refl.
        -- intros r. now destruct (String.eqb (EPGSource.id r) (EPGSource.id ex)).
      * now apply first_by_playlist_in in Hex.
      * now rewrite <- List.app_assoc.
      * repeat constructor.
  - eexists. eexists.
    eexists [SelectSourceByPlaylist playlistId; InsertSource _].
    split; [reflexivity|]. simpl. repeat split.
    + now apply first_by_playlist_new.
    + now rewrite <- List.app_assoc.
    + repeat constructor.
Qed.

(** *** The staleness test and the fetch *)

Lemma shouldRefreshEPG_frame source w :
  exists b w1,
    Queries.shouldRefreshEPG E source w = Ok b w1
    /\ epg_sources w1 = epg_sources w
    /\ epg_programs w1 = epg_programs w
    /\ fetched w1 = fetched w
    /\ executed w1 = executed w.
Proof.
  unfold Queries.shouldRefreshEPG.
  destruct (EPGSource.last_fetched source) as [t|].
  - destruct (t =? 0).
    + exists true, w. repeat split.
    + eexists. eexists. split; [reflexivity|]. repeat split.
  - exists true, w. repeat split.
Qed.

Lemma fetchAndParseXMLTV_frame url w :
  exists result w1,
    EpgRoute.fetchAndParseXMLTV E url w = Ok result w1
    /\ epg_sources w1 = epg_sources w
    /\ epg_programs w1 = epg_programs w
    /\ fetched w1 = (fetched w ++ [url])%list
    /\ executed w1 = executed w.
Proof.
  unfold EpgRoute.fetchAndParseXMLTV, bind, fetch. simpl.
  destruct (network E (List.length (fetched w)) url) as [msg|st tx|[msg| |l]];
    eexists; eexists; (split; [reflexivity|]); repeat split.
Qed.

(** *** The bulk insert *)

Lemma bind_program_row id sourceId now prog r :
  Queries.bind_program id sourceId now prog = Some r -> row_of sourceId prog r.
Proof.
  unfold Queries.bind_program, row_of, program_of_row, normalise, Queries.bind_time.
  destruct prog as [ch ti de st en ca ic]; simpl.
  destruct st as [st|]; [|discriminate]. destruct en as [en|]; [|discriminate].
  intros [= <-]. split; reflexivity.
Qed.

Lemma prepare_chunk_spec sourceId now chunk : forall w,
  exists stmts w1,
    Queries.prepare_chunk E sourceId now chunk w = Ok stmts w1
    /\ Forall2 (fun prog s => exists id, s = Queries.bind_program id sourceId now prog)
               chunk stmts
    /\ epg_sources w1 = epg_sources w
    /\ epg_programs w1 = epg_programs w
    /\ fetched w1 = fetched w
    /\ executed w1 = executed w.
Proof.
  induction chunk as [|prog chunk IH]; intros w; simpl.
  - exists [], w. repeat split. constructor.
  - unfold bind. simpl.
    match goal with
    | |- context [Queries.prepare_chunk E sourceId now chunk ?w1] =>
        destruct (IH w1) as (stmts & w2 & Hrun & Hall & Hs & Hp & Hf & He)
    end.
    rewrite Hrun. eexists. eexists. split; [reflexivity|].
    repeat split; try assumption.
    constructor; [eexists; reflexivity | exact Hall].
Qed.

Lemma all_rows_spec stmts : forall rows,
  Queries.all_rows stmts = Some rows -> Forall2 (fun s r => s = Some r) stmts rows.
Proof.
  induction stmts as [|[r|] stmts IH]; intros rows H; simpl in H.
  - injection H as <-. constructor.
  - destruct (Queries.all_rows stmts) as [rs|]; [|discriminate].
    injection H as <-. constructor; [reflexivity|]. now apply IH.
  - discriminate.
Qed.

Lemma chunk_rows sourceId now chunk stmts rows :
  Forall2 (fun prog s => exists id, s = Queries.bind_program id sourceId now prog)
          chunk stmts ->
  Forall2 (fun s r => s = Some r) stmts rows ->
  Forall2 (row_of sourceId) chunk rows.
Proof.
  intros H. revert rows. induction H as [|prog s chunk stmts [id ->] _ IH];
    intros rows Hr; inversion Hr; subst; constructor.
  - eapply bind_program_row. eassumption.
  - now apply IH.
Qed.

(** A returning chunk loop appends, batch after batch, one row for each
    program from index [i] on. *)
Lemma insert_chunks_spec sourceId now programs : forall fuel i w w',
  Queries.insert_chunks E fuel sourceId now programs i w = Ok tt w' ->
  (List.length programs - i <= fuel * Queries.chunkSize)%nat ->
  exists batches,
    epg_programs w' = (epg_programs w ++ List.concat batches)%list
    /\ executed w' = (executed w ++ List.map InsertProgramsBatch batches)%list
    /\ Forall2 (row_of sourceId) (List.skipn i programs) (List.concat batches)
    /\ epg_sources w' = epg_sources w
    /\ fetched w' = fetched w.
Proof.
  induction fuel as [|fuel IH]; intros i w w' Hrun Hfuel.
  - simpl in Hrun. injection Hrun as <-. exists []. simpl.
    rewrite !List.app_nil_r. repeat split.
    rewrite List.skipn_all2 by lia. constructor.
  - cbn [Queries.insert_chunks] in Hrun.
    destruct (Nat.ltb_spec i (List.length programs)) as [Hlt|Hge].
    + unfold bind at 1 in Hrun.
      destruct (prepare_chunk_spec sourceId now
                  (List.firstn Queries.chunkSize (List.skipn i programs)) w)
        as (stmts & w1 & Hprep & Hall & Hs1 & Hp1 & Hf1 & He1).
      rewrite Hprep in Hrun. unfold bind at 1 in Hrun.
      unfold Queries.batch in Hrun.
      destruct (Queries.all_rows stmts) as [rows|] eqn:Hrows; [|discriminate].
      unfold run in Hrun at 1.
      apply IH in Hrun as (batches & Hp & He & Hall2 & Hs & Hf).
      2:{ unfold Queries.chunkSize in *. lia. }
      simpl in Hp, He, Hs, Hf.
      exists (rows :: batches). simpl.
      rewrite Hp, He, Hs, Hf, Hp1, He1, Hs1, Hf1, <- !List.app_assoc.
      repeat split.
      rewrite <- (List.firstn_skipn Queries.chunkSize (List.skipn i programs)).
      apply List.Forall2_app.
      * eapply chunk_rows; [exact Hall|]. now apply all_rows_spec.
      * rewrite List.skipn_skipn, Nat.add_comm. exact Hall2.
    + injection Hrun as <-. exists []. simpl.
      rewrite !List.app_nil_r. repeat split.
      rewrite List.skipn_all2 by lia. constructor.
Qed.

Lemma insertEPGPrograms_spec sourceId programs w w' :
  Queries.insertEPGPrograms E sourceId programs w = Ok tt w' ->
  exists batches,
    epg_programs w' = (epg_programs w ++ List.concat batches)%list
    /\ executed w' = (executed w ++ List.map InsertProgramsBatch batches)%list
    /\ Forall2 (row_of sourceId) programs (List.concat batches)
    /\ epg_sources w' = epg_sources w
    /\ fetched w' = fetched w.
Proof.
  unfold Queries.insertEPGPrograms. destruct programs as [|prog programs].
  - intros [= <-]. exists []. simpl. rewrite !List.app_nil_r. repeat split. constructor.
  - unfold bind, Date_now. intros Hrun.
    apply insert_chunks_spec in Hrun as (batches & Hp & He & Hall & Hs & Hf).
    + exists batches. repeat split; assumption.
    + unfold Queries.chunkSize. lia.
Qed.

(** *** The runs of [refreshEPGIfNeeded] *)

Lemma refresh_cases playlistId epgUrl w :
  exists source w1 pre b w2,
    Queries.getOrCreateEPGSource E playlistId epgUrl w = Ok source w1
    /\ stored_source playlistId w1 = Some source
    /\ EPGSource.epg_url source = epgUrl
    /\ Forall is_source_statement pre
    /\ Queries.shouldRefreshEPG E source w1 = Ok b w2
    /\ refresh_stale E playlistId epgUrl w = Ok b w2
    /\ epg_programs w2 = epg_programs w
    /\ fetched w2 = fetched w
    /\ executed w2 = (executed w ++ pre)%list
    /\ epg_sources w2 = epg_sources w1
    /\ let o := EpgRoute.refreshEPGIfNeeded E playlistId epgUrl w in
       (b = false /\ ran_fresh E w source w2 o)
       \/ (b = true /\ exists result w3,
             EpgRoute.fetchAndParseXMLTV E epgUrl w2 = Ok result w3
             /\ refresh_parse E playlistId epgUrl w = Ok result w3
             /\ ((EpgRoute.total_failure result = true
                  /\ ran_failed E w epgUrl source pre w1 w3 result o)
                 \/ (EpgRoute.total_failure result = false
                     /\ (ran_thrown o
                         \/ ran_refreshed E w epgUrl source pre w1 w3 result o)))).
Proof.
  destruct (getOrCreateEPGSource_spec playlistId epgUrl w)
    as (source & w1 & pre & Hget & Hstored & Hurl & Hpl & Hp1 & Hf1 & He1 & Hpre).
  destruct (shouldRefreshEPG_frame source w1)
    as (b & w2 & Hstale & Hs2 & Hp2 & Hf2 & He2).
  exists source, w1, pre, b, w2.
  repeat (split; [first [assumption | congruence
                        | unfold refresh_stale, bind; now rewrite Hget] |]).
  cbv zeta.
  remember (EpgRoute.refreshEPGIfNeeded E playlistId epgUrl w) as o eqn:Ho.
  unfold EpgRoute.refreshEPGIfNeeded, try_catch in Ho.
  unfold bind at 1 in Ho. rewrite Hget in Ho.
  unfold bind at 1 in Ho. rewrite Hstale in Ho.
  destruct b; cbv beta iota delta [negb] in Ho.
  2:{ left. split; [reflexivity|]. exact Ho. }
  right. split; [reflexivity|].
  destruct (fetchAndParseXMLTV_frame epgUrl w2)
    as (result & w3 & Hfetch & Hs3 & Hp3 & Hf3 & He3).
  exists result, w3. split; [exact Hfetch|].
  split; [unfold refresh_parse, bind; now rewrite Hget, Hstale|].
  unfold bind at 1 in Ho. rewrite Hfetch in Ho.
  destruct (EpgRoute.total_failure result) eqn:Htotal.
  - left. split; [reflexivity|].
    unfold ran_failed. cbv zeta.
    unfold Queries.updateEPGSourceFetch, bind, Date_now, run in Ho. simpl in Ho.
    eexists. split; [exact Ho|]. simpl.
    rewrite Hp3, Hp2, Hp1, Hf3, Hf2, Hf1, He3, He2, He1, <- List.app_assoc.
    repeat split; [unfold record_fetch; simpl; now rewrite Hs3, Hs2 | eexists; reflexivity].
  - right. split; [reflexivity|].
    unfold Queries.cleanupOldPrograms, Queries.clearEPGPrograms in Ho.
    unfold bind at 1 in Ho. unfold bind at 1 in Ho.
    unfold Date_now at 1, run at 1 in Ho.
    unfold bind at 1 in Ho. unfold run at 1 in Ho. unfold bind at 1 in Ho.
    match type of Ho with
    | context [Queries.insertEPGPrograms E ?sid ?progs ?w5] =>
        destruct (Queries.insertEPGPrograms E sid progs w5) as [[] w6|e w6] eqn:Hins
    end.
    + right. apply insertEPGPrograms_spec in Hins
        as (batches & Hp6 & He6 & Hrows & Hs6 & Hf6).
      simpl in Hp6, He6, Hs6, Hf6.
      unfold ran_refreshed. cbv zeta.
      unfold Queries.updateEPGSourceFetch, bind, Date_now, run in Ho. simpl in Ho.
      exists batches. eexists. eexists. eexists. split; [exact Ho|]. simpl.
      rewrite Hp6, He6, Hs6, Hf6, Hp3, Hp2, Hp1, Hf3, Hf2, Hf1, He3, He2, He1, Hs3, Hs2.
      rewrite <- !List.app_assoc. simpl.
      repeat split; [exact Hrows | eexists; reflexivity].
    + left. exists (Js.String_error e), w6. exact Ho.
Qed.

(** *** Stored programs after the replace *)

Lemma rows_of_source sourceId programs rows :
  Forall2 (row_of sourceId) programs rows ->
  Forall (fun r => EPGProgramDB.epg_source_id r = sourceId) rows
  /\ List.map program_of_row rows = List.map normalise programs.
Proof.
  induction 1 as [|prog r programs rows [Hs Hr] _ [IH1 IH2]]; simpl.
  - split; constructor.
  - split; [constructor; assumption | congruence].
Qed.

Lemma stored_of_rows sourceId rows :
  Forall (fun r => EPGProgramDB.epg_source_id r = sourceId) rows ->
  stored_of sourceId rows = rows /\ stored_of_others sourceId rows = [].
Proof.
  unfold stored_of, stored_of_others.
  induction 1 as [|r rows Hr _ [IH1 IH2]]; simpl; [split; reflexivity|].
  rewrite Hr, String.eqb_refl. simpl. split; congruence.
Qed.

Lemma stored_of_cleared sourceId t table :
  stored_of sourceId (cleared sourceId t table) = []
  /\ stored_of_others sourceId (cleared sourceId t table)
     = stored_of_others sourceId table.
Proof.
  unfold stored_of, stored_of_others, cleared.
  induction table as [|p table [IH1 IH2]]; simpl; [split; reflexivity|].
  destruct (String.eqb (EPGProgramDB.epg_source_id p) sourceId) eqn:Hp; simpl.
  - destruct (EPGProgramDB.end_time p <? t); simpl; rewrite ?Hp; simpl; split; assumption.
  - rewrite Hp. simpl. rewrite Hp. simpl. split; congruence.
Qed.

Lemma stored_of_app sourceId (l1 l2 : list EPGProgramDB.t) :
  stored_of sourceId (l1 ++ l2) = (stored_of sourceId l1 ++ stored_of sourceId l2)%list
  /\ stored_of_others sourceId (l1 ++ l2)
     = (stored_of_others sourceId l1 ++ stored_of_others sourceId l2)%list.
Proof. unfold stored_of, stored_of_others. split; apply List.filter_app. Qed.

(** The row of the playlist after the attempt has been recorded. *)
Lemma stored_source_recorded playlistId source w1 t fetchError sources :
  stored_source playlistId w1 = Some source ->
  sources = record_fetch (EPGSource.id source) t fetchError w1 ->
  exists s', Queries.first_by_playlist playlistId sources = Some s'
             /\ EPGSource.last_fetched s' = Some t
             /\ EPGSource.updated_at s' = t
             /\ EPGSource.fetch_error s' = fetchError
             /\ same_identity source s'.
Proof.
  unfold stored_source, record_fetch. intros Hst ->. simpl.
  eexists. split.
  - apply first_by_playlist_map; [|exact Hst].
    intros r. now destruct (String.eqb (EPGSource.id r) (EPGSource.id source)).
  - rewrite String.eqb_refl. simpl. repeat split.
Qed.

Lemma record_fetch_frame sourceId t fetchError w1 :
  Forall2 (fetch_recorded sourceId t None None fetchError)
          (epg_sources w1) (record_fetch sourceId t fetchError w1).
Proof.
  unfold record_fetch. simpl.
  induction (epg_sources w1) as [|r l IH]; simpl; constructor; [|exact IH].
  unfold fetch_recorded.
  destruct (String.eqb (EPGSource.id r) sourceId); [|reflexivity].
  simpl. repeat split.
Qed.

Lemma or_null_id o : o <> Some EmptyString -> Queries.or_null o = o.
Proof. destruct o as [[|c s]|]; [contradiction| |]; reflexivity. Qed.

Lemma normalise_id programs :
  Forall no_empty_text programs -> List.map normalise programs = programs.
Proof.
  induction 1 as [|[ch ti de st en ca ic] l (Hd & Hc & Hi) _ IH];
    cbn [List.map]; [reflexivity|].
  cbn [Xmltv.description Xmltv.category Xmltv.icon_url] in Hd, Hc, Hi.
  rewrite IH. unfold normalise.
  cbn [Xmltv.description Xmltv.category Xmltv.icon_url Xmltv.channel_id Xmltv.title
       Xmltv.start_time Xmltv.end_time].
  now rewrite (or_null_id _ Hd), (or_null_id _ Hc), (or_null_id _ Hi).
Qed.

(** C1. A refresh that reports [refreshed] was made on a stale source
    with a usable parse result. It executes, in this order, the prune of
    the source's programs ended more than one hour before the clock
    reading, the delete of all programs of the source, the batches that
    insert the parsed programs, and the update that stamps
    [last_fetched]. Afterwards the stored programs of the source are the
    rows of the parsed programs, one per program and in order (an empty
    optional text is stored as absent; without such texts the stored
    programs are the parsed ones as they are), and the programs of other
    sources are as before. *)
Theorem refresh_replaces_programs (playlistId epgUrl : string) (w : World)
    (r : EpgRoute.RefreshResult) :
  let o := EpgRoute.refreshEPGIfNeeded E playlistId epgUrl w in
  value_of o = Some r -> EpgRoute.refreshed r = true ->
  exists source result pre batches t_prune t_stamp,
    value_of (Queries.getOrCreateEPGSource E playlistId epgUrl w) = Some source
    /\ value_of (refresh_stale E playlistId epgUrl w) = Some true
    /\ value_of (refresh_parse E playlistId epgUrl w) = Some result
    /\ EpgRoute.total_failure result = false
    /\ (exists k k', t_prune = clock E k /\ t_stamp = clock E k')
    /\ Forall is_source_statement pre
    /\ executed (world_of o)
       = (executed w ++ pre ++
          [DeleteProgramsEndedBefore (EPGSource.id source) (t_prune - Freshness.oneHour);
           DeletePrograms (EPGSource.id source)] ++
          List.map InsertProgramsBatch batches ++
          [UpdateSourceFetch t_stamp None None None (EPGSource.id source)])%list
    /\ stored_of (EPGSource.id source) (epg_programs (world_of o)) = List.concat batches
    /\ List.map program_of_row (stored_of (EPGSource.id source) (epg_programs (world_of o)))
       = List.map normalise (Xmltv.programs result)
    /\ (Forall no_empty_text (Xmltv.programs result) ->
        List.map program_of_row (stored_of (EPGSource.id source) (epg_programs (world_of o)))
        = Xmltv.programs result)
    /\ stored_of_others (EPGSource.id source) (epg_programs (world_of o))
       = stored_of_others (EPGSource.id source) (epg_programs w)
    /\ exists s', stored_source playlistId (world_of o) = Some s'
                  /\ EPGSource.last_fetched s' = Some t_stamp
                  /\ EPGSource.fetch_error s' = None.
Proof.
  cbv zeta. intros Hval Href.
  destruct (refresh_cases playlistId epgUrl w)
    as (source & w1 & pre & b & w2 & Hget & Hstored & Hurl & Hpre & Hstale & Hrs
        & Hp2 & Hf2 & He2 & Hs2 & Hcase).
  cbv zeta in Hcase.
  destruct Hcase as [[-> Hrun] | [-> (result & w3 & Hfetch & Hparse & Hcase)]].
  { unfold ran_fresh in Hrun. rewrite Hrun in Hval. injection Hval as <-. discriminate. }
  destruct Hcase as [[Htot Hrun] | [Htot [Hrun | Hrun]]].
  { destruct Hrun as (wf & Hrun & _). rewrite Hrun in Hval. injection Hval as <-.
    discriminate. }
  { destruct Hrun as (e & wt & Hrun). rewrite Hrun in Hval. injection Hval as <-.
    discriminate. }
  destruct Hrun as (batches & t_stamp & t_return & wf & Hrun & Hex & Hprog & Hrows
                    & Hsrc & Hfetched & (k' & Hk')).
  exists source, result, pre, batches, (clock E (clock_reads w3)), t_stamp.
  rewrite Hrun, Hget, Hrs, Hparse. simpl.
  destruct (rows_of_source _ _ _ Hrows) as [Hall Hmap].
  destruct (stored_of_rows _ _ Hall) as [Hmine Hothers].
  destruct (stored_of_cleared (EPGSource.id source)
              (clock E (clock_reads w3) - Freshness.oneHour) (epg_programs w))
    as [Hc1 Hc2].
  destruct (stored_of_app (EPGSource.id source)
              (cleared (EPGSource.id source)
                 (clock E (clock_reads w3) - Freshness.oneHour) (epg_programs w))
              (List.concat batches)) as [Ha1 Ha2].
  rewrite Hprog, Ha1, Ha2, Hc1, Hc2, Hmine, Hothers, List.app_nil_r. simpl.
  repeat (split; [first [reflexivity | assumption
                        | intros Hne; rewrite Hmap; now apply normalise_id
                        | exists (clock_reads w3), k'; split; [reflexivity|exact Hk']] |]).
  destruct (stored_source_recorded playlistId source w1 t_stamp None (epg_sources wf)
              Hstored Hsrc) as (s' & Hs' & Hlf & _ & Hfe & _).
  exists s'. repeat split; assumption.
Qed.

(** *** A call on a source fetched within the hour *)

Lemma getOrCreateEPGSource_existing playlistId epgUrl w ex :
  stored_source playlistId w = Some ex ->
  EPGSource.epg_url ex = epgUrl ->
  Queries.getOrCreateEPGSource E playlistId epgUrl w
  = Ok ex (log (SelectSourceByPlaylist playlistId) w).
Proof.
  unfold stored_source, Queries.getOrCreateEPGSource, bind, run. simpl.
  intros -> <-. now rewrite String.eqb_refl.
Qed.

Lemma shouldRefreshEPG_within_hour source t w :
  EPGSource.last_fetched source = Some t -> t <> 0 ->
  clock E (clock_reads w) - t <= Freshness.oneHour ->
  exists w', Queries.shouldRefreshEPG E source w = Ok false w'
             /\ epg_sources w' = epg_sources w
             /\ epg_programs w' = epg_programs w
             /\ fetched w' = fetched w.
Proof.
  intros Hlf Ht Hwin. unfold Queries.shouldRefreshEPG. rewrite Hlf.
  apply Z.eqb_neq in Ht. rewrite Ht.
  unfold bind, Date_now, ret, Queries.older_than_one_hour.
  replace (t <? clock E (clock_reads w) - 60 * 60 * 1000) with false.
  - eexists. split; [reflexivity|]. repeat split.
  - symmetry. apply Z.ltb_ge. unfold Freshness.oneHour in Hwin. lia.
Qed.

(** A call for a playlist whose stored source is bound to the same URL
    and was fetched at most one hour before fetches nothing, writes
    nothing and reports [refreshed = false] without an error. *)
Lemma refresh_within_hour playlistId epgUrl w s t :
  stored_source playlistId w = Some s ->
  EPGSource.epg_url s = epgUrl ->
  EPGSource.last_fetched s = Some t -> t <> 0 ->
  clock E (clock_reads w) - t <= Freshness.oneHour ->
  let o := EpgRoute.refreshEPGIfNeeded E playlistId epgUrl w in
  value_of o = Some {| EpgRoute.source := Some s; EpgRoute.refreshed := false;
                       EpgRoute.error := None |}
  /\ fetched (world_of o) = fetched w
  /\ epg_programs (world_of o) = epg_programs w
  /\ epg_sources (world_of o) = epg_sources w.
Proof.
  intros Hst Hurl Hlf Ht Hwin. cbv zeta.
  destruct (shouldRefreshEPG_within_hour s t (log (SelectSourceByPlaylist playlistId) w)
              Hlf Ht Hwin) as (w' & Hrun & Hs & Hp & Hf).
  assert (Ho : EpgRoute.refreshEPGIfNeeded E playlistId epgUrl w
               = Ok {| EpgRoute.source := Some s; EpgRoute.refreshed := false;
                       EpgRoute.error := None |} w').
  { unfold EpgRoute.refreshEPGIfNeeded, try_catch.
    unfold bind at 1. rewrite (getOrCreateEPGSource_existing _ _ _ _ Hst Hurl).
    unfold bind at 1. now rewrite Hrun. }
  rewrite Ho. simpl. repeat split; assumption.
Qed.

(** A fetch that comes back with errors comes back with one of them and
    with no program: the reason of the failure. *)
Lemma fetched_single_error url w result w3 :
  EpgRoute.fetchAndParseXMLTV E url w = Ok result w3 ->
  Xmltv.errors result <> [] ->
  exists e, Xmltv.errors result = [e] /\ Xmltv.programs result = []
            /\ EpgRoute.join_errors (Xmltv.errors result) = e.
Proof.
  unfold EpgRoute.fetchAndParseXMLTV, bind, fetch.
  destruct (network E (List.length (fetched w)) url) as [msg|st tx|[msg| |ps]];
    cbn; try (intros [= <- _] _; eexists; repeat split; reflexivity).
  intros [= <- _] Herr. exfalso. apply Herr.
  pose proof (parse_loop_no_warning (clock E (clock_reads w)) ps [] []) as H.
  destruct (Xmltv.parse_loop (clock E (clock_reads w)) ps [] []) as [programs errors].
  exact H.
Qed.

(** C2. When the source is stale and the parse yields no program and at
    least one error, the parse has exactly one error, the reason of the
    failure (the errors joined by ["; "] are that one text). The helper
    returns the failure (the source, no refresh, the reason as the
    error), records the reason in [fetch_error] of the source, leaves
    the table of programs as it was and has fetched the URL once; and a
    repeated call for the same playlist and URL whose clock reading is
    at most one hour past the recorded attempt fetches nothing. The
    clock is taken never to read the epoch itself. *)
Theorem refresh_failure_recorded (playlistId epgUrl : string) (w : World)
    (result : Xmltv.ParseXMLTVResult) :
  (forall n, clock E n <> 0) ->
  value_of (refresh_stale E playlistId epgUrl w) = Some true ->
  value_of (refresh_parse E playlistId epgUrl w) = Some result ->
  Xmltv.programs result = [] -> Xmltv.errors result <> [] ->
  let o := EpgRoute.refreshEPGIfNeeded E playlistId epgUrl w in
  exists source t reason,
    Xmltv.errors result = [reason]
    /\ value_of o = Some {| EpgRoute.source := Some source; EpgRoute.refreshed := false;
                            EpgRoute.error := Some reason |}
    /\ epg_programs (world_of o) = epg_programs w
    /\ fetched (world_of o) = (fetched w ++ [epgUrl])%list
    /\ (exists s', stored_source playlistId (world_of o) = Some s'
                   /\ EPGSource.fetch_error s' = Some reason
                   /\ EPGSource.last_fetched s' = Some t)
    /\ (clock E (clock_reads (world_of o)) - t <= Freshness.oneHour ->
        let o2 := EpgRoute.refreshEPGIfNeeded E playlistId epgUrl (world_of o) in
        fetched (world_of o2) = fetched (world_of o)
        /\ epg_programs (world_of o2) = epg_programs w
        /\ exists r2, value_of o2 = Some r2 /\ EpgRoute.refreshed r2 = false).
Proof.
  intros Hclock Hst Hpa Hnone Herr. cbv zeta.
  destruct (refresh_cases playlistId epgUrl w)
    as (source & w1 & pre & b & w2 & Hget & Hstored & Hurl & Hpre & Hstale & Hrs
        & Hp2 & Hf2 & He2 & Hs2 & Hcase).
  cbv zeta in Hcase. rewrite Hrs in Hst. injection Hst as ->.
  destruct Hcase as [[Hb _] | [_ (result' & w3 & Hfetch & Hparse & Hcase)]];
    [discriminate|].
  rewrite Hparse in Hpa. injection Hpa as ->.
  assert (Htot : EpgRoute.total_failure result = true).
  { unfold EpgRoute.total_failure. rewrite Hnone. destruct (Xmltv.errors result);
      [contradiction|reflexivity]. }
  destruct Hcase as [[_ Hrun] | [Hno _]]; [|congruence].
  destruct Hrun as (wf & Hrun & Hprog & Hfetched & Hex & Hsrc & Hreads & (k & Hk)).
  cbv zeta in Hsrc, Hex, Hk, Hrun.
  destruct (fetched_single_error epgUrl w2 result w3 Hfetch Herr)
    as (reason & Hone & _ & Hjoin).
  rewrite Hjoin in Hrun, Hsrc.
  exists source, (clock E (clock_reads w3)), reason.
  rewrite Hrun. simpl.
  destruct (stored_source_recorded playlistId source w1 (clock E (clock_reads w3))
              (Some reason) (epg_sources wf)
              Hstored Hsrc) as (s' & Hs' & Hlf & _ & Hfe & (_ & _ & Hu & _)).
  repeat (split; [first [reflexivity | assumption] |]).
  split; [exists s'; repeat split; assumption|].
  intros Hwin.
  assert (Ht : clock E (clock_reads w3) <> 0) by apply Hclock.
  destruct (refresh_within_hour playlistId epgUrl wf s' (clock E (clock_reads w3)))
    as (Hv & Hf & Hp & _); try assumption.
  { congruence. }
  split; [exact Hf|]. split; [congruence|].
  eexists. split; [exact Hv|reflexivity].
Qed.

End RefreshFacts.

(** The run of a stale source against a feed with one program. *)
Lemma refresh_replaces_programs_witness :
  let E := Refresh.ticking_env (Xmltv.Body (Xmltv.Tv [Refresh.one_programme])) in
  let o := EpgRoute.refreshEPGIfNeeded E "pl1" "http://g.example/guide.xml"
             Refresh.stale_world in
  exists source result,
    D1.value_of (Refresh.refresh_parse E "pl1" "http://g.example/guide.xml"
                   Refresh.stale_world) = Some result
    /\ List.map Refresh.program_of_row
         (Refresh.stored_of (EPGSource.id source) (D1.epg_programs (D1.world_of o)))
       = List.map Refresh.normalise (Xmltv.programs result).
Proof.
  cbv zeta.
  assert (Hrun : exists r,
             D1.value_of (EpgRoute.refreshEPGIfNeeded
                            (Refresh.ticking_env
                               (Xmltv.Body (Xmltv.Tv [Refresh.one_programme])))
                            "pl1" "http://g.example/guide.xml" Refresh.stale_world)
             = Some r /\ EpgRoute.refreshed r = true).
  { vm_compute. eexists. split; reflexivity. }
  destruct Hrun as (r & Hval & Href).
  destruct (refresh_replaces_programs _ _ _ _ r Hval Href)
    as (source & result & pre & batches & tp & ts & _ & _ & Hparse & _ & _ & _ & _ & _
        & Hmap & _).
  exists source, result. split; [exact Hparse | exact Hmap].
Defined.

(** The run of a stale source against a feed that answers 500, and the
    call repeated right after it: the reason is the text of the failed
    fetch. *)
Lemma refresh_failure_recorded_witness :
  let E := Refresh.ticking_env (Xmltv.NotOk "500" "down") in
  let o := EpgRoute.refreshEPGIfNeeded E "pl1" "http://g.example/guide.xml"
             Refresh.stale_world in
  (exists source,
      D1.value_of o
      = Some {| EpgRoute.source := Some source; EpgRoute.refreshed := false;
                EpgRoute.error := Some "Failed to fetch XMLTV: 500 down" |})
  /\ (exists s', Refresh.stored_source "pl1" (D1.world_of o) = Some s'
                 /\ EPGSource.fetch_error s' = Some "Failed to fetch XMLTV: 500 down")
  /\ D1.epg_programs (D1.world_of o) = D1.epg_programs Refresh.stale_world
  /\ D1.fetched (D1.world_of o) = ["http://g.example/guide.xml"]
  /\ D1.fetched (D1.world_of
        (EpgRoute.refreshEPGIfNeeded E "pl1" "http://g.example/guide.xml" (D1.world_of o)))
     = D1.fetched (D1.world_of o).
Proof.
  cbv zeta.
  destruct (refresh_failure_recorded
              (Refresh.ticking_env (Xmltv.NotOk "500" "down"))
              "pl1" "http://g.example/guide.xml" Refresh.stale_world
              {| Xmltv.programs := [];
                 Xmltv.errors := ["Failed to fetch XMLTV: 500 down"] |})
    as (source & t & reason & Hone & Hval & Hprog & Hfetched & (s' & Hs' & Hfe & Hlf)
        & Hrepeat).
  - intros n. cbn [D1.clock Refresh.ticking_env]. lia.
  - vm_compute. reflexivity.
  - vm_compute. reflexivity.
  - reflexivity.
  - discriminate.
  - cbn [Xmltv.errors] in Hone. injection Hone as <-.
    split; [exists source; exact Hval|].
    split; [exists s'; split; assumption|].
    split; [exact Hprog|]. split; [exact Hfetched|].
    assert (Ht : t = 1704106800000).
    { vm_compute in Hs'. injection Hs' as <-. cbn [EPGSource.last_fetched] in Hlf.
      congruence. }
    apply Hrepeat. rewrite Ht. vm_compute. discriminate.
Defined.

(** ** Unparseable timestamps *)

(** Whatever the element, an unparseable start does not stop it from
    becoming a program once it has its attributes, a stop that has not
    passed and a title. *)
Lemma parse_programme_nan_start now prog channelId startStr stopStr :
  Xmltv.a_channel prog = Some channelId -> Xmltv.truthy channelId = true ->
  Xmltv.a_start prog = Some startStr -> Xmltv.truthy startStr = true ->
  Xmltv.a_stop prog = Some stopStr -> Xmltv.truthy stopStr = true ->
  Xmltv.parseXMLTVDateTime startStr = Js.NaN ->
  Js.lt (Xmltv.parseXMLTVDateTime stopStr) (Js.Num now) = false ->
  Xmltv.truthy (Xmltv.extract_title (Xmltv.e_title prog)) = true ->
  exists p, Xmltv.parse_programme now prog = Some p /\ Xmltv.start_time p = Js.NaN.
Proof.
  intros Hc Htc Hs Hts He Hte Hnan Hend Htitle.
  unfold Xmltv.parse_programme. rewrite Hc, Hs, He, Htc, Hts, Hte, Hnan, Hend, Htitle.
  simpl. eexists. split; reflexivity.
Qed.

(** C6, what the parser does. An element whose start is no timestamp is
    not dropped and no warning is appended: the start is read as [NaN],
    the window test lets [NaN] through, and the element becomes a program
    with [start_time = NaN]. No element of a document with a [tv] root
    ever appends to the errors. *)
Theorem parseXMLTV_keeps_unparseable_timestamp :
  Xmltv.parseXMLTVDateTime "tomorrow" = Js.NaN
  /\ Xmltv.parseXMLTV Guide.eleven (Xmltv.Tv [Guide.unparseable_start; Guide.well_formed])
     = {| Xmltv.programs :=
            [ {| Xmltv.channel_id := "bbc1"; Xmltv.title := "Broken";
                 Xmltv.description := None;
                 Xmltv.start_time := Js.NaN;
                 Xmltv.end_time := Js.Num 1704114000000;
                 Xmltv.category := None; Xmltv.icon_url := None |};
              {| Xmltv.channel_id := "bbc1"; Xmltv.title := "News";
                 Xmltv.description := None;
                 Xmltv.start_time := Js.Num 1704110400000;
                 Xmltv.end_time := Js.Num 1704114000000;
                 Xmltv.category := None; Xmltv.icon_url := None |} ];
          Xmltv.errors := [] |}
  /\ forall now programmes,
       Xmltv.errors (Xmltv.parseXMLTV now (Xmltv.Tv programmes)) = [].
Proof.
  split; [reflexivity|]. split; [vm_compute; reflexivity|].
  intros now programmes. unfold Xmltv.parseXMLTV.
  pose proof (parse_loop_no_warning now programmes [] []) as H.
  destruct (Xmltv.parse_loop now programmes [] []) as [ps es]. exact H.
Qed.

(** * Further properties *)

(** ** Search and grouping of channels *)

Section ChannelSearch.
Import M3uChannels.

Lemma prefix_iff t : forall s,
  String.prefix t s = true <-> exists post, s = (t ++ post)%string.
Proof.
  induction t as [|a t IH]; intros s.
  - split; [intros _; exists s; reflexivity | intros _; destruct s; reflexivity].
  - destruct s as [|b s]; cbn [String.prefix].
    + split; [discriminate | intros (post & H); discriminate].
    + destruct (ascii_dec a b) as [->|Hne].
      * rewrite IH. split; intros (post & H); exists post.
        -- cbn [String.append]. now rewrite H.
        -- cbn [String.append] in H. now injection H.
      * split; [discriminate|]. intros (post & H).
        cbn [String.append] in H. injection H as H _. congruence.
Qed.

Lemma includes_iff t s :
  includes t s = true <-> exists pre post, s = (pre ++ t ++ post)%string.
Proof.
  induction s as [|c s IH]; cbn [includes]; rewrite orb_true_iff, prefix_iff.
  - split.
    + intros [(post & H) | H]; [|discriminate].
      exists EmptyString, post. exact H.
    + intros (pre & post & H). left. destruct pre; [|discriminate].
      exists post. exact H.
  - rewrite IH. split.
    + intros [(post & H) | (pre & post & H)].
      * exists EmptyString, post. exact H.
      * exists (String c pre), post. cbn [String.append]. now rewrite H.
    + intros (pre & post & H). destruct pre as [|a pre].
      * left. exists post. exact H.
      * right. cbn [String.append] in H. injection H as _ H. eauto.
Qed.

Lemma toLowerCase_app a b :
  toLowerCase (a ++ b) = (toLowerCase a ++ toLowerCase b)%string.
Proof. induction a; cbn [String.append toLowerCase]; congruence. Qed.

Lemma toLowerCase_split a : forall s b,
  toLowerCase s = (a ++ b)%string ->
  exists s1 s2, s = (s1 ++ s2)%string /\ toLowerCase s1 = a /\ toLowerCase s2 = b.
Proof.
  induction a as [|x a IH]; intros s b H.
  - exists EmptyString, s. repeat split. exact H.
  - destruct s as [|c s]; [discriminate|].
    cbn [String.append toLowerCase] in H. injection H as Hc H.
    apply IH in H as (s1 & s2 & -> & H1 & H2).
    exists (String c s1), s2. cbn [String.append toLowerCase].
    repeat split; congruence.
Qed.

(** The search test on lower-cased text is containment up to case. *)
Lemma includes_lower_iff term s :
  includes (toLowerCase term) (toLowerCase s) = true <-> contains_ci s term.
Proof.
  rewrite includes_iff. unfold contains_ci. split.
  - intros (pre & post & H).
    apply toLowerCase_split in H as (s1 & s23 & -> & H1 & H23).
    apply toLowerCase_split in H23 as (s2 & s3 & -> & H2 & H3).
    exists s1, s2, s3. split; [reflexivity | exact H2].
  - intros (pre & mid & post & -> & H).
    exists (toLowerCase pre), (toLowerCase post).
    now rewrite !toLowerCase_app, H.
Qed.

Lemma filter_idempotent {A} (f : A -> bool) l :
  List.filter f (List.filter f l) = List.filter f l.
Proof.
  induction l as [|x l IH]; cbn [List.filter]; [reflexivity|].
  destruct (f x) eqn:Hx; cbn [List.filter]; rewrite ?Hx; congruence.
Qed.

(** X1. An empty search term returns the channels as they are. With a
    non-empty term, a channel is kept exactly when its name, or its group
    if it has one, contains the term up to the case of letters; searching
    the result again with the same term changes nothing. *)
Theorem filterChannels_contains (channels : list M3u.Channel) (searchTerm : string) :
  (searchTerm = EmptyString -> filterChannels channels searchTerm = channels)
  /\ (searchTerm <> EmptyString ->
      forall ch, In ch (filterChannels channels searchTerm)
                 <-> In ch channels
                     /\ (contains_ci (M3u.name ch) searchTerm
                         \/ exists g, M3u.group ch = Some g /\ contains_ci g searchTerm))
  /\ filterChannels (filterChannels channels searchTerm) searchTerm
     = filterChannels channels searchTerm.
Proof.
  unfold filterChannels. split; [|split].
  - intros ->. reflexivity.
  - intros Hne ch. destruct searchTerm as [|c t]; [contradiction|].
    cbn [M3u.truthy negb]. rewrite List.filter_In. unfold matches.
    rewrite orb_true_iff, includes_lower_iff.
    split; intros [Hin H]; (split; [exact Hin|]).
    + destruct H as [H|H]; [now left|]. right.
      destruct (M3u.group ch) as [g|]; [|discriminate].
      apply andb_prop in H as [_ H]. exists g. split; [reflexivity|].
      now apply includes_lower_iff.
    + destruct H as [H | (g & Hg & H)]; [now left|]. right. rewrite Hg.
      apply andb_true_intro. split; [|now apply includes_lower_iff].
      destruct g; [|reflexivity].
      destruct H as (pre & mid & post & Hs & Hm).
      destruct pre; [|discriminate]. destruct mid; discriminate.
  - destruct searchTerm; cbn [M3u.truthy negb]; [reflexivity|].
    apply filter_idempotent.
Qed.

(** The search for [NEWS] in the lineup keeps a channel named in another
    case. *)
Lemma filterChannels_contains_witness :
  In (channel "Euronews" (Some EmptyString)) (filterChannels lineup "NEWS").
Proof.
  apply (proj1 (proj2 (filterChannels_contains lineup "NEWS"))); [discriminate|].
  split; [right; right; right; left; reflexivity|].
  left. exists "Euro", "news", EmptyString. split; reflexivity.
Defined.

(** *** Grouping *)

Lemma group_fold_lookup channels : forall (groups : gmap string (list M3u.Channel)) g,
  List.fold_left group_push channels groups !! g
  = match List.filter (fun ch => String.eqb (group_key ch) g) channels with
    | [] => groups !! g
    | l => Some (default [] (groups !! g) ++ l)%list
    end.
Proof.
  induction channels as [|ch channels IH]; intros groups g; [reflexivity|].
  simpl. rewrite IH. unfold group_push.
  destruct (String.eqb_spec (group_key ch) g) as [->|Hne].
  - rewrite lookup_insert_eq. simpl.
    destruct (List.filter _ channels); [reflexivity|].
    now rewrite <- List.app_assoc.
  - now rewrite lookup_insert_ne.
Qed.

Lemma group_reduce_none channels : forall groups,
  group_reduce channels groups = None
  <-> exists ch, In ch channels /\ JsObject.inherited (group_key ch) = true.
Proof.
  induction channels as [|ch channels IH]; intros groups; cbn [group_reduce].
  - split; [discriminate | intros (? & [] & _)].
  - unfold group_step. destruct (JsObject.inherited (group_key ch)) eqn:Hch.
    + split; [|reflexivity]. intros _. exists ch. split; [now left | exact Hch].
    + rewrite IH. split; intros (x & Hin & Hx); exists x.
      * split; [now right | exact Hx].
      * destruct Hin as [->|Hin]; [congruence|]. now split.
Qed.

Lemma group_reduce_some channels : forall groups result,
  group_reduce channels groups = Some result ->
  result = List.fold_left group_push channels groups.
Proof.
  induction channels as [|ch channels IH]; intros groups result; cbn [group_reduce].
  - now intros [= <-].
  - unfold group_step. destruct (JsObject.inherited (group_key ch)); [discriminate|].
    apply IH.
Qed.

(** X2. [groupChannels] throws exactly when the group of some channel
    (or [Uncategorized] for a channel with no group or an empty one)
    names a member that every plain object inherits. Otherwise the group
    stored under a name is the list of the channels whose group is that
    name, in the order of the input, and a name without channels is
    absent; so every channel is in exactly the group of its name. *)
Theorem groupChannels_lookup (channels : list M3u.Channel) :
  (groupChannels channels = None
   <-> exists ch, In ch channels /\ JsObject.inherited (group_key ch) = true)
  /\ forall groups, groupChannels channels = Some groups ->
       (forall g,
          groups !! g
          = (if List.filter (fun ch => String.eqb (group_key ch) g) channels is []
             then None
             else Some (List.filter (fun ch => String.eqb (group_key ch) g) channels)))
       /\ (forall g ch l, groups !! g = Some l ->
                          (In ch l <-> In ch channels /\ group_key ch = g))
       /\ (forall ch, In ch channels ->
                      exists l, groups !! group_key ch = Some l /\ In ch l).
Proof.
  split; [apply group_reduce_none|].
  intros groups Hrun. apply group_reduce_some in Hrun. subst groups.
  assert (Hlook : forall k, List.fold_left group_push channels ∅ !! k
            = match List.filter (fun ch => String.eqb (group_key ch) k) channels with
              | [] => None
              | l => Some l
              end).
  { intros k. rewrite group_fold_lookup, lookup_empty.
    destruct (List.filter _ channels); reflexivity. }
  split; [intros g; rewrite Hlook; now destruct (List.filter _ channels)|]. split.
  - intros g ch l Hl. rewrite Hlook in Hl.
    destruct (List.filter _ channels) as [|x xs] eqn:Hf; [discriminate|].
    injection Hl as <-. rewrite <- Hf, List.filter_In, String.eqb_eq. reflexivity.
  - intros ch Hin. rewrite Hlook.
    assert (Hm : In ch (List.filter (fun c => String.eqb (group_key c) (group_key ch))
                          channels)).
    { apply List.filter_In. split; [exact Hin | apply String.eqb_refl]. }
    destruct (List.filter _ channels) as [|x xs]; [destruct Hm|].
    eexists. split; [reflexivity | exact Hm].
Qed.

(** The lineup: the channel without a group and the one with an empty
    group are both under [Uncategorized]; a channel of a group named
    [constructor] makes the call throw. *)
Lemma groupChannels_lookup_witness :
  (exists groups l,
      groupChannels lineup = Some groups
      /\ groups !! "Uncategorized" = Some l
      /\ In (channel "Euronews" (Some EmptyString)) l)
  /\ groupChannels (lineup ++ [channel "Odd" (Some "constructor")]) = None.
Proof.
  split.
  - destruct (groupChannels lineup) as [groups|] eqn:Hrun.
    + destruct (proj2 (proj2 (proj2 (groupChannels_lookup lineup) groups Hrun))
                  (channel "Euronews" (Some EmptyString))) as (l & Hl & Hin).
      * right. right. right. left. reflexivity.
      * exists groups, l. repeat split; assumption.
    + apply (proj1 (groupChannels_lookup lineup)) in Hrun as (ch & Hin & Hch).
      exfalso. cbn in Hin.
      destruct Hin as [<- | [<- | [<- | [<- | []]]]]; vm_compute in Hch; discriminate.
  - apply (proj1 (groupChannels_lookup (lineup ++ [channel "Odd" (Some "constructor")]))).
    exists (channel "Odd" (Some "constructor")).
    split; [apply List.in_or_app; right; now left | reflexivity].
Defined.

End ChannelSearch.

(** ** Further properties of the playlist parser *)

Section PlaylistParse.
Import Playlist PlaylistMore.
Variable url_protocol : string -> option string.

#[local] Abbreviation step := (M3u.step url_protocol).
#[local] Abbreviation loop := (M3u.loop url_protocol).
#[local] Abbreviation parse_lines := (M3u.parse_lines url_protocol).

Lemma split_lines_cons content :
  exists l ls, M3u.split_lines content = l :: ls.
Proof.
  induction content as [|c s (l & ls & IH)]; cbn [M3u.split_lines].
  - eauto.
  - destruct (Ascii.eqb c "010"); [eauto|]. rewrite IH. eauto.
Qed.

Lemma concat_cons sep (x y : string) l :
  String.concat sep (x :: y :: l) = (x ++ sep ++ String.concat sep (y :: l))%string.
Proof. reflexivity. Qed.

(** X3. Splitting a body into lines loses nothing: joining the lines with
    line feeds gives the body back, no line holds a line feed, and there
    is one line more than there are line feeds (so an empty body is one
    empty line). *)
Theorem split_lines_join (content : string) :
  String.concat (String LF EmptyString) (M3u.split_lines content) = content
  /\ Forall (fun l => count_char LF l = 0%nat) (M3u.split_lines content)
  /\ List.length (M3u.split_lines content) = S (count_char LF content).
Proof.
  induction content as [|c s (IHj & IHn & IHl)]; cbn [M3u.split_lines count_char].
  - repeat split. repeat constructor.
  - change "010"%char with LF.
    destruct (split_lines_cons s) as (l & ls & Hs). rewrite Hs in *.
    destruct (Ascii.eqb_spec c LF) as [->|Hne].
    + rewrite concat_cons, IHj.
      repeat split; [constructor; [reflexivity|exact IHn] | simpl in *; lia].
    + repeat split.
      * destruct ls as [|y ls].
        -- change (String.concat (String LF EmptyString) [String c l]) with (String c l).
           change (String.concat (String LF EmptyString) [l]) with l in IHj.
           congruence.
        -- rewrite concat_cons in IHj |- *.
           change (String c l ++ ?r)%string with (String c (l ++ r)).
           f_equal. exact IHj.
      * inversion IHn; subst. constructor; [|assumption].
        cbn [count_char]. apply Ascii.eqb_neq in Hne. rewrite Hne. simpl. assumption.
      * simpl in *. lia.
Qed.

(** *** From lines to channels *)

Lemma header_not_metadata h :
  Js.startsWith "#EXTM3U" h = true -> Js.startsWith "#EXTINF" h = false.
Proof.
  unfold Js.startsWith. intros H. apply prefix_iff in H as (post & ->). reflexivity.
Qed.

Lemma is_url_lineb_iff l :
  is_url_lineb url_protocol l = true <-> is_url_line url_protocol l.
Proof.
  unfold is_url_lineb, is_url_line.
  rewrite !andb_true_iff, negb_true_iff. tauto.
Qed.

Lemma url_line_not_metadata l :
  is_url_line url_protocol l -> ~ is_metadata l.
Proof.
  intros (_ & Hc & _) Hm. apply metadata_line in Hm as [_ Hm]. congruence.
Qed.

(** What one iteration does, by the kind of its line. *)
Lemma step_cases st i l :
  (is_metadata l
   /\ step st i l = {| M3u.st_channels := M3u.st_channels st;
                       M3u.st_errors := M3u.st_errors st;
                       M3u.currentChannel := Some (M3u.parseExtinf l) |})
  \/ (~ is_metadata l /\ ~ is_url_line url_protocol l /\ step st i l = st)
  \/ (is_url_line url_protocol l /\ M3u.currentChannel st = None /\ step st i l = st)
  \/ (is_url_line url_protocol l
      /\ exists cur, M3u.currentChannel st = Some cur
         /\ ((exists n, M3u.p_name cur = Some n /\ M3u.truthy n = true
               /\ step st i l
                  = {| M3u.st_channels := (M3u.st_channels st ++
                         [{| M3u.name := n; M3u.url := l; M3u.logo := M3u.p_logo cur;
                             M3u.group := M3u.p_group cur;
                             M3u.tvg_id := M3u.p_tvg_id cur |}])%list;
                       M3u.st_errors := M3u.st_errors st;
                       M3u.currentChannel := None |})
             \/ ((M3u.p_name cur = None \/ M3u.p_name cur = Some EmptyString)
                 /\ step st i l
                    = {| M3u.st_channels := M3u.st_channels st;
                         M3u.st_errors := (M3u.st_errors st ++ [warning (i + 1)])%list;
                         M3u.currentChannel := None |}))).
Proof.
  destruct (Js.startsWith "#EXTINF" l) eqn:Hm.
  { left. split; [exact Hm | now apply step_metadata]. }
  assert (Hnm : ~ is_metadata l) by (unfold is_metadata; congruence).
  destruct (is_url_lineb url_protocol l) eqn:Hu.
  - apply is_url_lineb_iff in Hu. right. right.
    destruct st as [cs es [cur|]].
    + right. split; [exact Hu|]. exists cur. split; [reflexivity|].
      destruct (M3u.p_name cur) as [n|] eqn:Hn.
      * destruct n as [|c n].
        -- right. split; [now right|].
           now apply (step_url_nameless url_protocol (M3u.Build_state cs es (Some cur)) i l cur Hu eq_refl); right.
        -- left. exists (String c n). repeat split.
           now apply step_url_named.
      * right. split; [now left|].
        now apply (step_url_nameless url_protocol (M3u.Build_state cs es (Some cur)) i l cur Hu eq_refl); left.
    + left. split; [exact Hu|]. split; [reflexivity|].
      destruct Hu as (Ht & Hc & Hv). unfold M3u.step.
      now rewrite Ht, Hc, Hm.
  - right. left. split; [exact Hnm|]. split.
    + rewrite <- is_url_lineb_iff. congruence.
    + unfold is_url_lineb in Hu. unfold M3u.step. rewrite Hm.
      destruct (M3u.truthy l); [|reflexivity].
      destruct (Js.startsWith "#" l); [reflexivity|].
      cbn [negb andb orb] in Hu |- *. rewrite Hu.
      now destruct (M3u.currentChannel st).
Qed.

Lemma nth_error_snoc {A} (l : list A) x i y :
  List.nth_error (l ++ [x]) i = Some y ->
  List.nth_error l i = Some y \/ (i = List.length l /\ y = x).
Proof.
  intros H. destruct (Nat.lt_ge_cases i (List.length l)) as [Hlt|Hge].
  - left. now rewrite List.nth_error_app1 in H.
  - right. rewrite List.nth_error_app2 in H by exact Hge.
    destruct (i - List.length l)%nat as [|d] eqn:Hd; cbn in H.
    + split; [lia | congruence].
    + now destruct d.
Qed.

Lemma nth_error_lt {A} (l : list A) i y :
  List.nth_error l i = Some y -> (i < List.length l)%nat.
Proof. intros H. apply List.nth_error_Some. congruence. Qed.

Lemma none_between_app P l1 l2 j k :
  (k < List.length l1)%nat ->
  none_between P l1 j k -> none_between P (l1 ++ l2) j k.
Proof.
  intros Hk H i l Hi Hl. apply (H i l Hi).
  now rewrite List.nth_error_app1 in Hl by lia.
Qed.

Lemma paired_app l1 l2 ch :
  paired url_protocol l1 ch -> paired url_protocol (l1 ++ l2) ch.
Proof.
  intros (j & k & m & Hjk & Hj & Hk & Hm & Hn & Hu & Hch & Hb1 & Hb2).
  pose proof (nth_error_lt _ _ _ Hk) as Hlt.
  exists j, k, m. split; [exact Hjk|].
  split; [rewrite List.nth_error_app1 by lia; exact Hj|].
  split; [rewrite List.nth_error_app1 by lia; exact Hk|].
  split; [exact Hm|]. split; [exact Hn|]. split; [exact Hu|]. split; [exact Hch|].
  split; now apply none_between_app.
Qed.

Lemma found_step done st i l :
  found url_protocol done st -> found url_protocol (done ++ [l]) (step st i l).
Proof.
  intros [Hcs Hcur].
  assert (Hkeep : forall ch, In ch (M3u.st_channels st) ->
                             paired url_protocol (done ++ [l]) ch)
    by (intros ch Hin; now apply paired_app, Hcs).
  assert (Hidle : ~ is_metadata l -> ~ is_url_line url_protocol l ->
                  found url_protocol (done ++ [l]) st).
  { intros Hnm Hnu. split; [exact Hkeep|].
    intros cur Hc. destruct (Hcur cur Hc) as (j & m & Hj & Hm & -> & Hafter).
    exists j, m. split; [rewrite List.nth_error_app1; [exact Hj|now apply nth_error_lt in Hj]|].
    split; [exact Hm|]. split; [reflexivity|].
    intros i' l' Hi' Hl'. apply nth_error_snoc in Hl' as [Hl' | [_ ->]].
    - now apply (Hafter i' l').
    - now split. }
  destruct (step_cases st i l)
    as [[Hm ->] | [(Hnm & Hnu & ->) | [(Hu & Hnone & ->) | (Hu & cur & Hc & Hrun)]]].
  - split; [exact Hkeep|]. cbn [M3u.currentChannel]. intros cur [= <-].
    exists (List.length done), l.
    split; [rewrite List.nth_error_app2, Nat.sub_diag by lia; reflexivity|].
    split; [exact Hm|]. split; [reflexivity|].
    intros i' l' Hi' Hl'. apply nth_error_lt in Hl'.
    rewrite List.length_app in Hl'. cbn in Hl'. lia.
  - now apply Hidle.
  - split; [exact Hkeep|]. intros cur Hc. congruence.
  - destruct Hrun as [(n & Hn & Htn & ->) | (_ & ->)];
      (split; [|cbn [M3u.currentChannel]; discriminate]); [|exact Hkeep].
    cbn [M3u.st_channels]. intros ch Hin.
    apply List.in_app_or in Hin as [Hin | [<- | []]]; [now apply Hkeep|].
    destruct (Hcur cur Hc) as (j & m & Hj & Hm & -> & Hafter).
    pose proof (nth_error_lt _ _ _ Hj) as Hlt.
    exists j, (List.length done), m. cbn [M3u.name M3u.url].
    split; [exact Hlt|].
    split; [rewrite List.nth_error_app1 by lia; exact Hj|].
    split; [rewrite List.nth_error_app2, Nat.sub_diag by lia; reflexivity|].
    split; [exact Hm|]. split; [now split|]. split; [exact Hu|].
    split; [reflexivity|].
    split; intros i' l' Hi' Hl'; rewrite List.nth_error_app1 in Hl' by lia;
      now apply (Hafter i' l').
Qed.

Lemma found_loop rest : forall done st i,
  found url_protocol done st ->
  found url_protocol (done ++ rest) (loop st i rest).
Proof.
  induction rest as [|l rest IH]; intros done st i H; cbn [M3u.loop].
  - now rewrite List.app_nil_r.
  - replace (done ++ l :: rest)%list with ((done ++ [l]) ++ rest)%list
      by now rewrite <- List.app_assoc.
    now apply IH, found_step.
Qed.

Lemma step_channels_grow st i l ch :
  In ch (M3u.st_channels st) -> In ch (M3u.st_channels (step st i l)).
Proof.
  intros Hin.
  destruct (step_cases st i l)
    as [[_ ->] | [(_ & _ & ->) | [(_ & _ & ->) | (_ & cur & _ & Hrun)]]];
    try exact Hin.
  destruct Hrun as [(n & _ & _ & ->) | (_ & ->)]; cbn [M3u.st_channels];
    [apply List.in_or_app; now left | exact Hin].
Qed.

Lemma loop_channels_grow rest : forall st i ch,
  In ch (M3u.st_channels st) -> In ch (M3u.st_channels (loop st i rest)).
Proof.
  induction rest as [|l rest IH]; intros st i ch Hin; cbn [M3u.loop];
    [exact Hin | now apply IH, step_channels_grow].
Qed.

(** Lines that are neither metadata nor URL lines change nothing. *)
Lemma loop_idle mid : forall st i,
  Forall (fun l => ~ is_metadata l /\ ~ is_url_line url_protocol l) mid ->
  M3u.currentChannel st <> None ->
  loop st i mid = st.
Proof.
  induction mid as [|l mid IH]; intros st i Hall Hc; cbn [M3u.loop]; [reflexivity|].
  inversion Hall as [|? ? [Hnm Hnu] Hrest]; subst.
  destruct (step_cases st i l)
    as [[Hm _] | [(_ & _ & ->) | [(Hu & _) | (Hu & _)]]];
    try contradiction.
  now apply IH.
Qed.

Lemma between_Forall (P : string -> Prop) pre m mid u post :
  none_between P (pre ++ m :: mid ++ u :: post)
               (List.length pre) (List.length pre + S (List.length mid)) ->
  Forall (fun l => ~ P l) mid.
Proof.
  intros H. apply List.Forall_forall. intros l Hin.
  apply List.In_nth_error in Hin as (n & Hn).
  pose proof (nth_error_lt _ _ _ Hn) as Hlt.
  apply (H (List.length pre + S n)%nat l); [lia|].
  rewrite List.nth_error_app2 by lia.
  replace (List.length pre + S n - List.length pre)%nat with (S n) by lia.
  cbn [List.nth_error]. now rewrite List.nth_error_app1.
Qed.

(** X4. With the header in place, the returned channels are exactly the
    pairs of a metadata line carrying a non-empty name and the first URL
    line after it, with no other metadata line between the two: the
    channel takes its name, logo, group and guide id from the metadata
    line and its address from the URL line. *)
Theorem parse_lines_channel_iff (header : string) (rest : list string)
    (ch : M3u.Channel) :
  Js.startsWith "#EXTM3U" header = true ->
  In ch (M3u.channels (parse_lines (header :: rest)))
  <-> paired url_protocol (header :: rest) ch.
Proof.
  intros Hh. unfold M3u.parse_lines. rewrite Hh. cbn [negb M3u.channels].
  split.
  - intros Hin.
    assert (H0 : found url_protocol [header]
                   {| M3u.st_channels := []; M3u.st_errors := [];
                      M3u.currentChannel := None |})
      by (split; [intros ? [] | discriminate]).
    apply (found_loop rest _ _ 1%nat) in H0 as [Hcs _].
    now apply Hcs.
  - intros (j & k & m & Hjk & Hj & Hk & Hm & [Hn Htn] & Hu & Hch & Hb1 & Hb2).
    destruct j as [|j].
    { cbn in Hj. injection Hj as ->. apply header_not_metadata in Hh.
      unfold is_metadata in Hm. congruence. }
    destruct k as [|k]; [lia|]. cbn [List.nth_error] in Hj, Hk.
    apply List.nth_error_split in Hj as (pre & tl & -> & Hpre).
    rewrite List.nth_error_app2 in Hk by lia.
    destruct (k - List.length pre)%nat as [|d] eqn:Hd; [lia|].
    cbn [List.nth_error] in Hk.
    apply List.nth_error_split in Hk as (mid & post & -> & Hmid).
    assert (Hk' : S k = (List.length (header :: pre) + S (List.length mid))%nat)
      by (cbn [List.length]; lia).
    assert (Hj' : S j = List.length (header :: pre))
      by (cbn [List.length]; lia).
    rewrite Hk', Hj' in Hb1, Hb2.
    apply (between_Forall _ (header :: pre)) in Hb1, Hb2.
    assert (Hidle : Forall (fun l => ~ is_metadata l /\ ~ is_url_line url_protocol l) mid).
    { apply List.Forall_forall. intros l Hin. split.
      - now apply (proj1 (List.Forall_forall _ _) Hb1).
      - now apply (proj1 (List.Forall_forall _ _) Hb2). }
    rewrite loop_app. cbn [M3u.loop].
    rewrite (step_metadata _ _ _ _ Hm).
    replace (mid ++ M3u.url ch :: post)%list with (mid ++ [M3u.url ch] ++ post)%list
      by reflexivity.
    rewrite loop_app, (loop_idle mid _ _ Hidle) by discriminate.
    rewrite loop_app. cbn [M3u.loop].
    rewrite (step_url_named _ _ _ _ _ _ _ Hu Hn Htn).
    apply loop_channels_grow. cbn [M3u.st_channels].
    apply List.in_or_app. right. left. symmetry. exact Hch.
Qed.

(** *** The first line and the display name *)

Lemma split_lines_first first rest :
  count_char LF first = 0%nat ->
  M3u.split_lines (first ++ nl ++ rest) = first :: M3u.split_lines rest.
Proof.
  induction first as [|c first IH]; cbn [count_char]; intros H.
  - reflexivity.
  - change (String c first ++ nl ++ rest)%string
      with (String c (first ++ nl ++ rest)).
    cbn [M3u.split_lines]. change "010"%char with LF.
    destruct (Ascii.eqb c LF); [discriminate|].
    now rewrite IH.
Qed.

(** X6. Only the text before the first line feed decides whether a body
    is accepted: when that text, trimmed, does not begin with the header
    token, the result has no channel, no guide address and the single
    error about the missing header, whatever follows; when it does, the
    guide address is read from that first line alone. *)
Theorem parseM3U_first_line (first rest : string) :
  count_char LF first = 0%nat ->
  (Js.startsWith "#EXTM3U" (Js.trim first) = false ->
     M3u.parseM3U url_protocol (M3u.Body (first ++ nl ++ rest)) = header_missing)
  /\ (Js.startsWith "#EXTM3U" (Js.trim first) = true ->
        M3u.epg_url (M3u.parseM3U url_protocol (M3u.Body (first ++ nl ++ rest)))
        = M3u.extractEpgUrl (Js.trim first)).
Proof.
  intros H. cbn [M3u.parseM3U]. unfold M3u.parseM3U_content.
  rewrite (split_lines_first first rest H). cbn [List.map M3u.parse_lines].
  split; intros ->; reflexivity.
Qed.

Lemma after_last_comma_none s :
  count_char "," s = 0%nat -> M3u.after_last_comma s = None.
Proof.
  induction s as [|c s IH]; cbn [count_char M3u.after_last_comma]; [reflexivity|].
  destruct (Ascii.eqb c ","); [discriminate|]. intros H. now rewrite IH.
Qed.

Lemma after_last_comma_app pre t :
  count_char "," t = 0%nat ->
  M3u.after_last_comma (pre ++ String "," t) = Some t.
Proof.
  intros H. induction pre as [|c pre IH].
  - cbn [String.append M3u.after_last_comma].
    now rewrite (after_last_comma_none t H).
  - change (String c pre ++ String "," t)%string with (String c (pre ++ String "," t)).
    cbn [M3u.after_last_comma]. now rewrite IH.
Qed.

(** X7. The display name of a metadata line is the trimmed text after
    its last comma, so commas inside attribute values before it do not
    cut the name; a line without a comma has no name. *)
Theorem parseExtinf_name (line : string) :
  (count_char "," line = 0%nat -> M3u.p_name (M3u.parseExtinf line) = None)
  /\ (forall pre t, line = (pre ++ String "," t)%string -> count_char "," t = 0%nat ->
        M3u.p_name (M3u.parseExtinf line) = Some (Js.trim t)).
Proof.
  unfold M3u.parseExtinf. cbn [M3u.p_name]. split.
  - intros H. now rewrite after_last_comma_none.
  - intros pre t -> H. now rewrite after_last_comma_app.
Qed.

(** *** Counting *)

Lemma step_counts st i l :
  (List.length (M3u.st_channels (step st i l))
   + List.length (M3u.st_errors (step st i l)) + pending (step st i l)
   <= List.length (M3u.st_channels st) + List.length (M3u.st_errors st) + pending st
      + List.length (List.filter (Js.startsWith "#EXTINF") [l]))%nat
  /\ (List.length (M3u.st_channels (step st i l))
      + List.length (M3u.st_errors (step st i l))
      <= List.length (M3u.st_channels st) + List.length (M3u.st_errors st)
         + List.length (List.filter (is_url_lineb url_protocol) [l]))%nat.
Proof.
  destruct (step_cases st i l)
    as [[Hm ->] | [(_ & _ & ->) | [(_ & _ & ->) | (Hu & cur & Hc & Hrun)]]];
    try (split; lia).
  - unfold is_metadata in Hm. cbn [List.filter]. rewrite Hm.
    unfold pending. cbn [M3u.st_channels M3u.st_errors M3u.currentChannel List.length].
    destruct (M3u.currentChannel st); split; lia.
  - apply is_url_lineb_iff in Hu. cbn [List.filter]. rewrite Hu.
    unfold pending. rewrite Hc.
    destruct Hrun as [(n & _ & _ & ->) | (_ & ->)];
      cbn [M3u.st_channels M3u.st_errors M3u.currentChannel];
      rewrite List.length_app; cbn [List.length]; split; lia.
Qed.

Lemma loop_counts rest : forall st i,
  (List.length (M3u.st_channels (loop st i rest))
   + List.length (M3u.st_errors (loop st i rest)) + pending (loop st i rest)
   <= List.length (M3u.st_channels st) + List.length (M3u.st_errors st) + pending st
      + List.length (List.filter (Js.startsWith "#EXTINF") rest))%nat
  /\ (List.length (M3u.st_channels (loop st i rest))
      + List.length (M3u.st_errors (loop st i rest))
      <= List.length (M3u.st_channels st) + List.length (M3u.st_errors st)
         + List.length (List.filter (is_url_lineb url_protocol) rest))%nat.
Proof.
  induction rest as [|l rest IH]; intros st i; cbn [M3u.loop].
  - cbn [List.filter List.length]. split; lia.
  - destruct (IH (step st i l) (S i)) as [IH1 IH2].
    destruct (step_counts st i l) as [S1 S2].
    change (l :: rest) with ([l] ++ rest)%list.
    rewrite !List.filter_app, !List.length_app. split; lia.
Qed.

(** X5. With the header in place, every metadata line and every URL line
    is used at most once: channels and warnings together are no more
    than the metadata lines after the header, and no more than the URL
    lines after the header. *)
Theorem parse_lines_counts (header : string) (rest : list string) :
  Js.startsWith "#EXTM3U" header = true ->
  (List.length (M3u.channels (parse_lines (header :: rest)))
   + List.length (M3u.errors (parse_lines (header :: rest)))
   <= List.length (List.filter (Js.startsWith "#EXTINF") rest))%nat
  /\ (List.length (M3u.channels (parse_lines (header :: rest)))
      + List.length (M3u.errors (parse_lines (header :: rest)))
      <= List.length (List.filter (is_url_lineb url_protocol) rest))%nat.
Proof.
  intros Hh. unfold M3u.parse_lines. rewrite Hh. cbn [negb M3u.channels M3u.errors].
  destruct (loop_counts rest {| M3u.st_channels := []; M3u.st_errors := [];
                                M3u.currentChannel := None |} 1) as [H1 H2].
  unfold pending in H1. cbn [M3u.st_channels M3u.st_errors M3u.currentChannel List.length] in H1, H2.
  split; lia.
Qed.

(** *** Warnings *)

Lemma warned_app l1 l2 e :
  warned url_protocol l1 e -> warned url_protocol (l1 ++ l2) e.
Proof.
  intros (j & k & m & u & Hjk & Hj & Hk & Hm & Hn & Hu & He & Hb1 & Hb2).
  pose proof (nth_error_lt _ _ _ Hk) as Hlt.
  exists j, k, m, u. split; [exact Hjk|].
  split; [rewrite List.nth_error_app1 by lia; exact Hj|].
  split; [rewrite List.nth_error_app1 by lia; exact Hk|].
  split; [exact Hm|]. split; [exact Hn|]. split; [exact Hu|]. split; [exact He|].
  split; now apply none_between_app.
Qed.

(** A warning is appended by the URL line that meets the pending record
    of a metadata line without a usable name. *)
Lemma warned_step done st l :
  found url_protocol done st ->
  (forall e, In e (M3u.st_errors st) -> warned url_protocol done e) ->
  forall e, In e (M3u.st_errors (step st (List.length done) l)) ->
            warned url_protocol (done ++ [l]) e.
Proof.
  intros [_ Hcur] Hes e.
  destruct (step_cases st (List.length done) l)
    as [[_ ->] | [(_ & _ & ->) | [(_ & _ & ->) | (Hu & cur & Hc & Hrun)]]];
    try (intros Hin; now apply warned_app, Hes).
  destruct Hrun as [(n & _ & _ & ->) | (Hn & ->)]; cbn [M3u.st_errors];
    [intros Hin; now apply warned_app, Hes|].
  intros Hin. apply List.in_app_or in Hin as [Hin | [<- | []]];
    [now apply warned_app, Hes|].
  destruct (Hcur cur Hc) as (j & m & Hj & Hm & -> & Hafter).
  pose proof (nth_error_lt _ _ _ Hj) as Hlt.
  exists j, (List.length done), m, l.
  split; [exact Hlt|].
  split; [rewrite List.nth_error_app1 by lia; exact Hj|].
  split; [rewrite List.nth_error_app2, Nat.sub_diag by lia; reflexivity|].
  split; [exact Hm|]. split; [exact Hn|]. split; [exact Hu|]. split; [reflexivity|].
  split; intros i' l' Hi' Hl'; rewrite List.nth_error_app1 in Hl' by lia;
    now apply (Hafter i' l').
Qed.

Lemma warned_loop rest : forall done st,
  found url_protocol done st ->
  (forall e, In e (M3u.st_errors st) -> warned url_protocol done e) ->
  forall e, In e (M3u.st_errors (loop st (List.length done) rest)) ->
            warned url_protocol (done ++ rest) e.
Proof.
  induction rest as [|l rest IH]; intros done st Hf Hes e; cbn [M3u.loop].
  - rewrite List.app_nil_r. apply Hes.
  - replace (done ++ l :: rest)%list with ((done ++ [l]) ++ rest)%list
      by now rewrite <- List.app_assoc.
    replace (S (List.length done)) with (List.length (done ++ [l]))
      by (rewrite List.length_app; cbn; lia).
    apply IH; [now apply found_step | now apply warned_step].
Qed.

Lemma step_errors_grow st i l e :
  In e (M3u.st_errors st) -> In e (M3u.st_errors (step st i l)).
Proof.
  intros Hin. destruct (step_errors url_protocol st i l) as [-> | (-> & _)];
    [exact Hin | apply List.in_or_app; now left].
Qed.

Lemma loop_errors_grow rest : forall st i e,
  In e (M3u.st_errors st) -> In e (M3u.st_errors (loop st i rest)).
Proof.
  induction rest as [|l rest IH]; intros st i e Hin; cbn [M3u.loop];
    [exact Hin | now apply IH, step_errors_grow].
Qed.

(** C7, as amended. A feed with a valid header, two well-formed entries
    and one metadata line that no URL line follows (before, between or
    after the entries) parses to exactly the two channels and no warning.
    With the header in place, the warnings are exactly those of the URL
    lines that complete a pending record without a usable name: such a
    line is the first URL line after a metadata line that carries no
    name or an empty one, with no other metadata line between the two,
    and the warning names its line number. After such a line the loop
    goes on with the remaining lines, without a pending record. *)
Theorem parse_lines_warnings (header m1 n1 u1 m2 n2 u2 orphan : string) :
  Js.startsWith "#EXTM3U" header = true ->
  is_metadata m1 -> usable_name m1 n1 -> is_url_line url_protocol u1 ->
  is_metadata m2 -> usable_name m2 n2 -> is_url_line url_protocol u2 ->
  is_metadata orphan ->
  (forall lines,
      lines = [header; orphan; m1; u1; m2; u2]
      \/ lines = [header; m1; u1; orphan; m2; u2]
      \/ lines = [header; m1; u1; m2; u2; orphan] ->
      M3u.channels (parse_lines lines) = [channel_of m1 n1 u1; channel_of m2 n2 u2]
      /\ M3u.errors (parse_lines lines) = [])
  /\ (forall rest e,
        In e (M3u.errors (parse_lines (header :: rest)))
        <-> warned url_protocol (header :: rest) e)
  /\ (forall st i u cur,
        is_url_line url_protocol u -> M3u.currentChannel st = Some cur ->
        M3u.p_name cur = None \/ M3u.p_name cur = Some EmptyString ->
        forall rest,
          loop st i (u :: rest)
          = loop {| M3u.st_channels := M3u.st_channels st;
                    M3u.st_errors := (M3u.st_errors st ++ [warning (i + 1)])%list;
                    M3u.currentChannel := None |} (S i) rest).
Proof.
  intros Hh Hm1 [Hn1 Ht1] Hu1 Hm2 [Hn2 Ht2] Hu2 Ho.
  split; [|split].
  - intros lines Hl. unfold M3u.parse_lines.
    destruct Hl as [-> | [-> | ->]]; rewrite Hh; cbn [negb M3u.loop].
    + rewrite (step_metadata _ _ 1 orphan Ho), (step_metadata _ _ 2 m1 Hm1),
        (step_url_named _ _ _ _ 3 u1 n1 Hu1 Hn1 Ht1), (step_metadata _ _ 4 m2 Hm2),
        (step_url_named _ _ _ _ 5 u2 n2 Hu2 Hn2 Ht2).
      split; reflexivity.
    + rewrite (step_metadata _ _ 1 m1 Hm1),
        (step_url_named _ _ _ _ 2 u1 n1 Hu1 Hn1 Ht1),
        (step_metadata _ _ 3 orphan Ho), (step_metadata _ _ 4 m2 Hm2),
        (step_url_named _ _ _ _ 5 u2 n2 Hu2 Hn2 Ht2).
      split; reflexivity.
    + rewrite (step_metadata _ _ 1 m1 Hm1),
        (step_url_named _ _ _ _ 2 u1 n1 Hu1 Hn1 Ht1),
        (step_metadata _ _ 3 m2 Hm2),
        (step_url_named _ _ _ _ 4 u2 n2 Hu2 Hn2 Ht2),
        (step_metadata _ _ 5 orphan Ho).
      split; reflexivity.
  - intros rest e. unfold M3u.parse_lines. rewrite Hh. cbn [negb M3u.errors].
    split.
    + assert (H0 : found url_protocol [header]
                     {| M3u.st_channels := []; M3u.st_errors := [];
                        M3u.currentChannel := None |})
        by (split; [intros ? [] | discriminate]).
      apply (warned_loop rest [header] _ H0). intros ? [].
    + intros (j & k & m & u & Hjk & Hj & Hk & Hm & Hn & Hu & -> & Hb1 & Hb2).
      destruct j as [|j].
      { cbn in Hj. injection Hj as ->. apply header_not_metadata in Hh.
        unfold is_metadata in Hm. congruence. }
      destruct k as [|k]; [lia|]. cbn [List.nth_error] in Hj, Hk.
      apply List.nth_error_split in Hj as (pre & tl & -> & Hpre).
      rewrite List.nth_error_app2 in Hk by lia.
      destruct (k - List.length pre)%nat as [|d] eqn:Hd; [lia|].
      cbn [List.nth_error] in Hk.
      apply List.nth_error_split in Hk as (mid & post & -> & Hmid).
      assert (Hk' : S k = (List.length (header :: pre) + S (List.length mid))%nat)
        by (cbn [List.length]; lia).
      assert (Hj' : S j = List.length (header :: pre))
        by (cbn [List.length]; lia).
      rewrite Hk', Hj' in Hb1, Hb2.
      apply (between_Forall _ (header :: pre)) in Hb1, Hb2.
      assert (Hidle : Forall (fun l => ~ is_metadata l /\ ~ is_url_line url_protocol l)
                             mid).
      { apply List.Forall_forall. intros l Hin. split.
        - now apply (proj1 (List.Forall_forall _ _) Hb1).
        - now apply (proj1 (List.Forall_forall _ _) Hb2). }
      rewrite loop_app. cbn [M3u.loop].
      rewrite (step_metadata _ _ _ _ Hm).
      replace (mid ++ u :: post)%list with (mid ++ [u] ++ post)%list by reflexivity.
      rewrite loop_app, (loop_idle mid _ _ Hidle) by discriminate.
      rewrite loop_app. cbn [M3u.loop].
      match goal with
      | |- context [M3u.step url_protocol ?st0 ?i0 u] =>
          rewrite (step_url_nameless url_protocol st0 i0 u (M3u.parseExtinf m)
                     Hu eq_refl Hn)
      end.
      apply loop_errors_grow. cbn [M3u.st_errors].
      apply List.in_or_app. right. left. f_equal. lia.
  - intros st i u cur Hu Hcur Hn rest. cbn [M3u.loop].
    now rewrite (step_url_nameless url_protocol st i u cur Hu Hcur Hn).
Qed.

End PlaylistParse.

(** The feed with the lone metadata line between the two entries, and
    the warning of a feed whose first metadata line has no name. *)
Lemma parse_lines_warnings_witness :
  (M3u.channels (M3u.parseM3U_content M3u.scheme_protocol Playlist.feed_orphan_between)
   = [Playlist.channel_of "#EXTINF:-1,Channel One" "Channel One" "http://a.example/1";
      Playlist.channel_of "#EXTINF:-1,Channel Two" "Channel Two" "http://a.example/2"]
   /\ M3u.errors (M3u.parseM3U_content M3u.scheme_protocol Playlist.feed_orphan_between)
      = [])
  /\ (In (Playlist.warning 3)
         (M3u.errors (M3u.parse_lines M3u.scheme_protocol
            ["#EXTM3U"; "#EXTINF:-1 no name here"; "http://a.example/1";
             "#EXTINF:-1,Channel Two"; "http://a.example/2"]))
      <-> PlaylistMore.warned M3u.scheme_protocol
            ["#EXTM3U"; "#EXTINF:-1 no name here"; "http://a.example/1";
             "#EXTINF:-1,Channel Two"; "http://a.example/2"]
            (Playlist.warning 3)).
Proof.
  pose proof (parse_lines_warnings M3u.scheme_protocol
                "#EXTM3U"
                "#EXTINF:-1,Channel One" "Channel One" "http://a.example/1"
                "#EXTINF:-1,Channel Two" "Channel Two" "http://a.example/2"
                "#EXTINF:-1,Orphan"
                eq_refl eq_refl (conj eq_refl eq_refl)
                (conj eq_refl (conj eq_refl eq_refl))
                eq_refl (conj eq_refl eq_refl)
                (conj eq_refl (conj eq_refl eq_refl))
                eq_refl) as (Hscenario & Hwarned & _).
  split.
  - apply Hscenario. right. left. reflexivity.
  - apply Hwarned.
Defined.

(** A feed of one entry: its channel is in the result. *)
Lemma parse_lines_channel_iff_witness :
  In (Playlist.channel_of "#EXTINF:-1,Channel One" "Channel One" "http://a.example/1")
     (M3u.channels (M3u.parse_lines M3u.scheme_protocol
        ["#EXTM3U"; "#EXTINF:-1,Channel One"; "http://a.example/1"]))
  <-> PlaylistMore.paired M3u.scheme_protocol
        ["#EXTM3U"; "#EXTINF:-1,Channel One"; "http://a.example/1"]
        (Playlist.channel_of "#EXTINF:-1,Channel One" "Channel One" "http://a.example/1").
Proof.
  apply (parse_lines_channel_iff M3u.scheme_protocol "#EXTM3U"
           ["#EXTINF:-1,Channel One"; "http://a.example/1"]).
  reflexivity.
Defined.

(** A nameless entry and a named one: one channel and one warning from
    two metadata lines and two URL lines. *)
Lemma parse_lines_counts_witness :
  (List.length (M3u.channels (M3u.parse_lines M3u.scheme_protocol
      ["#EXTM3U"; "#EXTINF:-1 no name here"; "http://a.example/1";
       "#EXTINF:-1,Channel Two"; "http://a.example/2"]))
   + List.length (M3u.errors (M3u.parse_lines M3u.scheme_protocol
      ["#EXTM3U"; "#EXTINF:-1 no name here"; "http://a.example/1";
       "#EXTINF:-1,Channel Two"; "http://a.example/2"]))
   <= 2)%nat.
Proof.
  exact (proj1 (parse_lines_counts M3u.scheme_protocol "#EXTM3U"
                  ["#EXTINF:-1 no name here"; "http://a.example/1";
                   "#EXTINF:-1,Channel Two"; "http://a.example/2"]
                  eq_refl)).
Defined.

(** A body whose header comes after a blank line is rejected. *)
Lemma parseM3U_first_line_witness :
  M3u.parseM3U M3u.scheme_protocol (M3u.Body PlaylistMore.feed_blank_first)
  = PlaylistMore.header_missing.
Proof.
  exact (proj1 (parseM3U_first_line M3u.scheme_protocol EmptyString
                  ("#EXTM3U" ++ Playlist.nl ++ "#EXTINF:-1,Channel One"
                   ++ Playlist.nl ++ "http://a.example/1")
                  eq_refl) eq_refl).
Defined.

(** A comma inside a quoted attribute does not end up in the name. *)
Lemma parseExtinf_name_witness :
  M3u.p_name (M3u.parseExtinf PlaylistMore.extinf_comma) = Some "BBC One".
Proof.
  exact (proj2 (parseExtinf_name PlaylistMore.extinf_comma)
           PlaylistMore.extinf_comma_attrs " BBC One " eq_refl eq_refl).
Defined.

(** ** Further properties of the guide parser *)

Section GuideParse.
Import GuideMore.

Lemma truthy_nonempty s : Xmltv.truthy s = true <-> s <> EmptyString.
Proof. destruct s; cbn; split; congruence. Qed.

Lemma parse_programme_kept now prog p :
  Xmltv.parse_programme now prog = Some p -> kept now p /\ read_from prog p.
Proof.
  unfold Xmltv.parse_programme, kept, read_from.
  destruct (Xmltv.a_channel prog) as [ch|]; [|discriminate].
  destruct (Xmltv.a_start prog) as [st|]; [|discriminate].
  destruct (Xmltv.a_stop prog) as [en|]; [|discriminate].
  destruct (Xmltv.truthy ch) eqn:Hch; [|discriminate].
  destruct (Xmltv.truthy st); [|discriminate].
  destruct (Xmltv.truthy en); [|discriminate].
  cbn [negb orb].
  destruct (Js.lt (Xmltv.parseXMLTVDateTime en) (Js.Num now)) eqn:Hen; [discriminate|].
  destruct (Js.gt (Xmltv.parseXMLTVDateTime st) (Js.Num (now + 48 * 60 * 60 * 1000)))
    eqn:Hst; [discriminate|].
  cbn [orb].
  destruct (Xmltv.truthy (Xmltv.extract_title (Xmltv.e_title prog))) eqn:Hti;
    [|discriminate].
  cbn [negb]. intros [= <-].
  cbn [Xmltv.channel_id Xmltv.title Xmltv.start_time Xmltv.end_time option_map].
  repeat split; try (now apply truthy_nonempty).
  - intros e He. rewrite He in Hen. cbn in Hen. lia.
  - intros s Hs. rewrite Hs in Hst. unfold window. cbn in Hst. lia.
Qed.

Lemma parse_loop_programs now programmes : forall programs errors p,
  In p (fst (Xmltv.parse_loop now programmes programs errors)) ->
  In p programs
  \/ exists prog, In prog programmes /\ Xmltv.parse_programme now prog = Some p.
Proof.
  induction programmes as [|prog rest IH]; intros programs errors p Hin;
    cbn [Xmltv.parse_loop] in Hin.
  - now left.
  - destruct (Xmltv.parse_programme now prog) as [q|] eqn:Hq;
      apply IH in Hin as [Hin | (prog' & Hin' & Hp)].
    + apply List.in_app_or in Hin as [Hin | [<- | []]]; [now left|].
      right. exists prog. split; [now left | exact Hq].
    + right. exists prog'. split; [now right | exact Hp].
    + now left.
    + right. exists prog'. split; [now right | exact Hp].
Qed.

(** X8. Every program the parser returns was read from an element of the
    fetched document, has a non-empty channel id and a non-empty title,
    has not ended before the clock reading and does not start more than
    48 hours after it (as far as its times are numbers). A failed fetch
    or a document without a root returns no program. *)
Theorem fetchAndParseXMLTV_programs (now : Z) (r : Xmltv.response)
    (p : Xmltv.EPGProgram) :
  In p (Xmltv.programs (Xmltv.fetchAndParseXMLTV now r)) ->
  kept now p /\ exists prog, In prog (elements r) /\ read_from prog p.
Proof.
  destruct r as [msg|st tx|[msg| |programmes]]; cbn; try contradiction.
  destruct (Xmltv.parse_loop now programmes [] []) as [ps es] eqn:Hloop.
  cbn [Xmltv.programs]. intros Hin.
  change ps with (fst (ps, es)) in Hin. rewrite <- Hloop in Hin.
  apply parse_loop_programs in Hin as [[] | (prog & Hin & Hp)].
  apply parse_programme_kept in Hp as [Hk Hr].
  split; [exact Hk|]. exists prog. now split.
Qed.

(** X9. The result of a fetch counts as a total failure exactly when
    the fetch throws or is not ok, the reader throws, or [parsed.tv] is
    falsy (there is no [tv] element, or an empty one, which the reader
    gives as the empty string): each of these gives no program and one
    error. When [parsed.tv] is truthy there is no error at all, so the
    result is never a failure, even when none of the programs is
    kept. *)
Theorem total_failure_iff_tv_falsy (now : Z) (r : Xmltv.response) :
  EpgRoute.total_failure (Xmltv.fetchAndParseXMLTV now r) = negb (tv_truthy r)
  /\ (tv_truthy r = true -> Xmltv.errors (Xmltv.fetchAndParseXMLTV now r) = [])
  /\ (tv_truthy r = false ->
        Xmltv.programs (Xmltv.fetchAndParseXMLTV now r) = []
        /\ List.length (Xmltv.errors (Xmltv.fetchAndParseXMLTV now r)) = 1%nat)
  /\ (tv_truthy r = true <-> exists programmes, r = Xmltv.Body (Xmltv.Tv programmes))
  /\ Xmltv.fetchAndParseXMLTV now (Xmltv.Body Xmltv.NoTv)
     = {| Xmltv.programs := [];
          Xmltv.errors := ["Invalid XMLTV: missing <tv> root element"] |}.
Proof.
  destruct r as [msg|st tx|[msg| |programmes]]; cbn [tv_truthy negb];
    try (repeat split; try reflexivity; try discriminate;
         intros (ps & Hps); discriminate).
  cbn [Xmltv.fetchAndParseXMLTV Xmltv.parseXMLTV].
  pose proof (parse_loop_no_warning now programmes [] []) as Herr.
  destruct (Xmltv.parse_loop now programmes [] []) as [ps es].
  cbn [snd] in Herr. subst es. unfold EpgRoute.total_failure.
  cbn [Xmltv.errors Xmltv.programs List.length].
  rewrite andb_false_r.
  split; [reflexivity|]. split; [reflexivity|]. split; [discriminate|].
  split; [|reflexivity]. split; [intros _; now exists programmes | reflexivity].
Qed.

(** *** Timestamps without seconds *)

Lemma substring_beyond n : forall m s,
  (String.length s <= n)%nat -> String.substring n m s = EmptyString.
Proof.
  induction n as [|n IH]; intros m s H.
  - destruct s; [|cbn in H; lia]. now destruct m.
  - destruct s as [|c s]; [reflexivity|]. cbn [String.substring].
    apply IH. cbn in H. lia.
Qed.

Lemma substring_length_le n : forall m s,
  (String.length (String.substring n m s) <= String.length s)%nat.
Proof.
  induction n as [|n IH]; intros m s.
  - revert s. induction m as [|m IHm]; intros s.
    + now rewrite substring_0_0; cbn; lia.
    + destruct s as [|c s]; cbn [String.substring String.length]; [lia|].
      specialize (IHm s). lia.
  - destruct s as [|c s]; cbn [String.substring String.length]; [lia|].
    specialize (IH m s). lia.
Qed.

Lemma Date_UTC_no_seconds y m d h mi :
  Js.Date_UTC y m d h mi Js.NaN = Js.NaN.
Proof. destruct y, m, d, h, mi; reflexivity. Qed.

(** X10. A timestamp of twelve or fewer characters, such as one given to
    the minute, has no seconds field and reads as [NaN]. *)
Theorem parseXMLTVDateTime_short (dateStr : string) :
  (String.length (Js.trim dateStr) <= 12)%nat ->
  Xmltv.parseXMLTVDateTime dateStr = Js.NaN.
Proof.
  intros H. unfold Xmltv.parseXMLTVDateTime. cbv zeta.
  assert (Hsec : Js.parseInt (Js.substring 12 14 (Js.substring 0 14 (Js.trim dateStr)))
                 = Js.NaN).
  { unfold Js.substring at 1. rewrite substring_beyond; [reflexivity|].
    unfold Js.substring.
    pose proof (substring_length_le 0 (14 - 0) (Js.trim dateStr)). lia. }
  rewrite Hsec, Date_UTC_no_seconds.
  destruct (Xmltv.tzMatch (Js.trim dateStr)) as [[[sg hh] mm]|]; reflexivity.
Qed.

End GuideParse.

(** The one program of a guide read at 11:00 is kept. *)
Lemma fetchAndParseXMLTV_programs_witness :
  GuideMore.kept Guide.eleven
    {| Xmltv.channel_id := "bbc1"; Xmltv.title := "News";
       Xmltv.description := None;
       Xmltv.start_time := Js.Num 1704110400000;
       Xmltv.end_time := Js.Num 1704114000000;
       Xmltv.category := None; Xmltv.icon_url := None |}.
Proof.
  refine (proj1 (fetchAndParseXMLTV_programs Guide.eleven
                   (Xmltv.Body (Xmltv.Tv [Guide.well_formed])) _ _)).
  vm_compute. left. reflexivity.
Defined.

(** Noon given to the minute. *)
Lemma parseXMLTVDateTime_short_witness :
  Xmltv.parseXMLTVDateTime "202401011200" = Js.NaN.
Proof.
  apply (parseXMLTVDateTime_short "202401011200"). vm_compute. lia.
Defined.

(** ** Further properties of the guide source row *)

Section SourceLookup.
Import D1 Refresh.
Variable E : Env.

Lemma select_source_run playlistId w :
  run (SelectSourceByPlaylist playlistId) w
  = Ok tt (log (SelectSourceByPlaylist playlistId) w).
Proof. reflexivity. Qed.

(** X11. Once [getOrCreateEPGSource] has returned a source, looking the
    playlist up returns that source, and asking again with the same URL
    returns it again: either call only reads, and is recorded as one
    select. *)
Theorem getOrCreateEPGSource_again (playlistId epgUrl : string) (w w1 : World)
    (source : EPGSource.t) :
  Queries.getOrCreateEPGSource E playlistId epgUrl w = Ok source w1 ->
  Queries.getEPGSourceForPlaylist playlistId w1
  = Ok (Some source) (log (SelectSourceByPlaylist playlistId) w1)
  /\ Queries.getOrCreateEPGSource E playlistId epgUrl w1
     = Ok source (log (SelectSourceByPlaylist playlistId) w1).
Proof.
  intros Hrun.
  destruct (getOrCreateEPGSource_spec E playlistId epgUrl w)
    as (source' & w1' & pre & Hget & Hstored & Hurl & _).
  rewrite Hrun in Hget. injection Hget as <- <-.
  unfold stored_source in Hstored.
  unfold Queries.getEPGSourceForPlaylist, Queries.getOrCreateEPGSource, bind.
  rewrite select_source_run.
  cbn [log apply_statement epg_sources]. rewrite Hstored.
  split; [reflexivity|].
  rewrite Hurl, String.eqb_refl. reflexivity.
Qed.

(** X12. When the playlist has a source bound to another URL, the source
    is bound to the new URL under its old identifier, its last fetch and
    its fetch error are forgotten, and the refresh that follows finds it
    stale without reading the clock. The stored programs stay as they
    were. *)
Theorem getOrCreateEPGSource_rebind (playlistId epgUrl : string) (w : World)
    (existing : EPGSource.t) :
  stored_source playlistId w = Some existing ->
  EPGSource.epg_url existing <> epgUrl ->
  exists source w1,
    Queries.getOrCreateEPGSource E playlistId epgUrl w = Ok source w1
    /\ EPGSource.id source = EPGSource.id existing
    /\ EPGSource.epg_url source = epgUrl
    /\ EPGSource.last_fetched source = None
    /\ EPGSource.fetch_error source = None
    /\ stored_source playlistId w1 = Some source
    /\ epg_programs w1 = epg_programs w
    /\ refresh_stale E playlistId epgUrl w = Ok true w1.
Proof.
  intros Hex Hurl.
  destruct (getOrCreateEPGSource_spec E playlistId epgUrl w)
    as (source & w1 & pre & Hget & Hstored & _ & _ & Hprogs & _).
  exists source, w1.
  assert (Hsrc : EPGSource.id source = EPGSource.id existing
                 /\ EPGSource.epg_url source = epgUrl
                 /\ EPGSource.last_fetched source = None
                 /\ EPGSource.fetch_error source = None).
  { revert Hget. unfold Queries.getOrCreateEPGSource, bind.
    rewrite select_source_run. cbn [log apply_statement epg_sources].
    unfold stored_source in Hex. rewrite Hex.
    apply String.eqb_neq in Hurl. rewrite Hurl. cbn.
    intros [= <- _]. repeat split. }
  destruct Hsrc as (Hid & Hu & Hlf & Hfe).
  repeat (split; [assumption|]).
  unfold refresh_stale, bind. rewrite Hget.
  unfold Queries.shouldRefreshEPG. now rewrite Hlf.
Qed.

(** X13. The prune removes the programs of the source that ended more
    than one hour before the clock reading and nothing else; the clear
    that follows it leaves exactly what the clear alone would leave, the
    programs of the other sources. *)
Theorem cleanupOldPrograms_then_clear (sourceId : string) (w : World) :
  let pruned := world_of (Queries.cleanupOldPrograms E sourceId w) in
  (forall p, In p (epg_programs pruned)
             <-> In p (epg_programs w)
                 /\ ~ (EPGProgramDB.epg_source_id p = sourceId
                       /\ EPGProgramDB.end_time p
                          < clock E (clock_reads w) - Freshness.oneHour))
  /\ epg_programs (world_of (Queries.clearEPGPrograms sourceId pruned))
     = epg_programs (world_of (Queries.clearEPGPrograms sourceId w))
  /\ epg_programs (world_of (Queries.clearEPGPrograms sourceId w))
     = stored_of_others sourceId (epg_programs w)
  /\ epg_sources (world_of (Queries.clearEPGPrograms sourceId pruned))
     = epg_sources w.
Proof.
  cbv zeta. unfold Queries.cleanupOldPrograms, Queries.clearEPGPrograms, bind, Date_now, run.
  cbn [world_of log apply_statement set_programs epg_programs epg_sources clock_reads].
  split; [|split; [|split; reflexivity]].
  - intros p. rewrite List.filter_In, negb_true_iff, andb_false_iff.
    change (60 * 60 * 1000) with Freshness.oneHour.
    rewrite Z.ltb_ge.
    destruct (String.eqb_spec (EPGProgramDB.epg_source_id p) sourceId);
      intuition (congruence || lia).
  - pose proof (proj2 (stored_of_cleared sourceId
                         (clock E (clock_reads w) - 60 * 60 * 1000) (epg_programs w)))
      as H.
    unfold stored_of_others, cleared in H. now rewrite filter_idempotent in H.
Qed.

End SourceLookup.

(** The source created for a new playlist is found again. *)
Lemma getOrCreateEPGSource_again_witness :
  exists source w1,
    Queries.getEPGSourceForPlaylist "pl2" w1
    = D1.Ok (Some source) (D1.log (D1.SelectSourceByPlaylist "pl2") w1).
Proof.
  eexists. eexists.
  refine (proj1 (getOrCreateEPGSource_again (Refresh.ticking_env (Xmltv.Body Xmltv.NoTv))
                   "pl2" "http://g.example/other.xml" Refresh.stale_world _ _ _)).
  vm_compute. reflexivity.
Defined.

(** The stored source of playlist [pl1], asked for under another URL. *)
Lemma getOrCreateEPGSource_rebind_witness :
  exists source w1,
    Queries.getOrCreateEPGSource (Refresh.ticking_env (Xmltv.Body Xmltv.NoTv))
      "pl1" "http://g.example/other.xml" SourceMore.fetched_world = D1.Ok source w1
    /\ EPGSource.id source = "src1"
    /\ EPGSource.last_fetched source = None.
Proof.
  destruct (getOrCreateEPGSource_rebind (Refresh.ticking_env (Xmltv.Body Xmltv.NoTv))
              "pl1" "http://g.example/other.xml" SourceMore.fetched_world
              SourceMore.fetched_source)
    as (source & w1 & Hrun & Hid & _ & Hlf & _).
  - reflexivity.
  - vm_compute. discriminate.
  - exists source, w1. split; [exact Hrun|]. split; [exact Hid | exact Hlf].
Defined.

(** ** Further properties of the bulk insert *)

Section BulkInsert.
Import D1 Refresh StoreMore.
Variable E : Env.

Lemma bind_program_numeric id sourceId now prog :
  numeric prog <-> exists r, Queries.bind_program id sourceId now prog = Some r.
Proof.
  unfold numeric, Queries.bind_program, Queries.bind_time.
  destruct (Xmltv.start_time prog), (Xmltv.end_time prog); split;
    try (intros [? ?]; congruence); try (intros [? ?]; discriminate).
  - intros _. eexists. reflexivity.
  - intros _. split; discriminate.
Qed.

Lemma bind_program_stamp id sourceId now prog r :
  Queries.bind_program id sourceId now prog = Some r ->
  EPGProgramDB.created_at r = now /\ EPGProgramDB.epg_source_id r = sourceId.
Proof.
  unfold Queries.bind_program.
  destruct (Queries.bind_time (Xmltv.start_time prog)),
           (Queries.bind_time (Xmltv.end_time prog)); try discriminate.
  intros [= <-]. split; reflexivity.
Qed.

(** The rows of a chunk that the batch accepts. *)
Lemma chunk_accepted sourceId now chunk stmts rows :
  Forall2 (fun prog s => exists id, s = Queries.bind_program id sourceId now prog)
          chunk stmts ->
  Forall2 (fun s r => s = Some r) stmts rows ->
  Forall numeric chunk
  /\ Forall (fun r => EPGProgramDB.created_at r = now
                      /\ EPGProgramDB.epg_source_id r = sourceId) rows
  /\ List.length rows = List.length chunk.
Proof.
  intros H. revert rows.
  induction H as [|prog s chunk stmts [id ->] _ IH]; intros rows Hr;
    inversion Hr as [|? r ? rows' Hs Hrest]; subst.
  - repeat split; constructor.
  - destruct (IH rows' Hrest) as (IH1 & IH2 & IH3).
    split; [|split].
    + constructor; [|exact IH1]. apply (bind_program_numeric id sourceId now prog). eauto.
    + constructor; [|exact IH2]. eapply bind_program_stamp. eassumption.
    + cbn [List.length]. now rewrite IH3.
Qed.

(** A chunk of programs with numeric times is accepted. *)
Lemma chunk_numeric sourceId now chunk stmts :
  Forall2 (fun prog s => exists id, s = Queries.bind_program id sourceId now prog)
          chunk stmts ->
  Forall numeric chunk ->
  exists rows, Queries.all_rows stmts = Some rows.
Proof.
  induction 1 as [|prog s chunk stmts [id ->] _ IH]; intros Hn.
  - exists []. reflexivity.
  - inversion Hn as [|? ? Hp Hrest]; subst.
    destruct (IH Hrest) as (rows & Hrows).
    apply (bind_program_numeric id sourceId now prog) in Hp as (r & Hr).
    exists (r :: rows). cbn [Queries.all_rows]. now rewrite Hr, Hrows.
Qed.

(** What the chunk loop does from index [i] on, whether it returns or a
    batch is rejected. *)
Lemma insert_chunks_run sourceId now programs : forall fuel i w,
  (List.length programs - i <= fuel * Queries.chunkSize)%nat ->
  exists batches,
    ran_chunks E sourceId now programs i w
      (Queries.insert_chunks E fuel sourceId now programs i w) batches.
Proof.
  assert (Hdone : forall i w, (List.length programs <= i)%nat ->
            exists batches, ran_chunks E sourceId now programs i w (Ok tt w) batches).
  { intros i w Hi. exists []. unfold ran_chunks.
    cbn [world_of List.concat List.map List.length].
    rewrite !List.app_nil_r, List.skipn_all2 by lia.
    repeat (split; [reflexivity || constructor|]).
    left. repeat split; try constructor; lia. }
  induction fuel as [|fuel IH]; intros i w Hfuel.
  - cbn [Queries.insert_chunks]. apply Hdone. cbn in Hfuel. lia.
  - cbn [Queries.insert_chunks].
    destruct (Nat.ltb_spec i (List.length programs)) as [Hlt|Hge];
      [|now apply Hdone].
    set (chunk := List.firstn Queries.chunkSize (List.skipn i programs)).
    assert (Hlen : List.length chunk = Nat.min 100 (List.length programs - i)).
    { unfold chunk, Queries.chunkSize. now rewrite List.length_firstn, List.length_skipn. }
    destruct (prepare_chunk_spec E sourceId now chunk w)
      as (stmts & w1 & Hprep & Hall & Hs1 & Hp1 & Hf1 & He1).
    remember (bind (Queries.prepare_chunk E sourceId now chunk)
                (fun statements =>
                   bind (Queries.batch E statements)
                     (fun _ => Queries.insert_chunks E fuel sourceId now programs
                                 (i + Queries.chunkSize))) w) as o eqn:Ho.
    unfold bind at 1 in Ho. rewrite Hprep in Ho. unfold bind at 1 in Ho.
    unfold Queries.batch in Ho.
    destruct (Queries.all_rows stmts) as [rows|] eqn:Hrows.
    + unfold run at 1 in Ho.
      pose proof (all_rows_spec stmts rows Hrows) as Hsome.
      destruct (chunk_accepted sourceId now chunk stmts rows Hall Hsome)
        as (Hnum & Hstamp & Hrl).
      pose proof (chunk_rows sourceId now chunk stmts rows Hall Hsome) as Hrowof.
      destruct (IH (i + Queries.chunkSize)%nat
                  (log (InsertProgramsBatch rows)
                       (apply_statement (InsertProgramsBatch rows) w1)))
        as (batches & Hp & He & Hs & Hf & Hok & Hcase).
      { unfold Queries.chunkSize in *. lia. }
      rewrite <- Ho in Hp, He, Hs, Hf, Hcase.
      cbn [log apply_statement set_programs epg_programs executed epg_sources fetched]
        in Hp, He, Hs, Hf.
      exists (rows :: batches). unfold ran_chunks.
      cbn [List.concat List.map List.length].
      rewrite Hp, He, Hs, Hf, Hp1, He1, Hs1, Hf1, <- !List.app_assoc.
      repeat (split; [reflexivity|]).
      split.
      { constructor; [|exact Hok]. split; [lia | exact Hstamp]. }
      assert (Hsplit : List.skipn i programs
                       = (chunk ++ List.skipn (i + Queries.chunkSize) programs)%list).
      { unfold chunk.
        rewrite <- (List.firstn_skipn Queries.chunkSize (List.skipn i programs)) at 1.
        now rewrite List.skipn_skipn, Nat.add_comm. }
      destruct Hcase as [(Hret & Hn & Hrw & Hcount) | (Hthr & Hl & Hrw & Hbad)].
      * left. split; [exact Hret|]. rewrite Hsplit.
        split; [apply List.Forall_app; now split|].
        split; [now apply List.Forall2_app|].
        unfold Queries.chunkSize in Hcount. lia.
      * right. split; [exact Hthr|].
        assert (Hfull : List.length rows = 100%nat).
        { rewrite Hrl, Hlen.
          destruct (Nat.le_gt_cases (List.length programs)
                      (i + Queries.chunkSize + 100 * List.length batches)) as [Hle|Hgt].
          - exfalso. apply Hbad. rewrite List.skipn_all2 by exact Hle.
            rewrite List.firstn_nil. constructor.
          - unfold Queries.chunkSize in Hgt. lia. }
        split; [rewrite List.length_app; lia|].
        split.
        -- replace (100 * S (List.length batches))%nat
             with (Queries.chunkSize + 100 * List.length batches)%nat
             by (unfold Queries.chunkSize; lia).
           rewrite <- take_take_drop. apply List.Forall2_app; [exact Hrowof|].
           fold chunk. rewrite List.skipn_skipn.
           now rewrite (Nat.add_comm Queries.chunkSize i).
        -- replace (i + 100 * S (List.length batches))%nat
             with (i + Queries.chunkSize + 100 * List.length batches)%nat
             by (unfold Queries.chunkSize; lia).
           exact Hbad.
    + unfold throw in Ho. subst o. exists []. unfold ran_chunks.
      cbn [world_of List.concat List.map List.length].
      rewrite !List.app_nil_r, Nat.mul_0_r, Nat.add_0_r.
      repeat (split; [assumption || constructor|]).
      right. split; [reflexivity|]. split; [reflexivity|].
      split; [constructor|].
      intros Hn. fold Queries.chunkSize in Hn. fold chunk in Hn.
      destruct (chunk_numeric sourceId now chunk stmts Hall Hn) as (rows & Hr).
      congruence.
Qed.

(** X14. The bulk insert returns exactly when every program has numeric
    times. It then issues batches of at least one and at most a hundred
    rows, as few as hold all the programs, every row stamped with the one
    clock reading taken at the start; an empty list issues nothing and
    reads no clock. *)
Theorem insertEPGPrograms_returns_iff (sourceId : string)
    (programs : list Xmltv.EPGProgram) (w : World) :
  let o := Queries.insertEPGPrograms E sourceId programs w in
  (value_of o = Some tt <-> Forall numeric programs)
  /\ (value_of o = Some tt ->
      exists batches,
        executed (world_of o)
        = (executed w ++ List.map InsertProgramsBatch batches)%list
        /\ Forall (batch_ok sourceId (clock E (clock_reads w))) batches
        /\ (List.length programs <= 100 * List.length batches
            < List.length programs + 100)%nat
        /\ List.length (List.concat batches) = List.length programs)
  /\ (programs = [] -> o = Ok tt w).
Proof.
  cbv zeta. unfold Queries.insertEPGPrograms.
  destruct programs as [|prog programs].
  { cbn [ret value_of world_of]. split; [split; [constructor | reflexivity]|].
    split; [|reflexivity]. intros _. exists []. cbn.
    rewrite List.app_nil_r. repeat split; try lia. constructor. }
  unfold bind, Date_now.
  match goal with
  | |- context [Queries.insert_chunks E ?fuel sourceId ?now ?ps 0%nat ?w'] =>
      destruct (insert_chunks_run sourceId now ps fuel 0%nat w')
        as (batches & Hp & He & Hs & Hf & Hok & Hcase);
      [unfold Queries.chunkSize; lia|];
      remember (Queries.insert_chunks E fuel sourceId now ps 0%nat w') as o eqn:Ho
  end.
  cbn [executed] in He. cbn [List.skipn] in Hcase. rewrite Nat.sub_0_r in Hcase.
  destruct Hcase as [(Hret & Hn & Hrw & Hcount) | (Hthr & Hl & Hrw & Hbad)].
  - rewrite Hret. cbn [value_of world_of].
    split; [split; [intros _; exact Hn | reflexivity]|].
    split; [|discriminate]. intros _. exists batches.
    split; [exact He|]. split; [exact Hok|]. split; [exact Hcount|].
    symmetry. eapply List.Forall2_length. exact Hrw.
  - rewrite Hthr. cbn [value_of].
    split; [split; [discriminate|]|split; discriminate].
    intros Hn. exfalso. apply Hbad.
    now apply Forall_take, Forall_drop.
Qed.

End BulkInsert.

(** Two programs with numeric times go into one batch. *)
Lemma insertEPGPrograms_returns_iff_witness :
  exists batches : list (list EPGProgramDB.t),
    List.length (List.concat batches) = 2%nat
    /\ (2 <= 100 * List.length batches < 2 + 100)%nat.
Proof.
  destruct (proj1 (proj2 (insertEPGPrograms_returns_iff
                            (Refresh.ticking_env (Xmltv.Body Xmltv.NoTv)) "src1"
                            [StoreMore.prog "bbc1" 10 20; StoreMore.prog "bbc1" 20 30]
                            Refresh.stale_world)))
    as (batches & _ & _ & Hcount & Hlen).
  - vm_compute. reflexivity.
  - exists batches. split; [exact Hlen | exact Hcount].
Defined.

(** ** Further properties of the refresh helper *)

Section RefreshRuns.
Import D1 Refresh StoreMore.
Local Open Scope d1_scope.
Variable E : Env.

(** A stale source with a usable parse result: the run is decided by the
    bulk insert. *)
Lemma refresh_stale_run playlistId epgUrl w source w1 w2 result w3 :
  Queries.getOrCreateEPGSource E playlistId epgUrl w = Ok source w1 ->
  Queries.shouldRefreshEPG E source w1 = Ok true w2 ->
  EpgRoute.fetchAndParseXMLTV E epgUrl w2 = Ok result w3 ->
  EpgRoute.total_failure result = false ->
  EpgRoute.refreshEPGIfNeeded E playlistId epgUrl w
  = match Queries.insertEPGPrograms E (EPGSource.id source) (Xmltv.programs result)
            (emptied E (EPGSource.id source) w3) with
    | Ok _ w6 =>
        Ok {| EpgRoute.source :=
                Some (EpgRoute.stamp source (clock E (S (clock_reads w6))));
              EpgRoute.refreshed := true; EpgRoute.error := None |}
           (world_of ((let* _ := Queries.updateEPGSourceFetch E (EPGSource.id source)
                                   None None None in
                       Date_now E) w6))
    | Thrown e w6 =>
        Ok {| EpgRoute.source := None; EpgRoute.refreshed := false;
              EpgRoute.error := Some (Js.String_error e) |} w6
    end.
Proof.
  intros Hget Hstale Hfetch Htot.
  unfold EpgRoute.refreshEPGIfNeeded, try_catch.
  unfold bind at 1. rewrite Hget.
  unfold bind at 1. rewrite Hstale. cbv beta iota delta [negb].
  unfold bind at 1. rewrite Hfetch. rewrite Htot.
  unfold bind at 1. unfold bind at 1.
  unfold Queries.cleanupOldPrograms at 1. unfold bind at 1, Date_now at 1, run at 1.
  unfold Queries.clearEPGPrograms at 1, run at 1. unfold bind at 1.
  change (log (DeletePrograms (EPGSource.id source))
            (apply_statement (DeletePrograms (EPGSource.id source))
               (log (DeleteProgramsEndedBefore (EPGSource.id source)
                       (clock E (clock_reads w3) - 60 * 60 * 1000))
                    (apply_statement
                       (DeleteProgramsEndedBefore (EPGSource.id source)
                          (clock E (clock_reads w3) - 60 * 60 * 1000))
                       {| epg_sources := epg_sources w3;
                          epg_programs := epg_programs w3;
                          executed := executed w3; fetched := fetched w3;
                          clock_reads := S (clock_reads w3);
                          uuid_reads := uuid_reads w3 |}))))
    with (emptied E (EPGSource.id source) w3).
  destruct (Queries.insertEPGPrograms E (EPGSource.id source) (Xmltv.programs result)
              (emptied E (EPGSource.id source) w3)) as [[] w6|e w6]; reflexivity.
Qed.

(** The bulk insert as a whole. *)
Lemma insertEPGPrograms_run sourceId programs w :
  exists batches,
    ran_chunks E sourceId (clock E (clock_reads w)) programs 0 w
      (Queries.insertEPGPrograms E sourceId programs w) batches.
Proof.
  unfold Queries.insertEPGPrograms. destruct programs as [|prog programs].
  - exists []. unfold ran_chunks. cbn [ret world_of List.concat List.map List.length List.skipn].
    rewrite !List.app_nil_r.
    repeat (split; [reflexivity || constructor|]).
    left. repeat split; try constructor; lia.
  - unfold bind, Date_now.
    match goal with
    | |- context [Queries.insert_chunks E ?fuel sourceId ?now ?ps 0%nat ?w'] =>
        destruct (insert_chunks_run E sourceId now ps fuel 0%nat w') as (batches & H);
        [unfold Queries.chunkSize; lia|]
    end.
    exists batches. exact H.
Qed.

Lemma emptied_programs sourceId w :
  epg_programs (emptied E sourceId w)
  = cleared sourceId (clock E (clock_reads w) - 60 * 60 * 1000) (epg_programs w)
  /\ epg_sources (emptied E sourceId w) = epg_sources w
  /\ fetched (emptied E sourceId w) = fetched w.
Proof. repeat split. Qed.

(** The stored programs of the source once the store has been emptied and
    batches of its rows appended. *)
Lemma stored_after_batches sourceId t table (batches : list (list EPGProgramDB.t)) now :
  Forall (batch_ok sourceId now) batches ->
  stored_of sourceId (cleared sourceId t table ++ List.concat batches)
  = List.concat batches
  /\ stored_of_others sourceId (cleared sourceId t table ++ List.concat batches)
     = stored_of_others sourceId table.
Proof.
  intros Hok.
  assert (Hsrc : Forall (fun r => EPGProgramDB.epg_source_id r = sourceId)
                        (List.concat batches)).
  { induction Hok as [|b bs [_ Hb] _ IH]; cbn [List.concat]; [constructor|].
    apply List.Forall_app. split; [|exact IH].
    eapply List.Forall_impl; [|exact Hb]. now intros r [_ Hr]. }
  destruct (stored_of_app sourceId (cleared sourceId t table) (List.concat batches))
    as [-> ->].
  destruct (stored_of_cleared sourceId t table) as [-> ->].
  destruct (stored_of_rows sourceId _ Hsrc) as [-> ->].
  now rewrite List.app_nil_r.
Qed.

(** The steps of a refresh up to the parse result. *)
Lemma refresh_prelude playlistId epgUrl w result :
  value_of (refresh_stale E playlistId epgUrl w) = Some true ->
  value_of (refresh_parse E playlistId epgUrl w) = Some result ->
  exists source w1 w2 w3,
    Queries.getOrCreateEPGSource E playlistId epgUrl w = Ok source w1
    /\ Queries.shouldRefreshEPG E source w1 = Ok true w2
    /\ EpgRoute.fetchAndParseXMLTV E epgUrl w2 = Ok result w3
    /\ stored_source playlistId w1 = Some source
    /\ epg_sources w3 = epg_sources w1
    /\ epg_programs w3 = epg_programs w
    /\ fetched w3 = (fetched w ++ [epgUrl])%list.
Proof.
  intros Hst Hpr.
  destruct (refresh_cases E playlistId epgUrl w)
    as (source & w1 & pre & b & w2 & Hget & Hstored & _ & _ & Hstale & Hrs
        & Hp2 & Hf2 & _ & Hs2 & Hcase).
  rewrite Hrs in Hst. cbn in Hst. injection Hst as ->.
  destruct Hcase as [[Hb _] | (_ & result' & w3 & Hfetch & Hrp & _)]; [discriminate|].
  rewrite Hrp in Hpr. cbn in Hpr. injection Hpr as ->.
  destruct (fetchAndParseXMLTV_frame E epgUrl w2)
    as (result' & w3' & Hfetch' & Hs3 & Hp3 & Hf3 & _).
  rewrite Hfetch in Hfetch'. injection Hfetch' as <- <-.
  exists source, w1, w2, w3.
  repeat (split; [assumption|]). split; [congruence|]. split; congruence.
Qed.

(** X15. A refresh of a stale source whose parse result is usable (it
    has a program or no error) and whose programs all have numeric times
    goes through: it reports [refreshed] and no error. In particular a
    usable parse result without programs goes through and leaves the
    source without stored programs. *)
Theorem refresh_goes_through (playlistId epgUrl : string) (w : World)
    (result : Xmltv.ParseXMLTVResult) :
  let o := EpgRoute.refreshEPGIfNeeded E playlistId epgUrl w in
  value_of (refresh_stale E playlistId epgUrl w) = Some true ->
  value_of (refresh_parse E playlistId epgUrl w) = Some result ->
  EpgRoute.total_failure result = false ->
  Forall numeric (Xmltv.programs result) ->
  exists source r,
    value_of (Queries.getOrCreateEPGSource E playlistId epgUrl w) = Some source
    /\ value_of o = Some r
    /\ EpgRoute.refreshed r = true
    /\ EpgRoute.error r = None
    /\ (Xmltv.programs result = [] ->
        stored_of (EPGSource.id source) (epg_programs (world_of o)) = []).
Proof.
  cbv zeta. intros Hst Hpr Htot Hnum.
  destruct (refresh_prelude playlistId epgUrl w result Hst Hpr)
    as (source & w1 & w2 & w3 & Hget & Hstale & Hfetch & _ & _ & _ & _).
  rewrite (refresh_stale_run playlistId epgUrl w source w1 w2 result w3
             Hget Hstale Hfetch Htot).
  exists source. rewrite Hget.
  destruct (insertEPGPrograms_run (EPGSource.id source) (Xmltv.programs result)
              (emptied E (EPGSource.id source) w3))
    as (batches & Hp & _ & _ & _ & Hok & Hcase).
  destruct Hcase as [(Hret & _ & Hrw & _) | (_ & _ & _ & Hbad)].
  2:{ exfalso. apply Hbad. now apply Forall_take, Forall_drop. }
  rewrite Hret in Hp |- *. cbn [world_of] in Hp.
  eexists. split; [reflexivity|]. split; [reflexivity|].
  split; [reflexivity|]. split; [reflexivity|].
  intros Hnil.
  unfold Queries.updateEPGSourceFetch, bind, Date_now, run.
  cbn [world_of log apply_statement set_sources epg_programs].
  rewrite Hp, (proj1 (emptied_programs _ _)).
  rewrite (proj1 (stored_after_batches _ _ _ _ _ Hok)).
  rewrite Hnil in Hrw. cbn [List.skipn] in Hrw. now inversion Hrw.
Qed.

(** X16. A refresh of a stale source whose parse result is usable but
    holds a program with a time that is no number does not go through:
    the helper returns, without a source and not refreshed, the string
    of the error with which the database rejected the batch. By then the old
    programs of the source are deleted; what is stored for the source
    are the rows of the full batches before the rejected one. The
    programs of other sources are untouched, the source row is not
    stamped, and the guide has been fetched once. *)
Theorem refresh_rejected_batch (playlistId epgUrl : string) (w : World)
    (result : Xmltv.ParseXMLTVResult) :
  let o := EpgRoute.refreshEPGIfNeeded E playlistId epgUrl w in
  value_of (refresh_stale E playlistId epgUrl w) = Some true ->
  value_of (refresh_parse E playlistId epgUrl w) = Some result ->
  EpgRoute.total_failure result = false ->
  ~ Forall numeric (Xmltv.programs result) ->
  exists source w1 m,
    Queries.getOrCreateEPGSource E playlistId epgUrl w = Ok source w1
    /\ value_of o = Some {| EpgRoute.source := None; EpgRoute.refreshed := false;
                            EpgRoute.error
                              := Some (Js.String_error (rejection E)) |}
    /\ Forall2 (row_of (EPGSource.id source))
         (List.firstn (100 * m) (Xmltv.programs result))
         (stored_of (EPGSource.id source) (epg_programs (world_of o)))
    /\ ~ Forall numeric (List.firstn 100 (List.skipn (100 * m) (Xmltv.programs result)))
    /\ stored_of_others (EPGSource.id source) (epg_programs (world_of o))
       = stored_of_others (EPGSource.id source) (epg_programs w)
    /\ epg_sources (world_of o) = epg_sources w1
    /\ stored_source playlistId (world_of o) = Some source
    /\ fetched (world_of o) = (fetched w ++ [epgUrl])%list.
Proof.
  cbv zeta. intros Hst Hpr Htot Hnum.
  destruct (refresh_prelude playlistId epgUrl w result Hst Hpr)
    as (source & w1 & w2 & w3 & Hget & Hstale & Hfetch & Hstored & Hs3 & Hp3 & Hf3).
  rewrite (refresh_stale_run playlistId epgUrl w source w1 w2 result w3
             Hget Hstale Hfetch Htot).
  destruct (insertEPGPrograms_run (EPGSource.id source) (Xmltv.programs result)
              (emptied E (EPGSource.id source) w3))
    as (batches & Hp & _ & Hs & Hf & Hok & Hcase).
  destruct Hcase as [(_ & Hall & _) | (Hthr & Hlen & Hrw & Hbad)];
    [contradiction|].
  exists source, w1, (List.length batches).
  split; [exact Hget|].
  rewrite Hthr in Hp, Hs, Hf |- *. cbn [world_of value_of] in Hp, Hs, Hf |- *.
  unfold stored_source in Hstored |- *.
  rewrite Hp, !Hs, Hf.
  destruct (emptied_programs (EPGSource.id source) w3) as (-> & -> & ->).
  destruct (stored_after_batches (EPGSource.id source)
              (clock E (clock_reads w3) - 60 * 60 * 1000) (epg_programs w3)
              batches _ Hok) as [-> ->].
  split; [reflexivity|]. split; [exact Hrw|]. split; [exact Hbad|].
  split; [now rewrite Hp3|]. split; [exact Hs3|].
  split; [now rewrite Hs3 | exact Hf3].
Qed.

(** *** The call after a rejected batch *)

Lemma prepare_chunk_clock sourceId now chunk : forall w stmts w1,
  Queries.prepare_chunk E sourceId now chunk w = Ok stmts w1 ->
  clock_reads w1 = clock_reads w.
Proof.
  induction chunk as [|prog chunk IH]; intros w stmts w1; cbn [Queries.prepare_chunk].
  - now intros [= _ <-].
  - unfold bind at 1. unfold generateUUID at 1. unfold bind at 1.
    match goal with
    | |- context [Queries.prepare_chunk E sourceId now chunk ?w0] =>
        destruct (Queries.prepare_chunk E sourceId now chunk w0) as [s w2|e w2] eqn:Hrun;
        [apply IH in Hrun|discriminate]
    end.
    cbn [ret]. intros [= _ <-]. exact Hrun.
Qed.

Lemma insert_chunks_clock sourceId now programs : forall fuel i w,
  clock_reads (world_of (Queries.insert_chunks E fuel sourceId now programs i w))
  = clock_reads w.
Proof.
  induction fuel as [|fuel IH]; intros i w; cbn [Queries.insert_chunks]; [reflexivity|].
  destruct (i <? List.length programs)%nat; [|reflexivity].
  unfold bind at 1.
  destruct (Queries.prepare_chunk E sourceId now
              (List.firstn Queries.chunkSize (List.skipn i programs)) w)
    as [stmts w1|e w1] eqn:Hprep.
  2:{ destruct (prepare_chunk_spec E sourceId now
                  (List.firstn Queries.chunkSize (List.skipn i programs)) w)
        as (? & ? & Hp & _). congruence. }
  apply prepare_chunk_clock in Hprep.
  unfold bind at 1, Queries.batch.
  destruct (Queries.all_rows stmts) as [rows|]; [|exact Hprep].
  unfold run at 1. rewrite IH. exact Hprep.
Qed.

Lemma insertEPGPrograms_clock sourceId programs w :
  (clock_reads w
   <= clock_reads (world_of (Queries.insertEPGPrograms E sourceId programs w)))%nat.
Proof.
  unfold Queries.insertEPGPrograms. destruct programs as [|p programs]; [reflexivity|].
  unfold bind, Date_now. rewrite insert_chunks_clock. cbn. lia.
Qed.

Lemma getOrCreateEPGSource_clock playlistId epgUrl w source w1 :
  Queries.getOrCreateEPGSource E playlistId epgUrl w = Ok source w1 ->
  (clock_reads w <= clock_reads w1)%nat.
Proof.
  unfold Queries.getOrCreateEPGSource, bind, run.
  cbn [log apply_statement epg_sources].
  destruct (Queries.first_by_playlist playlistId (epg_sources w)) as [ex|].
  - destruct (negb (String.eqb (EPGSource.epg_url ex) epgUrl));
      cbn; intros [= _ <-]; cbn; lia.
  - cbn. intros [= _ <-]. cbn. lia.
Qed.

Lemma shouldRefreshEPG_clock source w b w2 :
  Queries.shouldRefreshEPG E source w = Ok b w2 -> (clock_reads w <= clock_reads w2)%nat.
Proof.
  unfold Queries.shouldRefreshEPG.
  destruct (EPGSource.last_fetched source) as [t|]; [destruct (t =? 0)|];
    cbn; intros [= _ <-]; cbn; lia.
Qed.

Lemma fetchAndParseXMLTV_clock url w result w3 :
  EpgRoute.fetchAndParseXMLTV E url w = Ok result w3 ->
  (clock_reads w <= clock_reads w3)%nat.
Proof.
  unfold EpgRoute.fetchAndParseXMLTV, bind, fetch.
  destruct (network E (List.length (fetched w)) url) as [msg|st tx|[msg| |ps]];
    cbn; intros [= _ <-]; cbn; lia.
Qed.

(** A stale source stays stale at every later reading of a clock that
    does not run backwards. *)
Lemma shouldRefreshEPG_later source w w2 w' :
  (forall n m, (n <= m)%nat -> clock E n <= clock E m) ->
  Queries.shouldRefreshEPG E source w = Ok true w2 ->
  (clock_reads w <= clock_reads w')%nat ->
  value_of (Queries.shouldRefreshEPG E source w') = Some true.
Proof.
  intros Hmono. unfold Queries.shouldRefreshEPG.
  destruct (EPGSource.last_fetched source) as [t|]; [|reflexivity].
  destruct (t =? 0); [reflexivity|].
  unfold bind, Date_now, Queries.older_than_one_hour. cbn.
  intros [= Hold _] Hle. f_equal.
  apply Z.ltb_lt in Hold. apply Z.ltb_lt.
  specialize (Hmono _ _ Hle). lia.
Qed.

(** X22. A rejected batch is not recorded on the source, so it does not
    hold back the next call: with a clock that does not run backwards,
    the call that follows finds the source stale again, whenever it is
    made. *)
Theorem refresh_rejected_batch_again (playlistId epgUrl : string) (w : World)
    (result : Xmltv.ParseXMLTVResult) :
  let o := EpgRoute.refreshEPGIfNeeded E playlistId epgUrl w in
  (forall n m, (n <= m)%nat -> clock E n <= clock E m) ->
  value_of (refresh_stale E playlistId epgUrl w) = Some true ->
  value_of (refresh_parse E playlistId epgUrl w) = Some result ->
  EpgRoute.total_failure result = false ->
  ~ Forall numeric (Xmltv.programs result) ->
  value_of (refresh_stale E playlistId epgUrl (world_of o)) = Some true.
Proof.
  cbv zeta. intros Hmono Hst Hpr Htot Hnum.
  destruct (refresh_prelude playlistId epgUrl w result Hst Hpr)
    as (source & w1 & w2 & w3 & Hget & Hstale & Hfetch & Hstored & Hs3 & _ & _).
  destruct (getOrCreateEPGSource_spec E playlistId epgUrl w)
    as (source' & w1' & pre & Hget' & _ & Hurl & _).
  rewrite Hget in Hget'. injection Hget' as <- <-.
  rewrite (refresh_stale_run playlistId epgUrl w source w1 w2 result w3
             Hget Hstale Hfetch Htot).
  destruct (insertEPGPrograms_run (EPGSource.id source) (Xmltv.programs result)
              (emptied E (EPGSource.id source) w3))
    as (batches & _ & _ & Hs & _ & _ & Hcase).
  pose proof (insertEPGPrograms_clock (EPGSource.id source) (Xmltv.programs result)
                (emptied E (EPGSource.id source) w3)) as Hclock.
  destruct Hcase as [(_ & Hall & _) | (Hthr & _)]; [contradiction|].
  rewrite Hthr in Hs, Hclock |- *. cbn [world_of] in Hs, Hclock |- *.
  match goal with
  | |- value_of (refresh_stale E playlistId epgUrl ?w6) = _ => set (wf := w6) in *
  end.
  assert (Hsrc : Queries.first_by_playlist playlistId (epg_sources wf) = Some source).
  { rewrite Hs, (proj1 (proj2 (emptied_programs _ _))), Hs3. exact Hstored. }
  unfold refresh_stale, bind at 1, Queries.getOrCreateEPGSource, bind at 1, run.
  cbn [log apply_statement epg_sources]. rewrite Hsrc, Hurl, String.eqb_refl.
  cbn [negb ret].
  apply (shouldRefreshEPG_later source w1 w2 _ Hmono Hstale).
  cbn [log clock_reads].
  pose proof (getOrCreateEPGSource_clock _ _ _ _ _ Hget).
  pose proof (shouldRefreshEPG_clock _ _ _ _ Hstale).
  pose proof (fetchAndParseXMLTV_clock _ _ _ _ Hfetch).
  assert (clock_reads (emptied E (EPGSource.id source) w3) = S (clock_reads w3))
    by reflexivity.
  lia.
Qed.

(** *** Every attempt and the update of the source *)

(** C10. [updateEPGSourceFetch] returns, sets [last_fetched] and
    [updated_at] of the rows of the source to the clock reading, writes
    the three values given for [last_modified], [etag] and [fetch_error],
    and changes no other field, no other row and no program. An attempt
    on a stale source whose parse fails altogether returns the failure
    and is recorded by this update with the reason of the failure; an
    attempt whose parse is usable and whose programs all have numeric
    times reports the refresh and is recorded by this update with no
    error: in both cases the stored source is not stale at any clock
    reading up to one hour past the attempt. An attempt whose parse is
    usable but holds a program with a time that is no number is not
    recorded: the helper returns the string of the error of the rejected
    batch, no update of the source is issued and the rows of the sources
    are as they were. The clock is taken never to read the epoch
    itself. *)
Theorem refresh_attempt_recorded (playlistId epgUrl : string) (w : World)
    (result : Xmltv.ParseXMLTVResult) :
  (forall n, clock E n <> 0) ->
  value_of (refresh_stale E playlistId epgUrl w) = Some true ->
  value_of (refresh_parse E playlistId epgUrl w) = Some result ->
  let o := EpgRoute.refreshEPGIfNeeded E playlistId epgUrl w in
  (forall sourceId lastModified etag fetchError w0,
      exists w0',
        Queries.updateEPGSourceFetch E sourceId lastModified etag fetchError w0
        = Ok tt w0'
        /\ Forall2 (fetch_recorded sourceId (clock E (clock_reads w0))
                      lastModified etag fetchError)
                   (epg_sources w0) (epg_sources w0')
        /\ epg_programs w0' = epg_programs w0)
  /\ exists source w1,
       Queries.getOrCreateEPGSource E playlistId epgUrl w = Ok source w1
       /\ fetched (world_of o) = (fetched w ++ [epgUrl])%list
       /\ (EpgRoute.total_failure result = true ->
           exists reason,
             Xmltv.errors result = [reason]
             /\ value_of o
                = Some {| EpgRoute.source := Some source; EpgRoute.refreshed := false;
                          EpgRoute.error := Some reason |}
             /\ attempt_recorded E playlistId source w1 (world_of o) (Some reason))
       /\ (EpgRoute.total_failure result = false ->
           Forall numeric (Xmltv.programs result) ->
           (exists t,
               value_of o
               = Some {| EpgRoute.source := Some (EpgRoute.stamp source t);
                         EpgRoute.refreshed := true; EpgRoute.error := None |})
           /\ attempt_recorded E playlistId source w1 (world_of o) None)
       /\ (EpgRoute.total_failure result = false ->
           ~ Forall numeric (Xmltv.programs result) ->
           value_of o
           = Some {| EpgRoute.source := None; EpgRoute.refreshed := false;
                     EpgRoute.error := Some (Js.String_error (rejection E)) |}
           /\ (exists stmts, executed (world_of o) = (executed w ++ stmts)%list
                             /\ no_fetch_update stmts)
           /\ epg_sources (world_of o) = epg_sources w1
           /\ stored_source playlistId (world_of o) = Some source).
Proof.
  intros Hclock Hst Hpr. cbv zeta.
  split.
  { intros sourceId lastModified etag fetchError w0.
    unfold Queries.updateEPGSourceFetch, bind, Date_now, run. simpl.
    eexists. split; [reflexivity|]. simpl. split; [|reflexivity].
    induction (epg_sources w0) as [|x l IH]; simpl; constructor; [|exact IH].
    unfold fetch_recorded.
    destruct (String.eqb (EPGSource.id x) sourceId); [|reflexivity].
    simpl. repeat split. }
  destruct (refresh_cases E playlistId epgUrl w)
    as (source & w1 & pre & b & w2 & Hget & Hstored & Hurl & Hpre & Hstale & Hrs
        & Hp2 & Hf2 & He2 & Hs2 & Hcase).
  cbv zeta in Hcase. rewrite Hrs in Hst. injection Hst as ->.
  destruct Hcase as [[Hb _] | [_ (result' & w3 & Hfetch & Hparse & Hcase)]];
    [discriminate|].
  rewrite Hparse in Hpr. injection Hpr as ->.
  destruct (fetchAndParseXMLTV_frame E epgUrl w2)
    as (result' & w3' & Hfetch' & Hs3 & Hp3 & Hf3 & He3).
  rewrite Hfetch in Hfetch'. injection Hfetch' as <- <-.
  assert (Hfresh : forall s' t, EPGSource.last_fetched s' = Some t -> t <> 0 ->
            forall w', clock E (clock_reads w') - t <= Freshness.oneHour ->
                       value_of (Queries.shouldRefreshEPG E s' w') = Some false).
  { intros s' t Hlf Ht w' Hwin.
    destruct (shouldRefreshEPG_within_hour E s' t w' Hlf Ht Hwin) as (w'' & -> & _).
    reflexivity. }
  exists source, w1. split; [exact Hget|].
  destruct (EpgRoute.total_failure result) eqn:Htot.
  - destruct Hcase as [[_ Hrun] | [Hno _]]; [|discriminate].
    destruct Hrun as (wf & Hrun & Hprog & Hfetched & Hex & Hsrc & Hreads & (k & Hk)).
    cbv zeta in Hsrc, Hex, Hk, Hrun.
    destruct (fetched_single_error E epgUrl w2 result w3 Hfetch
                (total_failure_errors result Htot)) as (reason & Hone & _ & Hjoin).
    rewrite Hjoin in Hrun, Hsrc, Hex.
    rewrite Hrun. cbn [world_of value_of].
    split; [exact Hfetched|].
    split; [|split; intros; discriminate].
    intros _. exists reason. split; [exact Hone|]. split; [reflexivity|].
    destruct (stored_source_recorded playlistId source w1 (clock E (clock_reads w3))
                _ (epg_sources wf) Hstored Hsrc) as (s' & Hs' & Hlf & Hup & Hfe & Hid).
    exists (executed w ++ pre)%list, (clock E (clock_reads w3)).
    split; [now rewrite Hex, List.app_assoc|].
    split; [now exists (clock_reads w3)|].
    split; [rewrite Hsrc; apply record_fetch_frame|].
    exists s'. repeat (split; [assumption|]). apply Hfresh; [exact Hlf | apply Hclock].
  - destruct Hcase as [[Hyes _] | [_ Hrun]]; [discriminate|].
    pose proof (refresh_stale_run playlistId epgUrl w source w1 w2 result w3
                  Hget Hstale Hfetch Htot) as Ho.
    destruct (insertEPGPrograms_run (EPGSource.id source) (Xmltv.programs result)
                (emptied E (EPGSource.id source) w3))
      as (batches & Hp & Hex6 & Hs & Hf & Hok & Hins).
    destruct Hins as [(Hret & Hall & _) | (Hthr & Hlen & Hrw & Hbad)].
    + rewrite Hret in Ho.
      destruct Hrun as [(e & wt & Hrun) | Hrun];
        [rewrite Hrun in Ho; discriminate Ho|].
      destruct Hrun as (batches' & t_stamp & t_return & wf & Hrun & Hex & Hprog & Hrows
                        & Hsrc & Hfetched & (k & Hk)).
      cbv zeta in Hsrc, Hex.
      rewrite Hrun. cbn [world_of value_of].
      split; [exact Hfetched|].
      split; [intros; discriminate|].
      split; [|intros _ Hnot; contradiction].
      intros _ _. split; [now exists t_return|].
      destruct (stored_source_recorded playlistId source w1 t_stamp
                  _ (epg_sources wf) Hstored Hsrc) as (s' & Hs' & Hlf & Hup & Hfe & Hid).
      eexists _, t_stamp.
      split; [rewrite Hex; rewrite !List.app_assoc; reflexivity|].
      split; [now exists k|].
      split; [rewrite Hsrc; apply record_fetch_frame|].
      exists s'. repeat (split; [assumption|]). apply Hfresh; [exact Hlf|].
      rewrite Hk. apply Hclock.
    + rewrite Ho. rewrite Hthr in Hp, Hex6, Hs, Hf |- *.
      cbn [world_of value_of] in Hp, Hex6, Hs, Hf |- *.
      destruct (emptied_programs (EPGSource.id source) w3) as (_ & Hse & Hfe).
      split; [now rewrite Hf, Hfe, Hf3, Hf2|].
      split; [intros; discriminate|].
      split; [intros _ Hall; exfalso; apply Hbad;
              now apply Forall_take, Forall_drop|].
      intros _ _. split; [reflexivity|].
      split.
      { eexists. split.
        - rewrite Hex6. unfold emptied, Queries.cleanupOldPrograms, bind, Date_now, run.
          cbn [world_of log apply_statement set_programs executed].
          rewrite He3, He2, <- !List.app_assoc. reflexivity.
        - unfold no_fetch_update. apply List.Forall_app. split.
          + eapply List.Forall_impl; [|exact Hpre].
            intros [] H; try exact I; destruct H.
          + repeat constructor. clear. induction batches; constructor; auto. }
      unfold stored_source in Hstored |- *.
      rewrite Hs, Hse, Hs3, Hs2. split; [reflexivity | exact Hstored].
Qed.

End RefreshRuns.

(** The stale source of playlist [pl1] and a guide of one program. *)
Lemma refresh_goes_through_witness :
  exists r,
    D1.value_of (EpgRoute.refreshEPGIfNeeded
                   (Refresh.ticking_env (Xmltv.Body (Xmltv.Tv [Refresh.one_programme])))
                   "pl1" "http://g.example/guide.xml" Refresh.stale_world) = Some r
    /\ EpgRoute.refreshed r = true.
Proof.
  destruct (refresh_goes_through
              (Refresh.ticking_env (Xmltv.Body (Xmltv.Tv [Refresh.one_programme])))
              "pl1" "http://g.example/guide.xml" Refresh.stale_world
              (Xmltv.parseXMLTV 1704106800000 (Xmltv.Tv [Refresh.one_programme])))
    as (source & r & _ & Hval & Href & _).
  - vm_compute. reflexivity.
  - vm_compute. reflexivity.
  - vm_compute. reflexivity.
  - vm_compute. repeat constructor; discriminate.
  - exists r. split; [exact Hval | exact Href].
Defined.

(** The same source and a guide whose one program has no readable
    start: nothing of the source is left in the store. *)
Lemma refresh_rejected_batch_witness :
  let E := Refresh.ticking_env (Xmltv.Body (Xmltv.Tv [Guide.unparseable_start])) in
  D1.value_of (EpgRoute.refreshEPGIfNeeded E
                 "pl1" "http://g.example/guide.xml" Refresh.stale_world)
  = Some {| EpgRoute.source := None; EpgRoute.refreshed := false;
            EpgRoute.error := Some (Js.String_error (D1.rejection E)) |}.
Proof.
  cbv zeta.
  destruct (refresh_rejected_batch
              (Refresh.ticking_env (Xmltv.Body (Xmltv.Tv [Guide.unparseable_start])))
              "pl1" "http://g.example/guide.xml" Refresh.stale_world
              (Xmltv.parseXMLTV 1704106800000 (Xmltv.Tv [Guide.unparseable_start])))
    as (source & w1 & m & _ & Hval & _).
  - vm_compute. reflexivity.
  - vm_compute. reflexivity.
  - vm_compute. reflexivity.
  - vm_compute. intros H. inversion H as [|? ? [Hs _] _]. now apply Hs.
  - exact Hval.
Defined.


(** The guide whose one program has no readable start is fetched again
    by the next call. *)
Lemma refresh_rejected_batch_again_witness :
  D1.value_of
    (Refresh.refresh_stale
       (Refresh.ticking_env (Xmltv.Body (Xmltv.Tv [Guide.unparseable_start])))
       "pl1" "http://g.example/guide.xml"
       (D1.world_of
          (EpgRoute.refreshEPGIfNeeded
             (Refresh.ticking_env (Xmltv.Body (Xmltv.Tv [Guide.unparseable_start])))
             "pl1" "http://g.example/guide.xml" Refresh.stale_world)))
  = Some true.
Proof.
  apply (refresh_rejected_batch_again
           (Refresh.ticking_env (Xmltv.Body (Xmltv.Tv [Guide.unparseable_start])))
           "pl1" "http://g.example/guide.xml" Refresh.stale_world
           (Xmltv.parseXMLTV 1704106800000 (Xmltv.Tv [Guide.unparseable_start]))).
  - intros n m Hnm. cbn [Refresh.ticking_env D1.clock]. lia.
  - vm_compute. reflexivity.
  - vm_compute. reflexivity.
  - vm_compute. reflexivity.
  - vm_compute. intros H. inversion H as [|? ? [Hs _] _]. now apply Hs.
Defined.

(** Both recorded outcomes of an attempt on the stale source: the feed
    that answers 500 and the guide of one program. *)
Lemma refresh_attempt_recorded_witness :
  let url := "http://g.example/guide.xml" in
  let failing := Refresh.ticking_env (Xmltv.NotOk "500" "down") in
  let working := Refresh.ticking_env (Xmltv.Body (Xmltv.Tv [Refresh.one_programme])) in
  let o1 := EpgRoute.refreshEPGIfNeeded failing "pl1" url Refresh.stale_world in
  let o2 := EpgRoute.refreshEPGIfNeeded working "pl1" url Refresh.stale_world in
  (exists source,
      D1.value_of o1
      = Some {| EpgRoute.source := Some source; EpgRoute.refreshed := false;
                EpgRoute.error := Some "Failed to fetch XMLTV: 500 down" |}
      /\ Refresh.attempt_recorded failing "pl1" source Refresh.stale_world
            (D1.world_of o1) (Some "Failed to fetch XMLTV: 500 down"))
  /\ (exists source t,
      D1.value_of o2
      = Some {| EpgRoute.source := Some (EpgRoute.stamp source t);
                EpgRoute.refreshed := true; EpgRoute.error := None |}
      /\ Refresh.attempt_recorded working "pl1" source Refresh.stale_world
            (D1.world_of o2) None).
Proof.
  cbv zeta.
  assert (Hclock : forall response n, D1.clock (Refresh.ticking_env response) n <> 0).
  { intros response n. cbn [D1.clock Refresh.ticking_env]. lia. }
  assert (Hstale : forall response,
            D1.value_of (Refresh.refresh_stale (Refresh.ticking_env response)
                           "pl1" "http://g.example/guide.xml" Refresh.stale_world)
            = Some true).
  { intros response. vm_compute. reflexivity. }
  assert (Hfound : forall response source w1,
            Queries.getOrCreateEPGSource (Refresh.ticking_env response)
              "pl1" "http://g.example/guide.xml" Refresh.stale_world = D1.Ok source w1 ->
            D1.epg_sources w1 = D1.epg_sources Refresh.stale_world).
  { intros response source w1 H. vm_compute in H. injection H as _ <-. reflexivity. }
  split.
  - destruct (refresh_attempt_recorded (Refresh.ticking_env (Xmltv.NotOk "500" "down"))
                "pl1" "http://g.example/guide.xml" Refresh.stale_world
                {| Xmltv.programs := [];
                   Xmltv.errors := ["Failed to fetch XMLTV: 500 down"] |}
                (Hclock _) (Hstale _))
      as (_ & source & w1 & Hget & _ & Hfail & _); [vm_compute; reflexivity|].
    destruct (Hfail eq_refl) as (reason & Hone & Hval & Hrec).
    cbn [Xmltv.errors] in Hone. injection Hone as <-.
    exists source. split; [exact Hval|].
    unfold Refresh.attempt_recorded in Hrec |- *.
    now rewrite (Hfound _ _ _ Hget) in Hrec.
  - destruct (refresh_attempt_recorded
                (Refresh.ticking_env (Xmltv.Body (Xmltv.Tv [Refresh.one_programme])))
                "pl1" "http://g.example/guide.xml" Refresh.stale_world
                (Xmltv.parseXMLTV 1704106800000 (Xmltv.Tv [Refresh.one_programme]))
                (Hclock _) (Hstale _))
      as (_ & source & w1 & Hget & _ & _ & Hgood & _); [vm_compute; reflexivity|].
    destruct Hgood as ((t & Hval) & Hrec).
    + vm_compute. reflexivity.
    + vm_compute. repeat constructor; discriminate.
    + exists source, t. split; [exact Hval|].
      unfold Refresh.attempt_recorded in Hrec |- *.
      now rewrite (Hfound _ _ _ Hget) in Hrec.
Defined.

(** C10 as stated fails: the attempt on the stale source against a guide
    whose one program has no readable start fetches the guide and
    deletes the old program of the source, but issues no update of the
    source; the rows of the sources are as before, the source was never
    fetched and the next call finds it stale again. *)
Lemma refresh_attempt_not_recorded :
  let E := Refresh.ticking_env (Xmltv.Body (Xmltv.Tv [Guide.unparseable_start])) in
  let o := EpgRoute.refreshEPGIfNeeded E "pl1" "http://g.example/guide.xml"
             Refresh.stale_world in
  D1.fetched (D1.world_of o) = ["http://g.example/guide.xml"]
  /\ D1.epg_programs (D1.world_of o) = []
  /\ Refresh.no_fetch_update (D1.executed (D1.world_of o))
  /\ D1.epg_sources (D1.world_of o) = D1.epg_sources Refresh.stale_world
  /\ option_map EPGSource.last_fetched (Refresh.stored_source "pl1" (D1.world_of o))
     = Some None
  /\ D1.value_of (Refresh.refresh_stale E "pl1" "http://g.example/guide.xml"
                    (D1.world_of o)) = Some true
  /\ ~ (exists source fetchError,
          Refresh.attempt_recorded E "pl1" source Refresh.stale_world
            (D1.world_of o) fetchError).
Proof.
  cbv zeta.
  split; [vm_compute; reflexivity|]. split; [vm_compute; reflexivity|].
  split; [vm_compute; repeat constructor|].
  split; [vm_compute; reflexivity|]. split; [vm_compute; reflexivity|].
  split; [vm_compute; reflexivity|].
  intros (source & fetchError & before & t & Hex & _).
  vm_compute in Hex.
  apply (f_equal (@List.rev _)) in Hex. rewrite List.rev_app_distr in Hex.
  cbn in Hex. discriminate Hex.
Qed.

(** ** The forced refresh *)

Section ForcedRefresh.
Import D1 Refresh StoreMore EpgHandlers.
Local Open Scope d1_scope.
Variable E : Env.

(** The parse result of a fetch that is no total failure has no error. *)
Lemma fetched_result_errors url w result w3 :
  EpgRoute.fetchAndParseXMLTV E url w = Ok result w3 ->
  EpgRoute.total_failure result = false ->
  Xmltv.errors result = [].
Proof.
  unfold EpgRoute.fetchAndParseXMLTV, bind, fetch.
  destruct (network E (List.length (fetched w)) url) as [msg|st tx|[msg| |ps]];
    cbn; try (intros [= <- _]; discriminate).
  intros [= <- _] _.
  pose proof (parse_loop_no_warning (clock E (clock_reads w)) ps [] []) as H.
  destruct (Xmltv.parse_loop (clock E (clock_reads w)) ps [] []) as [programs errors].
  exact H.
Qed.

Lemma post_refresh_run playlistId url w source w1 result w3 :
  M3u.truthy url = true ->
  Queries.getOrCreateEPGSource E playlistId url w = Ok source w1 ->
  EpgRoute.fetchAndParseXMLTV E url w1 = Ok result w3 ->
  post_refresh E playlistId (Some (Some url)) true w
  = if EpgRoute.total_failure result then
      Ok (ParseFailed (Xmltv.errors result))
         (world_of (Queries.updateEPGSourceFetch E (EPGSource.id source) None None
                      (Some (EpgRoute.join_errors (Xmltv.errors result))) w3))
    else
      match Queries.insertEPGPrograms E (EPGSource.id source) (Xmltv.programs result)
              (wiped (EPGSource.id source) w3) with
      | Ok _ w6 =>
          Ok (Refreshed (List.length (Xmltv.programs result))
                (if (0 <? List.length (Xmltv.errors result))%nat
                 then Some (Xmltv.errors result) else None))
             (world_of (Queries.updateEPGSourceFetch E (EPGSource.id source)
                          None None None w6))
      | Thrown _ w6 => Ok RefreshError w6
      end.
Proof.
  intros Hurl Hget Hfetch.
  unfold post_refresh, try_catch. rewrite Hurl. cbv beta iota delta [negb].
  unfold bind at 1. rewrite Hget.
  unfold bind at 1. rewrite Hfetch.
  destruct (EpgRoute.total_failure result); [reflexivity|].
  unfold bind at 1. unfold Queries.clearEPGPrograms at 1, run at 1.
  fold (wiped (EPGSource.id source) w3).
  unfold bind at 1.
  destruct (Queries.insertEPGPrograms E (EPGSource.id source) (Xmltv.programs result)
              (wiped (EPGSource.id source) w3)) as [[] w6|e w6]; reflexivity.
Qed.

Lemma stored_after_clear sourceId table (batches : list (list EPGProgramDB.t)) now :
  Forall (batch_ok sourceId now) batches ->
  stored_of sourceId (stored_of_others sourceId table ++ List.concat batches)
  = List.concat batches
  /\ stored_of_others sourceId (stored_of_others sourceId table ++ List.concat batches)
     = stored_of_others sourceId table.
Proof.
  intros Hok.
  assert (Hc : cleared sourceId 0 (stored_of_others sourceId table)
               = stored_of_others sourceId table).
  { unfold cleared, stored_of_others.
    induction table as [|p l IH]; [reflexivity|]. cbn [List.filter].
    destruct (String.eqb (EPGProgramDB.epg_source_id p) sourceId) eqn:Hp;
      cbn [negb]; [exact IH|].
    cbn [List.filter]. rewrite Hp. cbn [andb negb List.filter]. rewrite Hp.
    cbn [negb]. now rewrite IH. }
  destruct (stored_after_batches sourceId 0 (stored_of_others sourceId table) batches
              now Hok) as [H1 H2].
  rewrite Hc in H1, H2. split; [exact H1|].
  rewrite H2. unfold stored_of_others. apply filter_idempotent.
Qed.

(** X17. The forced refresh asked by the owner with a guide URL looks the
    source up, fetches the guide once whatever the age of the stored
    data, and never prunes. What it answers is decided by the parse
    result of that fetch. On a total failure it answers that the parse
    failed, with the errors as details; the one error is recorded on the
    rows of the source and the stored programs are untouched. On a
    usable result whose programs all have numeric times it answers with
    success, the number of programs and no warnings; the stored programs
    of the source are the rows of the parsed programs, one per program
    and in order, the programs of other sources are as before, and the
    rows of the source are stamped with no error. On a usable result
    with a program whose time is no number it answers with the error of
    the [catch] branch and the rows of the sources are as they were. A
    caller who is not the owner, or a body without a guide URL, changes
    nothing. *)
Theorem post_refresh_forced (playlistId url : string) (w : World) :
  let o := post_refresh E playlistId (Some (Some url)) true w in
  (url <> EmptyString ->
   exists source w1 result w3,
     Queries.getOrCreateEPGSource E playlistId url w = Ok source w1
     /\ EpgRoute.fetchAndParseXMLTV E url w1 = Ok result w3
     /\ fetched (world_of o) = (fetched w ++ [url])%list
     /\ (forall s, In s (executed (world_of o)) ->
           (forall sid t, s <> DeleteProgramsEndedBefore sid t)
           \/ In s (executed w))
     /\ (EpgRoute.total_failure result = true ->
         exists reason,
           Xmltv.errors result = [reason]
           /\ value_of o = Some (ParseFailed [reason])
           /\ epg_programs (world_of o) = epg_programs w
           /\ Forall2 (fetch_recorded (EPGSource.id source) (clock E (clock_reads w3))
                         None None (Some reason))
                      (epg_sources w1) (epg_sources (world_of o)))
     /\ (EpgRoute.total_failure result = false ->
         Forall numeric (Xmltv.programs result) ->
         value_of o = Some (Refreshed (List.length (Xmltv.programs result)) None)
         /\ Forall2 (row_of (EPGSource.id source)) (Xmltv.programs result)
              (stored_of (EPGSource.id source) (epg_programs (world_of o)))
         /\ stored_of_others (EPGSource.id source) (epg_programs (world_of o))
            = stored_of_others (EPGSource.id source) (epg_programs w)
         /\ exists k,
              Forall2 (fetch_recorded (EPGSource.id source) (clock E k) None None None)
                      (epg_sources w1) (epg_sources (world_of o)))
     /\ (EpgRoute.total_failure result = false ->
         ~ Forall numeric (Xmltv.programs result) ->
         value_of o = Some RefreshError
         /\ epg_sources (world_of o) = epg_sources w1
         /\ stored_of_others (EPGSource.id source) (epg_programs (world_of o))
            = stored_of_others (EPGSource.id source) (epg_programs w)))
  /\ (forall body, post_refresh E playlistId (Some body) false w = Ok RefreshDenied w)
  /\ post_refresh E playlistId (Some None) true w = Ok UrlRequired w
  /\ post_refresh E playlistId (Some (Some EmptyString)) true w = Ok UrlRequired w.
Proof.
  cbv zeta. split; [|repeat split].
  intros Hurl.
  assert (Ht : M3u.truthy url = true) by (destruct url; [contradiction|reflexivity]).
  destruct (getOrCreateEPGSource_spec E playlistId url w)
    as (source & w1 & pre & Hget & _ & _ & _ & Hp1 & Hf1 & He1 & Hpre).
  destruct (fetchAndParseXMLTV_frame E url w1)
    as (result & w3 & Hfetch & Hs3 & Hp3 & Hf3 & He3).
  exists source, w1, result, w3. split; [exact Hget|]. split; [exact Hfetch|].
  rewrite (post_refresh_run playlistId url w source w1 result w3 Ht Hget Hfetch).
  assert (Hsrc : forall s, In s (executed w3) ->
            (forall sid t, s <> DeleteProgramsEndedBefore sid t)
            \/ In s (executed w)).
  { intros s Hin. rewrite He3, He1 in Hin.
    apply List.in_app_or in Hin as [Hin|Hin]; [now right|]. left.
    intros sid t ->. rewrite List.Forall_forall in Hpre. exact (Hpre _ Hin). }
  destruct (EpgRoute.total_failure result) eqn:Htot.
  - destruct (fetched_single_error E url w1 result w3 Hfetch
                (total_failure_errors result Htot)) as (reason & Hone & _ & Hjoin).
    rewrite Hjoin, Hone.
    pose proof (record_fetch_frame (EPGSource.id source) (clock E (clock_reads w3))
                  (Some reason) w3) as Hrec.
    unfold record_fetch in Hrec. rewrite Hs3 in Hrec at 1.
    unfold Queries.updateEPGSourceFetch, bind, Date_now, run.
    cbn [world_of value_of log apply_statement set_sources fetched executed
         epg_programs epg_sources] in Hrec |- *.
    split; [congruence|]. split.
    { intros s Hin. apply List.in_app_or in Hin as [Hin | [<- | []]];
        [now apply Hsrc | left; discriminate]. }
    split; [|split; intros; discriminate].
    intros _. exists reason. split; [reflexivity|]. split; [reflexivity|].
    split; [congruence | exact Hrec].
  - destruct (insertEPGPrograms_run E (EPGSource.id source) (Xmltv.programs result)
                (wiped (EPGSource.id source) w3))
      as (batches & Hp & He & Hs & Hf & Hok & Hcase).
    assert (Hexec : forall s,
              In s (executed (world_of
                      (Queries.insertEPGPrograms E (EPGSource.id source)
                         (Xmltv.programs result) (wiped (EPGSource.id source) w3)))) ->
              (forall sid t, s <> DeleteProgramsEndedBefore sid t)
              \/ In s (executed w)).
    { intros s Hin. rewrite He in Hin.
      cbn [wiped log executed apply_statement set_programs] in Hin.
      apply List.in_app_or in Hin as [Hin|Hin].
      - apply List.in_app_or in Hin as [Hin | [<- | []]];
          [now apply Hsrc | left; discriminate].
      - left. apply List.in_map_iff in Hin as (b & <- & _). discriminate. }
    cbn [wiped log apply_statement set_programs fetched epg_programs epg_sources]
      in Hp, Hf, Hs.
    destruct (stored_after_clear (EPGSource.id source) (epg_programs w3) batches _ Hok)
      as [H1 H2].
    unfold stored_of_others in H1, H2.
    destruct (Queries.insertEPGPrograms E (EPGSource.id source) (Xmltv.programs result)
                (wiped (EPGSource.id source) w3)) as [[] w6|e w6];
      cbn [world_of value_of] in *.
    + destruct Hcase as [(_ & Hnum & Hrw & _) | (Hthr & _)]; [|discriminate].
      pose proof (record_fetch_frame (EPGSource.id source) (clock E (clock_reads w6))
                    None w6) as Hrec.
      unfold record_fetch in Hrec. rewrite Hs, Hs3 in Hrec at 1.
      unfold Queries.updateEPGSourceFetch, bind, Date_now, run.
      cbn [world_of log apply_statement set_sources fetched executed epg_programs
           epg_sources] in Hrec |- *.
      split; [congruence|]. split.
      { intros s Hin. apply List.in_app_or in Hin as [Hin | [<- | []]];
          [now apply Hexec | left; discriminate]. }
      split; [intros; discriminate|].
      split; [|intros _ Hnot; contradiction].
      intros _ _.
      rewrite (fetched_result_errors url w1 result w3 Hfetch Htot).
      split; [reflexivity|].
      rewrite Hp. unfold stored_of_others. rewrite H1, H2.
      split; [exact Hrw|]. split; [congruence|].
      exists (clock_reads w6). exact Hrec.
    + destruct Hcase as [(Hret & _) | (_ & _ & _ & Hbad)]; [discriminate|].
      split; [congruence|]. split; [exact Hexec|].
      split; [intros; discriminate|].
      split; [intros _ Hall; exfalso; apply Hbad; now apply Forall_take, Forall_drop|].
      intros _ _. split; [reflexivity|]. split; [congruence|].
      rewrite Hp. unfold stored_of_others. rewrite H2. congruence.
Qed.

End ForcedRefresh.

(** The source of playlist [pl1] was fetched ten minutes ago; the forced
    refresh fetches all the same and stores the one program of the
    guide. *)
Lemma post_refresh_forced_witness :
  let E := Refresh.ticking_env (Xmltv.Body (Xmltv.Tv [Refresh.one_programme])) in
  let o := EpgHandlers.post_refresh E "pl1" (Some (Some "http://g.example/guide.xml"))
             true SourceMore.fetched_world in
  D1.fetched (D1.world_of o) = ["http://g.example/guide.xml"]
  /\ D1.value_of o = Some (EpgHandlers.Refreshed 1 None)
  /\ List.length (D1.epg_programs (D1.world_of o)) = 1%nat.
Proof.
  cbv zeta.
  destruct (proj1 (post_refresh_forced
                     (Refresh.ticking_env (Xmltv.Body (Xmltv.Tv [Refresh.one_programme])))
                     "pl1" "http://g.example/guide.xml" SourceMore.fetched_world))
    as (source & w1 & result & w3 & Hget & Hfetch & Hf & _ & _ & Hgood & _).
  - discriminate.
  - vm_compute in Hget. injection Hget as <- <-.
    vm_compute in Hfetch. injection Hfetch as <- <-.
    destruct Hgood as (Hval & _).
    + reflexivity.
    + repeat constructor; discriminate.
    + split; [exact Hf|]. split; [exact Hval|]. vm_compute. reflexivity.
Defined.

(** ** Now and next from a list of parsed programs *)

Section MemoryNowNextFacts.
Import MemoryNowNext.
Variable now : Z.

Lemma upcoming_not_airing_m p : upcoming now p = true -> airing now p = false.
Proof.
  unfold upcoming, airing, Js.gt, Js.lt, Js.le.
  destruct (Xmltv.start_time p) as [s|]; [|discriminate].
  intros H. apply Z.ltb_lt in H.
  destruct (Z.leb_spec s now); [lia | reflexivity].
Qed.

(** The loop of [getNowNext] stops at the first upcoming program and
    keeps the last airing one before it. *)
Lemma getNowNext_loop_spec l : forall acc,
  Xmltv.getNowNext_loop now l acc None
  = (last_airing now acc (before_upcoming now l), List.find (upcoming now) l).
Proof.
  induction l as [|p l IH]; intros acc; [reflexivity|].
  cbn [Xmltv.getNowNext_loop before_upcoming List.find].
  fold (airing now p). fold (upcoming now p).
  destruct (airing now p) eqn:Ha.
  - destruct (upcoming now p) eqn:Hu.
    + apply upcoming_not_airing_m in Hu. congruence.
    + cbn [last_airing]. rewrite Ha. apply IH.
  - destruct (upcoming now p) eqn:Hu; cbn [negb andb last_airing];
      [reflexivity|]. rewrite Ha. apply IH.
Qed.

Lemma before_upcoming_split l :
  Forall (fun q => upcoming now q = false) (before_upcoming now l)
  /\ ((List.find (upcoming now) l = None /\ before_upcoming now l = l)
      \/ exists u l2, List.find (upcoming now) l = Some u
                      /\ upcoming now u = true
                      /\ l = (before_upcoming now l ++ u :: l2)%list).
Proof.
  induction l as [|p l [IHf IH]]; cbn [before_upcoming List.find].
  - split; [constructor | now left].
  - destruct (upcoming now p) eqn:Hu.
    + split; [constructor|]. right. exists p, l. repeat split. exact Hu.
    + split; [constructor; assumption|].
      destruct IH as [[Hn He] | (u & l2 & Hf & Hup & He)].
      * left. split; [exact Hn | now rewrite He].
      * right. exists u, l2. repeat split; [exact Hf | exact Hup|].
        cbn [List.app]. now rewrite <- He.
Qed.

Lemma last_airing_m_split l : forall acc p,
  last_airing now acc l = Some p ->
  (acc = Some p /\ forall q, In q l -> airing now q = false)
  \/ exists l1 l2, l = (l1 ++ p :: l2)%list /\ airing now p = true
                   /\ forall q, In q l2 -> airing now q = false.
Proof.
  induction l as [|x l IH]; intros acc p H; cbn [last_airing] in H.
  - left. split; [exact H|]. intros q [].
  - apply IH in H as [[Hacc Hl] | (l1 & l2 & -> & Hp & Hl2)].
    + destruct (airing now x) eqn:Hx.
      * injection Hacc as ->. right. exists [], l. repeat split; assumption.
      * left. split; [exact Hacc|]. intros q [<-|Hq]; auto.
    + right. exists (x :: l1), l2. repeat split; assumption.
Qed.

Lemma last_airing_m_some l : forall a, last_airing now (Some a) l <> None.
Proof.
  induction l as [|x l IH]; intros a; cbn [last_airing]; [discriminate|].
  destruct (airing now x); apply IH.
Qed.

Lemma last_airing_m_none l : forall acc,
  last_airing now acc l = None -> forall q, In q l -> airing now q = false.
Proof.
  induction l as [|x l IH]; intros acc H q Hq; [destruct Hq|].
  cbn [last_airing] in H. destruct Hq as [->|Hq]; [|eauto].
  destruct (airing now q) eqn:Hx; [|reflexivity].
  now apply last_airing_m_some in H.
Qed.

(** *** The sort *)

Lemma not_after_iff a b :
  has_start a -> has_start b ->
  (Xmltv.not_after a b = true <-> starts_no_later a b).
Proof.
  unfold has_start, Xmltv.not_after, starts_no_later, Js.sub, Js.lift2, Js.le.
  destruct (Xmltv.start_time a) as [x|]; [|contradiction].
  destruct (Xmltv.start_time b) as [y|]; [|contradiction].
  intros _ _. rewrite !Z.leb_le. lia.
Qed.

Lemma starts_no_later_total a b :
  has_start a -> has_start b -> Xmltv.not_after a b = false -> starts_no_later b a.
Proof.
  unfold has_start, Xmltv.not_after, starts_no_later, Js.sub, Js.lift2, Js.le.
  destruct (Xmltv.start_time a) as [x|]; [|contradiction].
  destruct (Xmltv.start_time b) as [y|]; [|contradiction].
  intros _ _. rewrite Z.leb_gt, Z.leb_le. lia.
Qed.

Lemma starts_no_later_trans a b c :
  starts_no_later a b -> starts_no_later b c -> starts_no_later a c.
Proof.
  unfold starts_no_later, Js.le.
  destruct (Xmltv.start_time a), (Xmltv.start_time b), (Xmltv.start_time c);
    try discriminate.
  rewrite !Z.leb_le. lia.
Qed.

Lemma starts_no_later_refl a : has_start a -> starts_no_later a a.
Proof.
  unfold has_start, starts_no_later, Js.le.
  destruct (Xmltv.start_time a); [|contradiction]. intros _. apply Z.leb_refl.
Qed.

Lemma insert_by_start_In p l x :
  In x (Xmltv.insert_by_start p l) <-> x = p \/ In x l.
Proof.
  induction l as [|y l IH]; cbn [Xmltv.insert_by_start].
  - cbn. intuition.
  - destruct (Xmltv.not_after p y); cbn [In]; [intuition|].
    rewrite IH. intuition.
Qed.

Lemma sort_by_start_In l x : In x (Xmltv.sort_by_start l) <-> In x l.
Proof.
  unfold Xmltv.sort_by_start. induction l as [|y l IH]; cbn [List.fold_right]; [tauto|].
  rewrite insert_by_start_In, IH. cbn. intuition.
Qed.

Lemma insert_by_start_sorted p l :
  has_start p -> Forall has_start l ->
  StronglySorted starts_no_later l ->
  StronglySorted starts_no_later (Xmltv.insert_by_start p l).
Proof.
  intros Hp Hl Hs. induction Hs as [|y l Hs IH Hy]; cbn [Xmltv.insert_by_start].
  - constructor; constructor.
  - inversion Hl as [|? ? Hhy Hhl]; subst.
    destruct (Xmltv.not_after p y) eqn:Hpy.
    + apply not_after_iff in Hpy; [|assumption..].
      constructor; [constructor; assumption|].
      constructor; [exact Hpy|].
      eapply List.Forall_impl; [|exact Hy].
      intros z Hz. eapply starts_no_later_trans; eassumption.
    + constructor; [now apply IH|].
      apply List.Forall_forall. intros z Hz.
      apply insert_by_start_In in Hz as [->|Hz].
      * now apply starts_no_later_total.
      * rewrite List.Forall_forall in Hy. now apply Hy.
Qed.

Lemma sort_by_start_sorted l :
  Forall has_start l -> StronglySorted starts_no_later (Xmltv.sort_by_start l).
Proof.
  unfold Xmltv.sort_by_start. induction 1 as [|y l Hy Hl IH]; cbn [List.fold_right].
  - constructor.
  - apply insert_by_start_sorted; [exact Hy| |exact IH].
    apply List.Forall_forall. intros z Hz.
    apply (sort_by_start_In l z) in Hz. rewrite List.Forall_forall in Hl. now apply Hl.
Qed.

Lemma sorted_around {A} (R : A -> A -> Prop) l1 x l2 :
  StronglySorted R (l1 ++ x :: l2) ->
  Forall (fun y => R y x) l1 /\ Forall (R x) l2.
Proof.
  induction l1 as [|y l1 IH]; cbn [List.app]; intros H;
    inversion H as [|? ? Hs Hf]; subst.
  - split; [constructor | exact Hf].
  - destruct (IH Hs) as [IH1 IH2]. split; [|exact IH2].
    constructor; [|exact IH1].
    rewrite List.Forall_forall in Hf. apply Hf, List.in_or_app. right. now left.
Qed.

Lemma upcoming_later a b :
  upcoming now a = true -> starts_no_later a b -> upcoming now b = true.
Proof.
  unfold upcoming, starts_no_later, Js.gt, Js.lt, Js.le.
  destruct (Xmltv.start_time a), (Xmltv.start_time b); try discriminate.
  rewrite Z.ltb_lt, Z.leb_le, Z.ltb_lt. lia.
Qed.

(** X18. For a channel whose programs all have a numeric start,
    [getNowNext] returns as [now] an airing program of the channel that
    no other airing program of the channel starts after, and as [next]
    an upcoming program of the channel that no other upcoming program of
    the channel starts before; either is absent exactly when the channel
    has no such program. *)
Theorem getNowNext_in_memory (programs : list Xmltv.EPGProgram) (channelId : string) :
  (forall p, In p programs -> Xmltv.channel_id p = channelId -> has_start p) ->
  let r := Xmltv.getNowNext programs channelId now in
  (forall p, fst r = Some p ->
     In p programs /\ Xmltv.channel_id p = channelId /\ airing now p = true
     /\ forall q, In q programs -> Xmltv.channel_id q = channelId ->
                  airing now q = true -> starts_no_later q p)
  /\ (fst r = None ->
      forall q, In q programs -> Xmltv.channel_id q = channelId -> airing now q = false)
  /\ (forall p, snd r = Some p ->
        In p programs /\ Xmltv.channel_id p = channelId /\ upcoming now p = true
        /\ forall q, In q programs -> Xmltv.channel_id q = channelId ->
                     upcoming now q = true -> starts_no_later p q)
  /\ (snd r = None ->
      forall q, In q programs -> Xmltv.channel_id q = channelId -> upcoming now q = false).
Proof.
  intros Hstart. cbv zeta. unfold Xmltv.getNowNext.
  set (l := Xmltv.sort_by_start
              (List.filter (fun p => String.eqb (Xmltv.channel_id p) channelId) programs)).
  assert (Hin : forall x, In x l <-> In x programs /\ Xmltv.channel_id x = channelId).
  { intros x. unfold l. rewrite sort_by_start_In, List.filter_In, String.eqb_eq. tauto. }
  assert (Hhas : forall x, In x l -> has_start x).
  { intros x Hx. apply Hin in Hx as [Hx Hc]. now apply Hstart. }
  assert (Hsorted : StronglySorted starts_no_later l).
  { apply sort_by_start_sorted, List.Forall_forall. intros x Hx.
    apply List.filter_In in Hx as [Hx Hc]. apply String.eqb_eq in Hc. now apply Hstart. }
  rewrite getNowNext_loop_spec. cbn [fst snd].
  destruct (before_upcoming_split l) as [Hbefore Hsplit].
  rewrite List.Forall_forall in Hbefore.
  (* the airing programs all stand before the first upcoming one *)
  assert (Hair : forall q, In q l -> airing now q = true ->
                           In q (before_upcoming now l)).
  { intros q Hq Ha.
    destruct Hsplit as [[_ ->] | (u & l2 & _ & Hu & He)]; [exact Hq|].
    rewrite He in Hq. apply List.in_app_or in Hq as [Hq | [<- | Hq]]; [exact Hq| |].
    - apply upcoming_not_airing_m in Hu. congruence.
    - rewrite He in Hsorted. apply sorted_around in Hsorted as [_ Hl2].
      rewrite List.Forall_forall in Hl2.
      pose proof (upcoming_later u q Hu (Hl2 q Hq)) as Huq.
      apply upcoming_not_airing_m in Huq. congruence. }
  assert (Hsub : forall q, In q (before_upcoming now l) -> In q l).
  { intros q Hq. destruct Hsplit as [[_ <-] | (u & l2 & _ & _ & ->)]; [exact Hq|].
    apply List.in_or_app. now left. }
  assert (Hbsorted : StronglySorted starts_no_later (before_upcoming now l)).
  { destruct Hsplit as [[_ ->] | (u & l2 & _ & _ & He)]; [exact Hsorted|].
    rewrite He in Hsorted. clear -Hsorted.
    induction (before_upcoming now l) as [|y l1 IH]; [constructor|].
    cbn [List.app] in Hsorted. inversion Hsorted as [|? ? Hs Hf]; subst.
    constructor; [now apply IH|].
    rewrite List.Forall_forall in Hf |- *. intros z Hz. apply Hf, List.in_or_app. now left. }
  split; [|split; [|split]].
  - intros p Hp.
    apply last_airing_m_split in Hp as [[Hacc _] | (l1 & l2 & He & Ha & Hl2)];
      [discriminate|].
    assert (Hpl : In p l).
    { apply Hsub. rewrite He. apply List.in_or_app. right. now left. }
    destruct (proj1 (Hin p) Hpl) as [Hpp Hpc].
    split; [exact Hpp|]. split; [exact Hpc|]. split; [exact Ha|].
    intros q Hq Hqc Hqa.
    pose proof (Hair q (proj2 (Hin q) (conj Hq Hqc)) Hqa) as Hqb.
    rewrite He in Hqb, Hbsorted.
    apply sorted_around in Hbsorted as [Hl1 _]. rewrite List.Forall_forall in Hl1.
    apply List.in_app_or in Hqb as [Hqb | [<- | Hqb]].
    + now apply Hl1.
    + apply starts_no_later_refl. now apply Hhas.
    + rewrite (Hl2 q Hqb) in Hqa. discriminate.
  - intros Hnone q Hq Hqc.
    destruct (airing now q) eqn:Ha; [|reflexivity].
    pose proof (Hair q (proj2 (Hin q) (conj Hq Hqc)) Ha) as Hqb.
    rewrite (last_airing_m_none _ _ Hnone q Hqb) in Ha. discriminate.
  - intros p Hp.
    destruct Hsplit as [[Hn _] | (u & l2 & Hf & Hu & He)]; [congruence|].
    rewrite Hf in Hp. injection Hp as <-.
    assert (Hul : In u l) by (rewrite He; apply List.in_or_app; right; now left).
    destruct (proj1 (Hin u) Hul) as [Hup Huc].
    split; [exact Hup|]. split; [exact Huc|]. split; [exact Hu|].
    intros q Hq Hqc Hqu.
    pose proof (proj2 (Hin q) (conj Hq Hqc)) as Hql.
    rewrite He in Hql, Hsorted. apply sorted_around in Hsorted as [_ Hl2].
    rewrite List.Forall_forall in Hl2.
    apply List.in_app_or in Hql as [Hql | [<- | Hql]].
    + rewrite (Hbefore q Hql) in Hqu. discriminate.
    + apply starts_no_later_refl. now apply Hhas.
    + now apply Hl2.
  - intros Hnone q Hq Hqc.
    destruct Hsplit as [[_ He] | (u & l2 & Hf & _)]; [|congruence].
    apply Hbefore. rewrite He. apply Hin. now split.
Qed.

End MemoryNowNextFacts.

(** At time 25 the program from 20 to 30 is on and the one from 30 to 40
    is next. *)
Lemma getNowNext_in_memory_witness :
  In (StoreMore.prog "bbc1" 30 40) MemoryNowNext.schedule
  /\ MemoryNowNext.upcoming 25 (StoreMore.prog "bbc1" 30 40) = true.
Proof.
  assert (Hstart : forall p, In p MemoryNowNext.schedule ->
                             Xmltv.channel_id p = "bbc1" -> MemoryNowNext.has_start p).
  { intros q Hq _. vm_compute in Hq.
    destruct Hq as [<- | [<- | [<- | [<- | []]]]]; discriminate. }
  destruct (proj1 (proj2 (proj2 (getNowNext_in_memory 25 MemoryNowNext.schedule
                                   "bbc1" Hstart)))
              (StoreMore.prog "bbc1" 30 40)) as (Hin & _ & Hup & _).
  - vm_compute. reflexivity.
  - split; [exact Hin | exact Hup].
Defined.

(** ** The channel list with guide data *)

Section ChannelsHandlerFacts.
Import D1 ChannelsHandler.
Local Open Scope d1_scope.
Variable E : Env.

Lemma refreshEPGIfNeeded_returns playlistId epgUrl w :
  exists r w', EpgRoute.refreshEPGIfNeeded E playlistId epgUrl w = Ok r w'.
Proof.
  unfold EpgRoute.refreshEPGIfNeeded, try_catch.
  match goal with
  | |- context [match ?m with Ok _ _ => _ | Thrown _ _ => _ end] => destruct m
  end; eexists; eexists; reflexivity.
Qed.

Lemma getNowNextPrograms_returns sourceId channelIds w :
  exists data w', Queries.getNowNextPrograms E sourceId channelIds w = Ok data w'.
Proof.
  unfold Queries.getNowNextPrograms, Queries.getNowNextPrograms_at, bind, Date_now.
  destruct channelIds; eexists; eexists; reflexivity.
Qed.

Lemma epg_data_run playlistId epg_url channels w :
  exists data w',
    epg_data E playlistId epg_url channels w
    = Ok (match epg_url with Some u => M3u.truthy u | None => false end, data) w'
    /\ (match epg_url with Some u => M3u.truthy u | None => false end = false ->
        w' = w /\ data = ∅)
    /\ (forall u, epg_url = Some u -> M3u.truthy u = true ->
          exists r w1,
            EpgRoute.refreshEPGIfNeeded E playlistId u w = Ok r w1
            /\ match EpgRoute.source r with
               | None => data = ∅ /\ w' = w1
               | Some source =>
                   match ChannelsRoute.channelIds channels with
                   | [] => data = ∅ /\ w' = w1
                   | ids =>
                       Queries.getNowNextPrograms E (EPGSource.id source) ids w1
                       = Ok data w'
                   end
               end).
Proof.
  unfold epg_data. destruct epg_url as [u|].
  2:{ exists ∅, w. split; [reflexivity|]. split; [now split | discriminate]. }
  destruct (M3u.truthy u) eqn:Hu.
  2:{ exists ∅, w. split; [reflexivity|]. split; [now split|].
      intros u' [= <-]. congruence. }
  destruct (refreshEPGIfNeeded_returns playlistId u w) as (r & w1 & Hrun).
  unfold bind at 1. rewrite Hrun.
  destruct (EpgRoute.source r) as [source|] eqn:Hsrc.
  - destruct (ChannelsRoute.channelIds channels) as [|c ids] eqn:Hids.
    + exists ∅, w1. split; [reflexivity|]. split; [discriminate|].
      intros u' [= <-] _. exists r, w1. split; [exact Hrun|].
      rewrite Hsrc. now split.
    + destruct (getNowNextPrograms_returns (EPGSource.id source) (c :: ids) w1)
        as (data & w2 & Hdata).
      unfold bind. rewrite Hdata. exists data, w2.
      split; [reflexivity|]. split; [discriminate|].
      intros u' [= <-] _. exists r, w1. split; [exact Hrun|].
      rewrite Hsrc. exact Hdata.
  - exists ∅, w1. split; [reflexivity|]. split; [discriminate|].
    intros u' [= <-] _. exists r, w1. split; [exact Hrun|].
    rewrite Hsrc. now split.
Qed.

Lemma channel_of_merge data channels :
  List.map ChannelsRoute.channel_of (ChannelsRoute.channelsWithEPG channels data)
  = channels.
Proof.
  unfold ChannelsRoute.channelsWithEPG.
  induction channels as [|[n u l g t] channels IH]; cbn [List.map]; [reflexivity|].
  now rewrite IH.
Qed.

Lemma merged_epg data channels c :
  In c (ChannelsRoute.channelsWithEPG channels data) ->
  (ChannelsRoute.tvg_id c = None \/ ChannelsRoute.tvg_id c = Some EmptyString ->
   ChannelsRoute.epg c = None)
  /\ (forall t, ChannelsRoute.tvg_id c = Some t -> t <> EmptyString ->
        ChannelsRoute.epg c = data !! t).
Proof.
  unfold ChannelsRoute.channelsWithEPG. intros Hin.
  apply List.in_map_iff in Hin as (ch & <- & _).
  cbn [ChannelsRoute.merge_one ChannelsRoute.epg ChannelsRoute.tvg_id].
  unfold ChannelsRoute.epg_of. split.
  - intros [-> | ->]; reflexivity.
  - intros t -> Ht. destruct t; [contradiction | reflexivity].
Qed.

Lemma channelIds_In channels t :
  In t (ChannelsRoute.channelIds channels)
  <-> exists ch, In ch channels /\ M3u.tvg_id ch = Some t /\ t <> EmptyString.
Proof.
  unfold ChannelsRoute.channelIds. rewrite List.in_flat_map. split.
  - intros (ch & Hin & Ht). exists ch. split; [exact Hin|].
    destruct (M3u.tvg_id ch) as [[|a x]|]; cbn in Ht; [destruct Ht| |destruct Ht].
    destruct Ht as [<- | []]. split; [reflexivity | discriminate].
  - intros (ch & Hin & Ht & Hne). exists ch. split; [exact Hin|].
    rewrite Ht. destruct t; [contradiction | now left].
Qed.

(** X19. Once the playlist has parsed to at least one channel or
    without errors, the handler answers with the channels left by the
    search, in order and with their fields, with their number, and with
    the parse warnings if there are any. It reports a guide as available
    exactly when the header names one, whether or not any guide data
    could be had. The guide data is empty when the header names no
    guide (then nothing is fetched or executed), when the refresh ends
    without a source, and when no channel left by the search has a
    non-empty guide id; otherwise it is what [getNowNextPrograms]
    returns, after the refresh, for the source and the non-empty guide
    ids of those channels. A channel with a non-empty guide id carries
    the entry of that id, if there is one; a channel without one carries
    none. The guide ids are taken not to name a member that every plain
    object inherits. *)
Theorem after_parse_channels (playlistId searchTerm : string)
    (parseResult : M3u.ParseResult) (w : World) :
  let o := after_parse E playlistId searchTerm parseResult w in
  let channels := M3uChannels.filterChannels (M3u.channels parseResult) searchTerm in
  M3u.errors parseResult = [] \/ M3u.channels parseResult <> [] ->
  JsObject.own_keys (ChannelsRoute.channelIds (M3u.channels parseResult)) ->
  exists chs (data : gmap string Queries.NowNext),
    value_of o
    = Some (Channels chs (List.length chs) (names_guide parseResult)
              (M3u.epg_url parseResult)
              (if M3u.errors parseResult is [] then None
               else Some (M3u.errors parseResult)))
    /\ List.map ChannelsRoute.channel_of chs = channels
    /\ (forall c, In c chs ->
          (ChannelsRoute.tvg_id c = None \/ ChannelsRoute.tvg_id c = Some EmptyString ->
           ChannelsRoute.epg c = None)
          /\ (forall t, ChannelsRoute.tvg_id c = Some t -> t <> EmptyString ->
                ChannelsRoute.epg c = data !! t))
    /\ (forall t, In t (ChannelsRoute.channelIds channels)
                  <-> exists ch, In ch channels /\ M3u.tvg_id ch = Some t
                                 /\ t <> EmptyString)
    /\ (names_guide parseResult = false -> data = ∅ /\ world_of o = w)
    /\ (forall u, M3u.epg_url parseResult = Some u -> u <> EmptyString ->
          exists r w1,
            EpgRoute.refreshEPGIfNeeded E playlistId u w = Ok r w1
            /\ match EpgRoute.source r with
               | None => data = ∅ /\ world_of o = w1
               | Some source =>
                   match ChannelsRoute.channelIds channels with
                   | [] => data = ∅ /\ world_of o = w1
                   | ids =>
                       Queries.getNowNextPrograms E (EPGSource.id source) ids w1
                       = Ok data (world_of o)
                   end
               end).
Proof.
  cbv zeta. intros Hok _. unfold after_parse.
  assert (Hcond : (0 <? List.length (M3u.errors parseResult))%nat
                  && (List.length (M3u.channels parseResult) =? 0)%nat = false).
  { destruct Hok as [-> | Hne]; [reflexivity|].
    destruct (M3u.channels parseResult); [contradiction|].
    apply andb_false_r. }
  rewrite Hcond.
  assert (Hsearch : (if M3u.truthy searchTerm
                     then M3uChannels.filterChannels (M3u.channels parseResult) searchTerm
                     else M3u.channels parseResult)
                    = M3uChannels.filterChannels (M3u.channels parseResult) searchTerm).
  { destruct searchTerm; reflexivity. }
  rewrite Hsearch.
  set (channels := M3uChannels.filterChannels (M3u.channels parseResult) searchTerm).
  destruct (epg_data_run playlistId (M3u.epg_url parseResult) channels w)
    as (data & w' & Hrun & Hnone & Hguide).
  unfold bind. rewrite Hrun. cbn [fst snd ret value_of world_of].
  exists (ChannelsRoute.channelsWithEPG channels data), data.
  split.
  { unfold names_guide. repeat f_equal.
    now destruct (M3u.errors parseResult). }
  split; [apply channel_of_merge|].
  split; [intros c Hc; now apply (merged_epg data channels)|].
  split; [intros t; apply channelIds_In|].
  split.
  - intros Hg. destruct (Hnone Hg) as [-> ->]. now split.
  - intros u Hu Hne. apply (Hguide u Hu).
    destruct u; [contradiction | reflexivity].
Qed.

End ChannelsHandlerFacts.

(** A playlist without a guide address: nothing is fetched or executed. *)
Lemma after_parse_channels_witness :
  D1.world_of (ChannelsHandler.after_parse
                 (Refresh.ticking_env (Xmltv.Body Xmltv.NoTv)) "pl1" EmptyString
                 ChannelsHandler.parsed_without_guide Refresh.stale_world)
  = Refresh.stale_world.
Proof.
  destruct (after_parse_channels (Refresh.ticking_env (Xmltv.Body Xmltv.NoTv))
              "pl1" EmptyString ChannelsHandler.parsed_without_guide
              Refresh.stale_world (or_introl eq_refl))
    as (chs & data & _ & _ & _ & _ & Hnone & _).
  - repeat constructor.
  - exact (proj2 (Hnone eq_refl)).
Defined.

(** ** The schedule of one channel *)

Section ChannelProgramsFacts.
Import ChannelPrograms.







End ChannelProgramsFacts.


(** ** The now/next route *)

Section NowNextHandlerFacts.
Import D1 NowNextHandler.
Local Open Scope d1_scope.
Variable E : Env.

Lemma channel_ids_nonempty param id :
  In id (channel_ids param) ->
  id <> EmptyString
  /\ exists p piece, param = Some p /\ In piece (split_on "," p) /\ id = Js.trim piece.
Proof.
  unfold channel_ids. destruct param as [p|]; [|intros []].
  destruct (M3u.truthy p); [|intros []].
  intros Hin. apply List.filter_In in Hin as [Hin Ht].
  apply List.in_map_iff in Hin as (piece & <- & Hpiece).
  split; [intros He; rewrite He in Ht; discriminate|].
  exists p, piece. repeat split. exact Hpiece.
Qed.

(** X21. The now/next route only reads: whatever it answers, it has
    fetched nothing and both tables are as they were, whatever the age
    of the stored guide. With the selects taken to succeed, a caller who
    is not the owner is refused before anything is executed; for a
    playlist without a stored source the answer says so after the select
    of the source; when no comma-separated piece of the parameter is
    left non-empty by trimming, the channel ids are asked for; otherwise
    the route executes one select of programs, for the stored source,
    the trimmed non-empty pieces and the clock reading, and answers with
    programs and the last fetch time of the stored source. *)
Theorem get_now_next_reads (playlistId : string) (channelIdsParam : option string)
    (isOwner : bool) (w : World) :
  let o := get_now_next E playlistId channelIdsParam isOwner w in
  let ids := channel_ids channelIdsParam in
  (fetched (world_of o) = fetched w
   /\ epg_sources (world_of o) = epg_sources w
   /\ epg_programs (world_of o) = epg_programs w)
  /\ (forall id, In id ids ->
        id <> EmptyString
        /\ exists p piece, channelIdsParam = Some p /\ In piece (split_on "," p)
                           /\ id = Js.trim piece)
  /\ (isOwner = false -> o = Ok Denied w)
  /\ (isOwner = true ->
      match Refresh.stored_source playlistId w with
      | None =>
          value_of o = Some NoGuide
          /\ executed (world_of o)
             = (executed w ++ [SelectSourceByPlaylist playlistId])%list
      | Some source =>
          match ids with
          | [] =>
              value_of o = Some ChannelIdsRequired
              /\ executed (world_of o)
                 = (executed w ++ [SelectSourceByPlaylist playlistId])%list
          | _ =>
              (exists programs,
                  value_of o = Some (Programs programs (EPGSource.last_fetched source)))
              /\ executed (world_of o)
                 = (executed w ++
                    [SelectSourceByPlaylist playlistId;
                     SelectNowNext (EPGSource.id source) ids
                       (clock E (clock_reads w))])%list
          end
      end).
Proof.
  cbv zeta. split; [|split; [intros id; apply channel_ids_nonempty|]].
  - unfold get_now_next, try_catch. destruct isOwner; cbn [negb]; [|now cbn].
    unfold Queries.getEPGSourceForPlaylist, bind, run.
    cbn [log apply_statement epg_sources ret].
    destruct (Queries.first_by_playlist playlistId (epg_sources w)); [|now cbn].
    destruct (channel_ids channelIdsParam); [now cbn|].
    unfold Queries.getNowNextPrograms, Queries.getNowNextPrograms_at, bind, Date_now, run.
    now cbn.
  - split; [intros ->; reflexivity|]. intros ->.
    unfold get_now_next, try_catch. cbn [negb].
    unfold Queries.getEPGSourceForPlaylist, bind, run.
    cbn [log apply_statement epg_sources ret]. unfold Refresh.stored_source.
    destruct (Queries.first_by_playlist playlistId (epg_sources w)) as [source|];
      [|now cbn].
    destruct (channel_ids channelIdsParam) as [|c ids]; [now cbn|].
    unfold Queries.getNowNextPrograms, Queries.getNowNextPrograms_at, bind, Date_now, run.
    cbn [world_of value_of log apply_statement executed clock_reads ret].
    split; [eexists; reflexivity|]. now rewrite <- List.app_assoc.
Qed.

End NowNextHandlerFacts.
